(** * Handfat ROI-kalkylator: the calculation core of [src/app/page.tsx]

    The development embeds the three pure parts of the page component:
    the input normalizer ([toNum], [clamp], [parsed]), the calculation
    engine ([calc]) and the advisory evaluator ([safetyNotes]).

    A JavaScript [number] is an IEEE 754 binary64 value.  It is modelled
    by [spec_float] of the Standard Library with precision 53 and maximal
    exponent 1024, so every arithmetic step rounds exactly as the engine
    does at run time, and NaN, the two infinities and the two zeros are
    values like any other. *)

From Stdlib Require Import ZArith Bool List String Ascii Lia.
From Stdlib Require Import Reals Lra.
From Stdlib Require Import Floats.SpecFloat.
Import ListNotations.

Local Open Scope Z_scope.

(** ** JavaScript numbers *)

Module JS.

Definition prec : Z := 53.
Definition emax : Z := 1024.

Definition number : Type := spec_float.

Definition NaN : number := S754_nan.
Definition pos_zero : number := S754_zero false.
Definition neg_zero : number := S754_zero true.
Definition Infinity : number := S754_infinity false.

(** An integer literal of the program text. *)
Definition num (z : Z) : number := binary_normalize prec emax z 0 false.

Definition mul (a b : number) : number := SFmul prec emax a b.
Definition div (a b : number) : number := SFdiv prec emax a b.
Definition add (a b : number) : number := SFadd prec emax a b.
Definition sub (a b : number) : number := SFsub prec emax a b.

(** Relational operators.  [a > b] is evaluated as [b < a]; every
    comparison with NaN is false. *)
Definition lt (a b : number) : bool := SFltb a b.
Definition gt (a b : number) : bool := SFltb b a.
Definition le (a b : number) : bool := SFleb a b.
Definition ge (a b : number) : bool := SFleb b a.
(** [===] on two numbers. *)
Definition eq (a b : number) : bool := SFeqb a b.

Definition isNaN (n : number) : bool :=
  match n with S754_nan => true | _ => false end.

Definition isFinite (n : number) : bool :=
  match n with
  | S754_zero _ | S754_finite _ _ _ => true
  | S754_infinity _ | S754_nan => false
  end.

(** [Math.max] and [Math.min] on two arguments: NaN is contagious and
    [+0] counts as larger than [-0]. *)
Definition Math_max (a b : number) : number :=
  if isNaN a || isNaN b then NaN
  else match a, b with
       | S754_zero true, S754_zero false => b
       | _, _ => if lt a b then b else a
       end.

Definition Math_min (a b : number) : number :=
  if isNaN a || isNaN b then NaN
  else match a, b with
       | S754_zero false, S754_zero true => b
       | _, _ => if lt b a then b else a
       end.

(** *** Strings and [Number(string)]

    A string is the sequence of its code units; the model covers the code
    units below 256, one [ascii] each. *)

Definition code (c : ascii) : N := N_of_ascii c.

(** The class [\s] of regular expressions, which is also the white space
    that [Number] trims. *)
Definition is_space (c : ascii) : bool :=
  let n := code c in
  ((9 <=? n) && (n <=? 13) || (n =? 32) || (n =? 160))%N.

Definition is_digit (c : ascii) : bool :=
  let n := code c in ((48 <=? n) && (n <=? 57))%N.

Definition digit_val (c : ascii) : Z := Z.of_N (code c) - 48.

(** Value of a hexadecimal digit, if it is one. *)
Definition hex_val (c : ascii) : option Z :=
  let n := code c in
  if ((48 <=? n) && (n <=? 57))%N then Some (Z.of_N n - 48)
  else if ((65 <=? n) && (n <=? 70))%N then Some (Z.of_N n - 55)
  else if ((97 <=? n) && (n <=? 102))%N then Some (Z.of_N n - 87)
  else None.

Fixpoint ltrim (s : string) : string :=
  match s with
  | String c r => if is_space c then ltrim r else s
  | EmptyString => EmptyString
  end.

Fixpoint rtrim (s : string) : string :=
  match s with
  | String c r =>
      match rtrim r with
      | EmptyString => if is_space c then EmptyString else String c EmptyString
      | r' => String c r'
      end
  | EmptyString => EmptyString
  end.

Definition trim (s : string) : string := rtrim (ltrim s).

(** A maximal run of decimal digits: its value, its length, the rest. *)
Fixpoint digits_acc (s : string) (acc : Z) (len : Z) : Z * Z * string :=
  match s with
  | String c r =>
      if is_digit c then digits_acc r (10 * acc + digit_val c) (len + 1)
      else (acc, len, s)
  | EmptyString => (acc, len, s)
  end.

Definition digits (s : string) : Z * Z * string := digits_acc s 0 0.

(** All of [s] as digits of radix [radix]; at least one digit. *)
Fixpoint radix_acc (radix : Z) (s : string) (acc : Z) : option Z :=
  match s with
  | String c r =>
      match hex_val c with
      | Some d => if d <? radix then radix_acc radix r (radix * acc + d) else None
      | None => None
      end
  | EmptyString => Some acc
  end.

Definition radix_literal (radix : Z) (s : string) : number :=
  match s with
  | EmptyString => NaN
  | _ => match radix_acc radix s 0 with
         | Some z => num z
         | None => NaN
         end
  end.

(** The double nearest to [m * 10^e], with the sign [neg]. *)
Definition decimal (neg : bool) (m e : Z) : number :=
  match m with
  | Zpos p =>
      match e with
      | Zneg _ =>
          SFdiv prec emax (S754_finite neg p 0)
                (S754_finite false (Z.to_pos (10 ^ (- e))) 0)
      | _ => binary_round prec emax neg (Z.to_pos (m * 10 ^ e)) 0
      end
  | _ => S754_zero neg
  end.

(** The exponent part [e], [e+] or [e-] followed by digits, or nothing. *)
Definition exponent_part (s : string) : option Z :=
  match s with
  | EmptyString => Some 0
  | String c r =>
      if ((code c =? 101) || (code c =? 69))%N then
        let '(neg, r1) :=
          match r with
          | String "+"%char r' => (false, r')
          | String "-"%char r' => (true, r')
          | _ => (false, r)
          end in
        match digits r1 with
        | (v, len, EmptyString) =>
            if 0 <? len then Some (if neg then - v else v) else None
        | _ => None
        end
      else None
  end.

(** The digits after the point, appended to the integer part [i]: the
    value of all digits read so far, the number of fraction digits, the
    rest; [dotted] tells whether there was a point. *)
Definition fraction_part (r : string) (i : Z) : Z * Z * string * bool :=
  match r with
  | String c r1 =>
      if Ascii.eqb c "."%char then (digits_acc r1 i 0, true) else (i, 0, r, false)
  | EmptyString => (i, 0, r, false)
  end.

(** [Infinity], or digits with an optional point and exponent; at least one
    digit before or after the point. *)
Definition unsigned_decimal (neg : bool) (s : string) : number :=
  if String.eqb s "Infinity" then S754_infinity neg
  else
    let '(i, ilen, r) := digits s in
    let '(f, flen, r', dotted) := fraction_part r i in
    if (0 <? ilen) || (dotted && (0 <? flen)) then
      match exponent_part r' with
      | Some x => decimal neg f (x - flen)
      | None => NaN
      end
    else NaN.

(** [t] without the prefix [p], if it starts with it. *)
Fixpoint strip_prefix (p t : string) : option string :=
  match p, t with
  | EmptyString, _ => Some t
  | String a p', String b t' => if Ascii.eqb a b then strip_prefix p' t' else None
  | String _ _, EmptyString => None
  end.

Definition radix_prefixes : list (string * Z) :=
  [("0x", 16); ("0X", 16); ("0o", 8); ("0O", 8); ("0b", 2); ("0B", 2)]%string.

(** The literal as a hexadecimal, octal or binary integer, if it has one of
    the prefixes. *)
Fixpoint non_decimal (ps : list (string * Z)) (t : string) : option number :=
  match ps with
  | (p, radix) :: ps' =>
      match strip_prefix p t with
      | Some r => Some (radix_literal radix r)
      | None => non_decimal ps' t
      end
  | [] => None
  end.

Definition signed_decimal (t : string) : number :=
  match t with
  | String c r =>
      if Ascii.eqb c "+"%char then unsigned_decimal false r
      else if Ascii.eqb c "-"%char then unsigned_decimal true r
      else unsigned_decimal false t
  | EmptyString => unsigned_decimal false t
  end.

(** [Number(s)] for a string [s]: the empty or blank text is [+0], anything
    that is not a numeric literal is NaN. *)
Definition Number_of_string (s : string) : number :=
  let t := trim s in
  match t with
  | EmptyString => pos_zero
  | _ => match non_decimal radix_prefixes t with
         | Some n => n
         | None => signed_decimal t
         end
  end.

(** [s.replace(/\s/g, "")]: every white space character is removed. *)
Fixpoint remove_spaces (s : string) : string :=
  match s with
  | String c r => if is_space c then remove_spaces r else String c (remove_spaces r)
  | EmptyString => EmptyString
  end.

(** [s.replace(",", ".")]: a string pattern replaces its first
    occurrence only. *)
Fixpoint replace_first_comma (s : string) : string :=
  match s with
  | String c r =>
      if Ascii.eqb c ","%char then String "."%char r
      else String c (replace_first_comma r)
  | EmptyString => EmptyString
  end.

End JS.

Import JS.

(** ** The source: [src/app/page.tsx] *)

(** A field of the form state: [number | string]. *)
Inductive value : Type :=
  | VStr (s : string)
  | VNum (n : number).

(** [clamp(n, min, max)] *)
Definition clamp (n min max : number) : number :=
  if isNaN n then min
  else Math_min max (Math_max min n).

(** [Number(x)] for [x : string | number]. *)
Definition Number (x : value) : number :=
  match x with
  | VStr s => Number_of_string s
  | VNum n => n
  end.

(** The first line of [toNum]: a text loses its white space and has its
    first comma turned into a point; a number is left alone. *)
Definition decimal_text (v : value) : value :=
  match v with
  | VStr s => VStr (replace_first_comma (remove_spaces s))
  | VNum _ => v
  end.

(** [toNum(v)] *)
Definition toNum (v : value) : number :=
  let x := decimal_text v in
  let n := Number x in
  if isFinite n then n else NaN.

Record CalcInput : Type := mkCalcInput {
  beds : number;
  occupancyPct : number;
  alosDays : number;
  vriPer1000BedDays : number;
  vriPerYearOverride : number;
  gramNegPct : number;
  sinkAttributablePct : number;
  effectPct : number;
  extraDaysPerVRI : number;
  costPerBedDay : number;
  costPerVRI : number;
  pricingMode : string;
  capex : number;
  opexYear : number;
  capexAmortYears : number
}.

(** The object [calc] returns. *)
Record CalcResult : Type := mkCalcResult {
  bedDays : number;
  vri : number;
  vriPer1000 : number;
  gramNeg : number;
  sinkGramNeg : number;
  avoided : number;
  savedBedDays : number;
  savedSEK : number;
  annualCost : number;
  net : number;
  roi : number;
  paybackYears : number;
  usedOverride : bool;
  vriFromRate : number
}.

(** [calc(input)], one [let] per [const] of the source. *)
Definition calc (i : CalcInput) : CalcResult :=
  let occupancy := clamp (div (occupancyPct i) (num 100)) (num 0) (num 1) in
  let bedDays := mul (mul (beds i) (num 365)) occupancy in
  let vriFromRate := mul (div (vriPer1000BedDays i) (num 1000)) bedDays in
  let vri :=
    if isFinite (vriPerYearOverride i) && gt (vriPerYearOverride i) (num 0)
    then vriPerYearOverride i else vriFromRate in
  let gramNeg := mul vri (div (gramNegPct i) (num 100)) in
  let sinkGramNeg := mul gramNeg (div (sinkAttributablePct i) (num 100)) in
  let avoided := mul sinkGramNeg (div (effectPct i) (num 100)) in
  let savedBedDays := mul avoided (extraDaysPerVRI i) in
  let savedSEK :=
    if String.eqb (pricingMode i) "perVRI"
    then mul avoided (costPerVRI i)
    else mul savedBedDays (costPerBedDay i) in
  let annualizedCapex :=
    if gt (capexAmortYears i) (num 0)
    then div (capex i) (capexAmortYears i) else capex i in
  let annualCost := add annualizedCapex (opexYear i) in
  let net := sub savedSEK annualCost in
  let roi := if gt annualCost (num 0) then div net annualCost else NaN in
  let paybackYears :=
    if gt savedSEK (opexYear i)
    then div (capex i) (Math_max (num 1) (sub savedSEK (opexYear i)))
    else NaN in
  let vriPer1000 :=
    if gt bedDays (num 0) then mul (div vri bedDays) (num 1000) else NaN in
  {| bedDays := bedDays;
     vri := vri;
     vriPer1000 := vriPer1000;
     gramNeg := gramNeg;
     sinkGramNeg := sinkGramNeg;
     avoided := avoided;
     savedBedDays := savedBedDays;
     savedSEK := savedSEK;
     annualCost := annualCost;
     net := net;
     roi := roi;
     paybackYears := paybackYears;
     usedOverride :=
       isFinite (vriPerYearOverride i) && gt (vriPerYearOverride i) (num 0);
     vriFromRate := vriFromRate |}.

Module State.

(** [StateType]: the form state, every numeric field a number or its text. *)
Record StateType : Type := mkState {
  beds : value;
  occupancyPct : value;
  alosDays : value;
  vriPer1000BedDays : value;
  vriPerYearOverride : value;
  gramNegPct : value;
  sinkAttributablePct : value;
  effectPct : value;
  extraDaysPerVRI : value;
  costPerBedDay : value;
  costPerVRI : value;
  pricingMode : string;
  capex : value;
  opexYear : value;
  capexAmortYears : value
}.

End State.

Definition StateType : Type := State.StateType.

(** [defaults] *)
Definition defaults : StateType :=
  {| State.beds := VNum (num 24);
     State.occupancyPct := VNum (num 92);
     State.alosDays := VNum (num 4);
     State.vriPer1000BedDays := VNum (num 6);
     State.vriPerYearOverride := VStr "";
     State.gramNegPct := VNum (num 35);
     State.sinkAttributablePct := VNum (num 10);
     State.effectPct := VNum (num 10);
     State.extraDaysPerVRI := VNum (num 5);
     State.costPerBedDay := VNum (num 12000);
     State.costPerVRI := VNum (num 90000);
     State.pricingMode := "bedDays";
     State.capex := VNum (num 350000);
     State.opexYear := VNum (num 25000);
     State.capexAmortYears := VNum (num 5) |}.

(** [parsed]: the normalized input computed from the state.  The spread
    [...state] contributes [pricingMode]; every other field is
    overwritten. *)
Definition parsed (state : StateType) : CalcInput :=
  let vriOverride := toNum (State.vriPerYearOverride state) in
  {| beds := clamp (toNum (State.beds state)) (num 0) (num 2000);
     occupancyPct := clamp (toNum (State.occupancyPct state)) (num 0) (num 100);
     alosDays := clamp (toNum (State.alosDays state)) (num 0) (num 365);
     vriPer1000BedDays :=
       clamp (toNum (State.vriPer1000BedDays state)) (num 0) (num 200);
     vriPerYearOverride := if isFinite vriOverride then vriOverride else NaN;
     gramNegPct := clamp (toNum (State.gramNegPct state)) (num 0) (num 100);
     sinkAttributablePct :=
       clamp (toNum (State.sinkAttributablePct state)) (num 0) (num 100);
     effectPct := clamp (toNum (State.effectPct state)) (num 0) (num 100);
     extraDaysPerVRI :=
       clamp (toNum (State.extraDaysPerVRI state)) (num 0) (num 365);
     costPerBedDay :=
       clamp (toNum (State.costPerBedDay state)) (num 0) (num 1000000);
     costPerVRI := clamp (toNum (State.costPerVRI state)) (num 0) (num 10000000);
     pricingMode := State.pricingMode state;
     capex := clamp (toNum (State.capex state)) (num 0) (num 100000000);
     opexYear := clamp (toNum (State.opexYear state)) (num 0) (num 100000000);
     capexAmortYears :=
       clamp (toNum (State.capexAmortYears state)) (num 1) (num 20) |}.

(** The five advisory texts. *)
Definition note_zero_rate : string :=
  "Du har satt VRI/1000 vårddygn till 0 och ingen override är angiven → kalkylen ger 0 infektioner.".
Definition note_low_sink : string :=
  "Handfatskoppling är satt mycket lågt (≤ 5%). Det är defensivt, men kan underskatta potentialen.".
Definition note_low_effect : string :=
  "Effekt är satt mycket lågt (≤ 5%). Bra som worst-case-scenario.".
Definition note_zero_bedday_cost : string :=
  "Kostnad per vårddygn är 0 → besparing blir 0 i vårddygnsläget.".
Definition note_zero_vri_cost : string :=
  "Kostnad per VRI är 0 → besparing blir 0 i kostnad/VRI-läget.".

(** [notes.push(msg)] under a condition, on the array threaded through the
    five [if] statements. *)
Definition push_if (c : bool) (msg : string) (notes : list string) : list string :=
  if c then notes ++ [msg] else notes.

(** [safetyNotes] *)
Definition safetyNotes (parsed : CalcInput) (result : CalcResult) : list string :=
  let notes := [] in
  let notes :=
    push_if (negb (usedOverride result) && eq (vriPer1000BedDays parsed) (num 0))
            note_zero_rate notes in
  let notes :=
    push_if (le (sinkAttributablePct parsed) (num 5)) note_low_sink notes in
  let notes := push_if (le (effectPct parsed) (num 5)) note_low_effect notes in
  let notes :=
    push_if (String.eqb (pricingMode parsed) "bedDays"
             && eq (costPerBedDay parsed) (num 0))
            note_zero_bedday_cost notes in
  let notes :=
    push_if (String.eqb (pricingMode parsed) "perVRI"
             && eq (costPerVRI parsed) (num 0))
            note_zero_vri_cost notes in
  notes.
(** ** Rounding to binary64, specified over the reals

    The value of a finite float is a real number; a real number is rounded
    to a nearest element of the format, and the operations of [SpecFloat]
    are shown below to compute exactly that. *)

Module Binary64.

Definition bpow (e : Z) : R := powerRZ 2 e.
Definition F2R (m e : Z) : R := (IZR m * bpow e)%R.

Definition loc_frac (l : location) (d : R) : Prop :=
  match l with
  | loc_Exact => d = 0%R
  | loc_Inexact Lt => (0 < d < / 2)%R
  | loc_Inexact Eq => d = (/ 2)%R
  | loc_Inexact Gt => (/ 2 < d < 1)%R
  end.

Definition located (m e : Z) (l : location) (x : R) : Prop :=
  exists d : R, x = ((IZR m + d) * bpow e)%R /\ loc_frac l d.


(** The format (without an upper bound on the exponent) and its elements
    nearest to a real number. *)

Definition Fmt (r : R) : Prop :=
  exists m e, r = F2R m e /\ Z.abs m < 2 ^ 53 /\ -1074 <= e.

Definition nearest (x v : R) : Prop :=
  Fmt v /\ forall g, Fmt g -> (Rabs (v - x) <= Rabs (g - x))%R.


(** [Rounded s x f]: the float [f] is what rounding the magnitude [x] to
    nearest gives, with the sign [s]; overflow gives the infinity. *)
Definition Rounded (s : bool) (x : R) (f : spec_float) : Prop :=
  exists v, nearest x v /\
  match f with
  | S754_zero s' => s' = s /\ v = 0%R
  | S754_finite s' m e =>
      s' = s /\ v = F2R (Zpos m) e /\ bounded prec emax m e = true
  | S754_infinity s' => s' = s /\ (bpow 1024 <= v)%R
  | S754_nan => False
  end.

End Binary64.

Import Binary64.

(** ** The bounds table and normalized inputs *)

(** The thirteen clamped fields. *)
Inductive field : Type :=
  | FBeds | FOccupancyPct | FAlosDays | FVriPer1000BedDays | FGramNegPct
  | FSinkAttributablePct | FEffectPct | FExtraDaysPerVRI | FCostPerBedDay
  | FCostPerVRI | FCapex | FOpexYear | FCapexAmortYears.

Definition all_fields : list field :=
  [FBeds; FOccupancyPct; FAlosDays; FVriPer1000BedDays; FGramNegPct;
   FSinkAttributablePct; FEffectPct; FExtraDaysPerVRI; FCostPerBedDay;
   FCostPerVRI; FCapex; FOpexYear; FCapexAmortYears].

(** The table of bounds, as the specification prints it. *)
Definition field_lo (f : field) : Z :=
  match f with
  | FCapexAmortYears => 1
  | _ => 0
  end.

Definition field_hi (f : field) : Z :=
  match f with
  | FBeds => 2000
  | FOccupancyPct => 100
  | FAlosDays => 365
  | FVriPer1000BedDays => 200
  | FGramNegPct => 100
  | FSinkAttributablePct => 100
  | FEffectPct => 100
  | FExtraDaysPerVRI => 365
  | FCostPerBedDay => 1000000
  | FCostPerVRI => 10000000
  | FCapex => 100000000
  | FOpexYear => 100000000
  | FCapexAmortYears => 20
  end.

(** The field of the form state and of the normalized input. *)
Definition raw_of (f : field) (st : StateType) : value :=
  match f with
  | FBeds => State.beds st
  | FOccupancyPct => State.occupancyPct st
  | FAlosDays => State.alosDays st
  | FVriPer1000BedDays => State.vriPer1000BedDays st
  | FGramNegPct => State.gramNegPct st
  | FSinkAttributablePct => State.sinkAttributablePct st
  | FEffectPct => State.effectPct st
  | FExtraDaysPerVRI => State.extraDaysPerVRI st
  | FCostPerBedDay => State.costPerBedDay st
  | FCostPerVRI => State.costPerVRI st
  | FCapex => State.capex st
  | FOpexYear => State.opexYear st
  | FCapexAmortYears => State.capexAmortYears st
  end.

Definition get (f : field) (i : CalcInput) : number :=
  match f with
  | FBeds => beds i
  | FOccupancyPct => occupancyPct i
  | FAlosDays => alosDays i
  | FVriPer1000BedDays => vriPer1000BedDays i
  | FGramNegPct => gramNegPct i
  | FSinkAttributablePct => sinkAttributablePct i
  | FEffectPct => effectPct i
  | FExtraDaysPerVRI => extraDaysPerVRI i
  | FCostPerBedDay => costPerBedDay i
  | FCostPerVRI => costPerVRI i
  | FCapex => capex i
  | FOpexYear => opexYear i
  | FCapexAmortYears => capexAmortYears i
  end.

(** A well-formed double: a finite one has the canonical mantissa and
    exponent of binary64. *)
Definition wf (x : number) : bool := valid_binary prec emax x.

Definition in_bounds (x : number) (lo hi : Z) : bool :=
  wf x && le (num lo) x && le x (num hi).

(** The contract of [calc]: every clamped field is a double within its
    bounds, and the override is a double that is finite or NaN. *)
Definition Normalized (i : CalcInput) : bool :=
  forallb (fun f => in_bounds (get f i) (field_lo f) (field_hi f)) all_fields
  && wf (vriPerYearOverride i)
  && (isFinite (vriPerYearOverride i) || isNaN (vriPerYearOverride i)).

Definition wf_value (v : value) : bool :=
  match v with
  | VNum n => wf n
  | VStr _ => true
  end.

(** A form state all of whose numbers are doubles. *)
Definition wf_state (st : StateType) : bool :=
  forallb (fun f => wf_value (raw_of f st)) all_fields
  && wf_value (State.vriPerYearOverride st).

(** Finite, well-formed and not negative (either zero counts). *)
Definition finite_nonneg (x : number) : bool :=
  match x with
  | S754_zero _ => true
  | S754_finite false m e => bounded prec emax m e
  | _ => false
  end.

(** The real value of a finite double. *)
Definition val (x : number) : R :=
  match x with
  | S754_finite s m e => F2R (cond_Zopp s (Zpos m)) e
  | _ => 0%R
  end.

(** [Rnn x f]: [f] is the rounding of the real [x >= 0], finite or
    overflowed to [Infinity]. *)
Definition Rnn (x : R) (f : number) : Prop :=
  (finite_nonneg f = true /\ nearest x (val f))
  \/ (f = Infinity /\ exists v, nearest x v /\ (bpow 1024 <= v)%R).

(** Finite and not negative, or [Infinity]. *)
Definition nonneg_ext (x : number) : bool :=
  finite_nonneg x || match x with S754_infinity false => true | _ => false end.

(** ** Functional updates of one field *)

Definition set_vriPer1000BedDays (i : CalcInput) (v : number) : CalcInput :=
  {| beds := beds i; occupancyPct := occupancyPct i; alosDays := alosDays i;
     vriPer1000BedDays := v; vriPerYearOverride := vriPerYearOverride i;
     gramNegPct := gramNegPct i; sinkAttributablePct := sinkAttributablePct i;
     effectPct := effectPct i; extraDaysPerVRI := extraDaysPerVRI i;
     costPerBedDay := costPerBedDay i; costPerVRI := costPerVRI i;
     pricingMode := pricingMode i; capex := capex i; opexYear := opexYear i;
     capexAmortYears := capexAmortYears i |}.

Definition set_effectPct (i : CalcInput) (v : number) : CalcInput :=
  {| beds := beds i; occupancyPct := occupancyPct i; alosDays := alosDays i;
     vriPer1000BedDays := vriPer1000BedDays i;
     vriPerYearOverride := vriPerYearOverride i;
     gramNegPct := gramNegPct i; sinkAttributablePct := sinkAttributablePct i;
     effectPct := v; extraDaysPerVRI := extraDaysPerVRI i;
     costPerBedDay := costPerBedDay i; costPerVRI := costPerVRI i;
     pricingMode := pricingMode i; capex := capex i; opexYear := opexYear i;
     capexAmortYears := capexAmortYears i |}.




(** [{ ...state, vriPerYearOverride: v }] *)
Definition set_override (st : StateType) (v : value) : StateType :=
  {| State.beds := State.beds st;
     State.occupancyPct := State.occupancyPct st;
     State.alosDays := State.alosDays st;
     State.vriPer1000BedDays := State.vriPer1000BedDays st;
     State.vriPerYearOverride := v;
     State.gramNegPct := State.gramNegPct st;
     State.sinkAttributablePct := State.sinkAttributablePct st;
     State.effectPct := State.effectPct st;
     State.extraDaysPerVRI := State.extraDaysPerVRI st;
     State.costPerBedDay := State.costPerBedDay st;
     State.costPerVRI := State.costPerVRI st;
     State.pricingMode := State.pricingMode st;
     State.capex := State.capex st;
     State.opexYear := State.opexYear st;
     State.capexAmortYears := State.capexAmortYears st |}.

(** The state with every field left blank. *)
Definition blank_state (mode : string) : StateType :=
  {| State.beds := VStr "";
     State.occupancyPct := VStr "";
     State.alosDays := VStr "";
     State.vriPer1000BedDays := VStr "";
     State.vriPerYearOverride := VStr "";
     State.gramNegPct := VStr "";
     State.sinkAttributablePct := VStr "";
     State.effectPct := VStr "";
     State.extraDaysPerVRI := VStr "";
     State.costPerBedDay := VStr "";
     State.costPerVRI := VStr "";
     State.pricingMode := mode;
     State.capex := VStr "";
     State.opexYear := VStr "";
     State.capexAmortYears := VStr "" |}.

(** ** The advisory rules as the specification lists them

    Five independent rules in declaration order, each a condition and its
    message; the evaluator of the specification returns the messages of the
    rules that fire. *)
Definition rules (p : CalcInput) (r : CalcResult) : list (bool * string) :=
  [ (negb (usedOverride r) && eq (vriPer1000BedDays p) (num 0), note_zero_rate);
    (le (sinkAttributablePct p) (num 5), note_low_sink);
    (le (effectPct p) (num 5), note_low_effect);
    (String.eqb (pricingMode p) "bedDays" && eq (costPerBedDay p) (num 0),
     note_zero_bedday_cost);
    (String.eqb (pricingMode p) "perVRI" && eq (costPerVRI p) (num 0),
     note_zero_vri_cost) ].

Definition evaluate (p : CalcInput) (r : CalcResult) : list string :=
  map snd (filter fst (rules p r)).


(** ** Concrete states for the examples *)

(** The defaults with an override text that is no number. *)
Definition st_bad_override : StateType := set_override defaults (VStr "abc").

(** A state whose number of beds is garbled text. *)
Definition st_garbled : StateType :=
  {| State.beds := VStr "12 abc";
     State.occupancyPct := VNum (num 92);
     State.alosDays := VNum (num 4);
     State.vriPer1000BedDays := VNum (num 6);
     State.vriPerYearOverride := VStr "";
     State.gramNegPct := VNum (num 35);
     State.sinkAttributablePct := VNum (num 10);
     State.effectPct := VNum (num 10);
     State.extraDaysPerVRI := VNum (num 5);
     State.costPerBedDay := VNum (num 12000);
     State.costPerVRI := VNum (num 90000);
     State.pricingMode := "bedDays";
     State.capex := VNum (num 350000);
     State.opexYear := VNum (num 25000);
     State.capexAmortYears := VNum (num 5) |}.

(** An extreme but well-formed state: a huge override, every percentage at
    100, the longest stay and a bed-day priced at zero; [eff] is the text
    of the effect field. *)
Definition st_extreme (eff : string) : StateType :=
  {| State.beds := VNum (num 24);
     State.occupancyPct := VNum (num 92);
     State.alosDays := VNum (num 4);
     State.vriPer1000BedDays := VNum (num 6);
     State.vriPerYearOverride := VStr "1e308";
     State.gramNegPct := VStr "100";
     State.sinkAttributablePct := VStr "100";
     State.effectPct := VStr eff;
     State.extraDaysPerVRI := VStr "365";
     State.costPerBedDay := VStr "0";
     State.costPerVRI := VNum (num 90000);
     State.pricingMode := "bedDays";
     State.capex := VNum (num 350000);
     State.opexYear := VNum (num 25000);
     State.capexAmortYears := VNum (num 5) |}.

(** The defaults with the effect field set to [eff]. *)
Definition st_effect (eff : Z) : StateType :=
  {| State.beds := VNum (num 24);
     State.occupancyPct := VNum (num 92);
     State.alosDays := VNum (num 4);
     State.vriPer1000BedDays := VNum (num 6);
     State.vriPerYearOverride := VStr "";
     State.gramNegPct := VNum (num 35);
     State.sinkAttributablePct := VNum (num 10);
     State.effectPct := VNum (num eff);
     State.extraDaysPerVRI := VNum (num 5);
     State.costPerBedDay := VNum (num 12000);
     State.costPerVRI := VNum (num 90000);
     State.pricingMode := "bedDays";
     State.capex := VNum (num 350000);
     State.opexYear := VNum (num 25000);
     State.capexAmortYears := VNum (num 5) |}.

(** A state in the mode [perVRI] whose savings exceed the operating cost by
    exactly one: one avoided infection priced at 25001 against 25000. *)
Definition st_margin_one : StateType :=
  {| State.beds := VNum (num 24);
     State.occupancyPct := VNum (num 92);
     State.alosDays := VNum (num 4);
     State.vriPer1000BedDays := VNum (num 6);
     State.vriPerYearOverride := VStr "1";
     State.gramNegPct := VNum (num 100);
     State.sinkAttributablePct := VNum (num 100);
     State.effectPct := VNum (num 100);
     State.extraDaysPerVRI := VNum (num 5);
     State.costPerBedDay := VNum (num 12000);
     State.costPerVRI := VNum (num 25001);
     State.pricingMode := "perVRI";
     State.capex := VNum (num 350000);
     State.opexYear := VNum (num 25000);
     State.capexAmortYears := VNum (num 5) |}.

(** ** The rest of the page component

    The formatters, [Math.round], the scenario presets and the updates of
    the form state made by the event handlers. *)

(** [Math.round]: the nearest integer, a tie going towards [+Infinity];
    an argument in [[-0.5, 0)] gives [-0]. *)
Definition Math_round (x : number) : number :=
  match x with
  | S754_finite s m (Zneg k) =>
      match (2 * cond_Zopp s (Zpos m) + 2 ^ Zpos k) / 2 ^ (Zpos k + 1) with
      | Z0 => S754_zero s
      | z => binary_normalize prec emax z 0 false
      end
  | _ => x
  end.

(** The text shown for a value that is not finite. *)
Definition sentinel : string := "–".

Section Formatting.

(** [n.toLocaleString("sv-SE")] and the same call with exactly one fraction
    digit: the locale data is not part of the page, the two functions are
    parameters. *)
Variable toLocaleString : number -> string.
Variable toLocaleString1 : number -> string.

(** [fmtInt(n)] *)
Definition fmtInt (n : number) : string :=
  if negb (isFinite n) then sentinel
  else toLocaleString (Math_round n).

(** [fmt1(n)] *)
Definition fmt1 (n : number) : string :=
  if negb (isFinite n) then sentinel
  else toLocaleString1 (div (Math_round (mul n (num 10))) (num 10)).

(** [fmtMoneySEK(n)] *)
Definition fmtMoneySEK (n : number) : string :=
  if negb (isFinite n) then sentinel
  else (toLocaleString (Math_round n) ++ " kr")%string.

(** [fmtPct(n)] *)
Definition fmtPct (n : number) : string :=
  if negb (isFinite n) then sentinel
  else (fmt1 n ++ " %")%string.

(** The payback period as the result panel and the report print it. *)
Definition paybackText (result : CalcResult) : string :=
  if isFinite (paybackYears result)
  then (fmt1 (paybackYears result) ++ " år")%string
  else sentinel.

End Formatting.

(** The numbers the formatters hand to [toLocaleString]: [None] when the
    sentinel is returned instead. *)
Definition fmtInt_arg (n : number) : option number :=
  if negb (isFinite n) then None else Some (Math_round n).

Definition fmt1_arg (n : number) : option number :=
  if negb (isFinite n) then None
  else Some (div (Math_round (mul n (num 10))) (num 10)).

(** [scenarios] *)
Inductive scenario : Type := conservative | low | ambitious.

Definition scenario_effectPct (s : scenario) : Z :=
  match s with
  | conservative => 5
  | low => 10
  | ambitious => 20
  end.

(** Whether the button of scenario [s] is drawn as the selected one. *)
Definition scenario_selected (parsed : CalcInput) (s : scenario) : bool :=
  eq (Math_round (effectPct parsed)) (num (scenario_effectPct s)).

Definition field_index (f : field) : nat :=
  match f with
  | FBeds => 0 | FOccupancyPct => 1 | FAlosDays => 2 | FVriPer1000BedDays => 3
  | FGramNegPct => 4 | FSinkAttributablePct => 5 | FEffectPct => 6
  | FExtraDaysPerVRI => 7 | FCostPerBedDay => 8 | FCostPerVRI => 9
  | FCapex => 10 | FOpexYear => 11 | FCapexAmortYears => 12
  end%nat.

Definition field_eqb (f g : field) : bool := Nat.eqb (field_index f) (field_index g).

(** [{ ...p, field: v }] for one of the clamped fields. *)
Definition set_raw (st : StateType) (f : field) (v : value) : StateType :=
  let pick g := if field_eqb f g then v else raw_of g st in
  {| State.beds := pick FBeds;
     State.occupancyPct := pick FOccupancyPct;
     State.alosDays := pick FAlosDays;
     State.vriPer1000BedDays := pick FVriPer1000BedDays;
     State.vriPerYearOverride := State.vriPerYearOverride st;
     State.gramNegPct := pick FGramNegPct;
     State.sinkAttributablePct := pick FSinkAttributablePct;
     State.effectPct := pick FEffectPct;
     State.extraDaysPerVRI := pick FExtraDaysPerVRI;
     State.costPerBedDay := pick FCostPerBedDay;
     State.costPerVRI := pick FCostPerVRI;
     State.pricingMode := State.pricingMode st;
     State.capex := pick FCapex;
     State.opexYear := pick FOpexYear;
     State.capexAmortYears := pick FCapexAmortYears |}.

(** [{ ...p, pricingMode: m }] *)
Definition set_mode (st : StateType) (m : string) : StateType :=
  {| State.beds := State.beds st;
     State.occupancyPct := State.occupancyPct st;
     State.alosDays := State.alosDays st;
     State.vriPer1000BedDays := State.vriPer1000BedDays st;
     State.vriPerYearOverride := State.vriPerYearOverride st;
     State.gramNegPct := State.gramNegPct st;
     State.sinkAttributablePct := State.sinkAttributablePct st;
     State.effectPct := State.effectPct st;
     State.extraDaysPerVRI := State.extraDaysPerVRI st;
     State.costPerBedDay := State.costPerBedDay st;
     State.costPerVRI := State.costPerVRI st;
     State.pricingMode := m;
     State.capex := State.capex st;
     State.opexYear := State.opexYear st;
     State.capexAmortYears := State.capexAmortYears st |}.

(** The calls of [setState] in the page: the reset button, a scenario
    button, the change of a field (a text from an input, a number from a
    slider), the change of the override field and the two mode buttons. *)
Inductive event : Type :=
  | Reset
  | PickScenario (s : scenario)
  | ChangeField (f : field) (v : value)
  | ChangeOverride (v : value)
  | PickBedDays
  | PickPerVRI.

Definition step (st : StateType) (ev : event) : StateType :=
  match ev with
  | Reset => defaults
  | PickScenario s => set_raw st FEffectPct (VNum (num (scenario_effectPct s)))
  | ChangeField f v => set_raw st f v
  | ChangeOverride v => set_override st v
  | PickBedDays => set_mode st "bedDays"
  | PickPerVRI => set_mode st "perVRI"
  end.

(** The state after a sequence of events, starting from [useState(defaults)]. *)
Definition run (evs : list event) : StateType := fold_left step evs defaults.

(** An event carries a double or a text. *)
Definition event_wf (ev : event) : bool :=
  match ev with
  | ChangeField _ v | ChangeOverride v => wf_value v
  | _ => true
  end.

(** The state whose fields hold the numbers of a normalized input, as when
    the normalized values are written back into the form. *)
Definition numbers_of (i : CalcInput) : StateType :=
  {| State.beds := VNum (beds i);
     State.occupancyPct := VNum (occupancyPct i);
     State.alosDays := VNum (alosDays i);
     State.vriPer1000BedDays := VNum (vriPer1000BedDays i);
     State.vriPerYearOverride := VNum (vriPerYearOverride i);
     State.gramNegPct := VNum (gramNegPct i);
     State.sinkAttributablePct := VNum (sinkAttributablePct i);
     State.effectPct := VNum (effectPct i);
     State.extraDaysPerVRI := VNum (extraDaysPerVRI i);
     State.costPerBedDay := VNum (costPerBedDay i);
     State.costPerVRI := VNum (costPerVRI i);
     State.pricingMode := pricingMode i;
     State.capex := VNum (capex i);
     State.opexYear := VNum (opexYear i);
     State.capexAmortYears := VNum (capexAmortYears i) |}.

(** Functional updates of two more percentages. *)
Definition set_gramNegPct (i : CalcInput) (v : number) : CalcInput :=
  {| beds := beds i; occupancyPct := occupancyPct i; alosDays := alosDays i;
     vriPer1000BedDays := vriPer1000BedDays i;
     vriPerYearOverride := vriPerYearOverride i;
     gramNegPct := v; sinkAttributablePct := sinkAttributablePct i;
     effectPct := effectPct i; extraDaysPerVRI := extraDaysPerVRI i;
     costPerBedDay := costPerBedDay i; costPerVRI := costPerVRI i;
     pricingMode := pricingMode i; capex := capex i; opexYear := opexYear i;
     capexAmortYears := capexAmortYears i |}.

Definition set_sinkAttributablePct (i : CalcInput) (v : number) : CalcInput :=
  {| beds := beds i; occupancyPct := occupancyPct i; alosDays := alosDays i;
     vriPer1000BedDays := vriPer1000BedDays i;
     vriPerYearOverride := vriPerYearOverride i;
     gramNegPct := gramNegPct i; sinkAttributablePct := v;
     effectPct := effectPct i; extraDaysPerVRI := extraDaysPerVRI i;
     costPerBedDay := costPerBedDay i; costPerVRI := costPerVRI i;
     pricingMode := pricingMode i; capex := capex i; opexYear := opexYear i;
     capexAmortYears := capexAmortYears i |}.

(** Whether a text contains a comma. *)
Fixpoint has_comma (s : string) : bool :=
  match s with
  | String c r => Ascii.eqb c ","%char || has_comma r
  | EmptyString => false
  end.

(** Two powers of two near the top of the format, [2^1020] and [2^1021],
    and the largest finite double. *)
Definition two_pow_1020 : number := S754_finite false 4503599627370496 968.
Definition two_pow_1021 : number := S754_finite false 4503599627370496 969.
Definition MAX_VALUE : number := S754_finite false 9007199254740991 971.
(** * Lemmas on rounding *)

Module Binary64Facts.

Lemma fexp_eq e : fexp prec emax e = Z.max (e - 53) (-1074).
Proof. reflexivity. Qed.

Lemma bpow_pos e : (0 < bpow e)%R.
Proof. apply powerRZ_lt; lra. Qed.

Lemma bpow_add a b : bpow (a + b) = (bpow a * bpow b)%R.
Proof. apply powerRZ_add; lra. Qed.

Lemma bpow_succ e : bpow (e + 1) = (2 * bpow e)%R.
Proof. rewrite bpow_add. unfold bpow at 2. simpl. lra. Qed.

Lemma bpow_0 : bpow 0 = 1%R.
Proof. reflexivity. Qed.

Lemma bpow_IZR k : 0 <= k -> IZR (2 ^ k) = bpow k.
Proof.
  intros Hk. destruct k as [|p|p]; try lia.
  - reflexivity.
  - unfold bpow. rewrite <- Zpower_pos_powerRZ. reflexivity.
Qed.

Lemma bpow_le a b : a <= b -> (bpow a <= bpow b)%R.
Proof.
  intros H. replace b with (a + (b - a)) by lia.
  rewrite bpow_add, <- (bpow_IZR (b - a)) by lia.
  assert (1 <= 2 ^ (b - a)) by (pose proof (Z.pow_pos_nonneg 2 (b - a)); lia).
  apply IZR_le in H0. pose proof (bpow_pos a). nra.
Qed.

Lemma bpow_lt a b : a < b -> (bpow a < bpow b)%R.
Proof.
  intros H. apply Rlt_le_trans with (bpow (a + 1)).
  - rewrite bpow_succ. pose proof (bpow_pos a). lra.
  - apply bpow_le. lia.
Qed.

#[global] Opaque bpow.

Lemma F2R_shift m e k : 0 <= k -> F2R (m * 2 ^ k) e = F2R m (e + k).
Proof.
  intros Hk. unfold F2R. rewrite mult_IZR, bpow_IZR by exact Hk.
  rewrite (Z.add_comm e k), bpow_add. ring.
Qed.

(** Number of binary digits. *)
Lemma digits2_pos_bounds p :
  2 ^ (Zpos (digits2_pos p) - 1) <= Zpos p < 2 ^ Zpos (digits2_pos p).
Proof.
  induction p as [p IH|p IH|]; simpl digits2_pos.
  - rewrite Pos2Z.inj_succ.
    replace (Z.succ (Zpos (digits2_pos p)) - 1) with (Z.succ (Zpos (digits2_pos p) - 1)) by lia.
    rewrite !Z.pow_succ_r by lia. lia.
  - rewrite Pos2Z.inj_succ.
    replace (Z.succ (Zpos (digits2_pos p)) - 1) with (Z.succ (Zpos (digits2_pos p) - 1)) by lia.
    rewrite !Z.pow_succ_r by lia. lia.
  - simpl. lia.
Qed.

Lemma Zdigits2_bounds m :
  0 < m -> 0 < Zdigits2 m /\ 2 ^ (Zdigits2 m - 1) <= m < 2 ^ Zdigits2 m.
Proof.
  destruct m as [|p|p]; try lia. intros _. simpl Zdigits2.
  split; [lia | apply digits2_pos_bounds].
Qed.

Lemma Zdigits2_unique m d :
  0 < m -> 2 ^ (d - 1) <= m < 2 ^ d -> Zdigits2 m = d.
Proof.
  intros Hm [H1 H2].
  destruct (Zdigits2_bounds m Hm) as [Hd [H3 H4]].
  assert (0 < d).
  { destruct (Z_lt_le_dec 0 d) as [L|L]; [exact L|].
    assert (2 ^ d <= 2 ^ 0) by (apply Z.pow_le_mono_r; lia). simpl in *. lia. }
  assert (d - 1 < Zdigits2 m).
  { apply (Z.pow_lt_mono_r_iff 2); lia. }
  assert (Zdigits2 m - 1 < d).
  { apply (Z.pow_lt_mono_r_iff 2); lia. }
  lia.
Qed.

(** One step of the right shift keeps the real number located. *)
Lemma shr_1_located mrs e x :
  0 <= shr_m mrs ->
  located (shr_m mrs) e (loc_of_shr_record mrs) x ->
  located (shr_m (shr_1 mrs)) (e + 1) (loc_of_shr_record (shr_1 mrs)) x
  /\ shr_m (shr_1 mrs) = shr_m mrs / 2.
Proof.
  destruct mrs as [m r s]. cbn [shr_m]. intros Hm [d [Hx Hd]].
  unfold located. rewrite bpow_succ.
  destruct m as [|[p|p|]|p]; try lia.
  - split; [|reflexivity].
    exists (d / 2)%R. split; [cbn [shr_1 shr_m]; rewrite Hx; field|].
    destruct r, s; cbn [shr_1 loc_of_shr_record loc_frac orb] in *; lra.
  - split; [|cbn [shr_1 shr_m]; rewrite Pos2Z.inj_xI; Z.div_mod_to_equations; lia].
    exists ((1 + d) / 2)%R.
    change (Zpos p~1) with (2 * Zpos p + 1) in Hx.
    rewrite plus_IZR, mult_IZR in Hx.
    split; [cbn [shr_1 shr_m]; rewrite Hx; field|].
    destruct r, s; cbn [shr_1 loc_of_shr_record loc_frac orb] in *; lra.
  - split; [|cbn [shr_1 shr_m]; rewrite Pos2Z.inj_xO; Z.div_mod_to_equations; lia].
    exists (d / 2)%R.
    change (Zpos p~0) with (2 * Zpos p) in Hx.
    rewrite mult_IZR in Hx.
    split; [cbn [shr_1 shr_m]; rewrite Hx; field|].
    destruct r, s; cbn [shr_1 loc_of_shr_record loc_frac orb] in *; lra.
  - split; [|reflexivity].
    exists ((1 + d) / 2)%R. split; [cbn [shr_1 shr_m]; rewrite Hx; field|].
    destruct r, s; cbn [shr_1 loc_of_shr_record loc_frac orb] in *; lra.
Qed.

Lemma div_pow2_add x a b : 0 <= a -> 0 <= b -> x / 2 ^ a / 2 ^ b = x / 2 ^ (a + b).
Proof.
  intros Ha Hb. rewrite Z.pow_add_r by lia.
  pose proof (Z.pow_pos_nonneg 2 a). pose proof (Z.pow_pos_nonneg 2 b).
  rewrite Z.div_div by lia. reflexivity.
Qed.

Lemma iter_shr_1_located x p : forall mrs e,
  0 <= shr_m mrs ->
  located (shr_m mrs) e (loc_of_shr_record mrs) x ->
  located (shr_m (iter_pos shr_1 p mrs)) (e + Zpos p)
          (loc_of_shr_record (iter_pos shr_1 p mrs)) x
  /\ shr_m (iter_pos shr_1 p mrs) = shr_m mrs / 2 ^ Zpos p.
Proof.
  assert (Hnn : forall a k, 0 <= k -> 0 <= a -> 0 <= a / 2 ^ k).
  { intros a k Hk Ha. apply Z.div_pos; [lia|]. apply Z.pow_pos_nonneg; lia. }
  induction p as [p IH|p IH|]; intros mrs e Hm Hl; simpl iter_pos.
  - destruct (shr_1_located mrs e x Hm Hl) as [L1 E1].
    assert (P1 : 0 <= shr_m (shr_1 mrs)).
    { rewrite E1. change 2 with (2 ^ 1). apply Hnn; [lia | exact Hm]. }
    destruct (IH _ _ P1 L1) as [L2 E2].
    assert (P2 : 0 <= shr_m (iter_pos shr_1 p (shr_1 mrs))).
    { rewrite E2. apply Hnn; [lia | exact P1]. }
    destruct (IH _ _ P2 L2) as [L3 E3].
    split.
    + replace (e + Zpos p~1) with (e + 1 + Zpos p + Zpos p) by lia. exact L3.
    + rewrite E3, E2, E1. change (shr_m mrs / 2) with (shr_m mrs / 2 ^ 1).
      rewrite !div_pow2_add by lia. do 2 f_equal; lia.
  - destruct (IH _ _ Hm Hl) as [L2 E2].
    assert (P2 : 0 <= shr_m (iter_pos shr_1 p mrs)).
    { rewrite E2. apply Hnn; [lia | exact Hm]. }
    destruct (IH _ _ P2 L2) as [L3 E3].
    split.
    + replace (e + Zpos p~0) with (e + Zpos p + Zpos p) by lia. exact L3.
    + rewrite E3, E2. rewrite !div_pow2_add by lia. do 2 f_equal; lia.
  - destruct (shr_1_located mrs e x Hm Hl) as [L1 E1].
    split; [exact L1 | rewrite E1; reflexivity].
Qed.

Lemma loc_of_record_of_loc m l :
  loc_of_shr_record (shr_record_of_loc m l) = l /\ shr_m (shr_record_of_loc m l) = m.
Proof. destruct l as [|[| |]]; split; reflexivity. Qed.

Lemma pow2_pos k : 0 <= k -> 0 < 2 ^ k.
Proof. intros. apply Z.pow_pos_nonneg; lia. Qed.

(** The first shift of [binary_round_aux]: it brings the mantissa to the
    exponent of the format and keeps the number located. *)
Lemma shr_fexp_spec mx ex lx x mrs e :
  0 <= mx ->
  located mx ex lx x ->
  ex <= fexp prec emax (Zdigits2 mx + ex) ->
  shr_fexp prec emax mx ex lx = (mrs, e) ->
  located (shr_m mrs) e (loc_of_shr_record mrs) x
  /\ 0 <= shr_m mrs < 2 ^ 53
  /\ -1074 <= e
  /\ (2 ^ 52 <= shr_m mrs \/ e = -1074).
Proof.
  intros Hm Hl Hpre. unfold shr_fexp, shr. rewrite fexp_eq in *.
  destruct (loc_of_record_of_loc mx lx) as [El Em].
  assert (Hd : mx = 0 /\ Zdigits2 mx = 0 \/
               0 < mx /\ 0 < Zdigits2 mx /\ 2 ^ (Zdigits2 mx - 1) <= mx < 2 ^ Zdigits2 mx).
  { destruct (Z.eq_dec mx 0) as [->|N]; [left; split; reflexivity|].
    right. split; [lia|]. apply Zdigits2_bounds. lia. }
  set (d := Zdigits2 mx) in *.
  destruct (Z.max (d + ex - 53) (-1074) - ex) as [|n|n] eqn:En; try lia.
  - intros H. injection H as <- <-. rewrite El, Em.
    split; [exact Hl|].
    destruct Hd as [[-> Hd]|[Hp [Hd [H1 H2]]]].
    + split; [lia|]. split; [lia|]. right. lia.
    + assert (d <= 53) by lia.
      assert (2 ^ d <= 2 ^ 53) by (apply Z.pow_le_mono_r; lia).
      split; [lia|]. split; [lia|].
      destruct (Z.eq_dec ex (-1074)) as [E|E]; [right; exact E|left].
      assert (d = 53) by lia. subst d. rewrite H3 in H1. exact H1.
  - intros H. injection H as <- <-.
    destruct (iter_shr_1_located x n (shr_record_of_loc mx lx) ex) as [L E].
    { rewrite Em. exact Hm. }
    { rewrite El, Em. exact Hl. }
    rewrite Em in E. split; [exact L|]. rewrite E.
    pose proof (pow2_pos (Zpos n) ltac:(lia)) as Pn.
    destruct Hd as [[-> Hd]|[Hp [Hd [H1 H2]]]].
    + rewrite Z.div_0_l by lia. split; [lia|]. split; [lia|]. right. lia.
    + split; [split|split].
      * apply Z.div_pos; lia.
      * apply Z.div_lt_upper_bound; [lia|].
        assert (2 ^ d <= 2 ^ (Zpos n + 53)) by (apply Z.pow_le_mono_r; lia).
        rewrite Z.pow_add_r in H by lia. lia.
      * lia.
      * destruct (Z.eq_dec (ex + Zpos n) (-1074)) as [E'|E']; [right; exact E'|left].
        apply Z.div_le_lower_bound; [lia|].
        assert (d - 1 = Zpos n + 52) by lia.
        rewrite H, Z.pow_add_r in H1 by lia. lia.
Qed.

Lemma F2R_le m1 m2 e : m1 <= m2 -> (F2R m1 e <= F2R m2 e)%R.
Proof.
  intros H. unfold F2R. apply IZR_le in H. pose proof (bpow_pos e). nra.
Qed.

Lemma F2R_lt m1 m2 e : m1 < m2 -> (F2R m1 e < F2R m2 e)%R.
Proof.
  intros H. unfold F2R. apply IZR_lt in H. pose proof (bpow_pos e). nra.
Qed.

Lemma F2R_pow2 k e : 0 <= k -> F2R (2 ^ k) e = bpow (k + e).
Proof. intros H. unfold F2R. rewrite bpow_IZR, bpow_add by lia. reflexivity. Qed.

Lemma F2R_0 e : F2R 0 e = 0%R.
Proof. unfold F2R. lra. Qed.

Lemma F2R_succ m e : F2R (m + 1) e = (F2R m e + bpow e)%R.
Proof. unfold F2R. rewrite plus_IZR. lra. Qed.

Lemma Fmt_gap m e g :
  0 <= m -> -1074 <= e -> (2 ^ 52 <= m \/ e = -1074) ->
  Fmt g -> (g <= F2R m e \/ F2R (m + 1) e <= g)%R.
Proof.
  intros Hm He Hn (mg & eg & -> & Hmg & Heg).
  destruct (Z_le_gt_dec mg 0) as [Hz|Hz].
  { left. apply Rle_trans with (F2R 0 eg).
    - apply F2R_le. exact Hz.
    - rewrite F2R_0. rewrite <- (F2R_0 e). apply F2R_le. exact Hm. }
  destruct (Z_le_gt_dec e eg) as [Hle|Hgt].
  - replace eg with (e + (eg - e)) by lia.
    rewrite <- F2R_shift by lia.
    destruct (Z_le_gt_dec (mg * 2 ^ (eg - e)) m) as [H|H].
    + left. apply F2R_le. exact H.
    + right. apply F2R_le. lia.
  - left. destruct Hn as [Hn|Hn]; [|lia].
    apply Rle_trans with (F2R (2 ^ 53) eg).
    + apply F2R_le. lia.
    + apply Rle_trans with (F2R (2 ^ 52) e).
      * rewrite !F2R_pow2 by lia. apply bpow_le. lia.
      * apply F2R_le. exact Hn.
Qed.

Lemma Fmt_F2R m e : 0 <= m <= 2 ^ 53 -> -1074 <= e -> Fmt (F2R m e).
Proof.
  intros Hm He. destruct (Z.eq_dec m (2 ^ 53)) as [->|N].
  - exists (2 ^ 52), (e + 1). split; [|split; [simpl; lia | lia]].
    rewrite !F2R_pow2 by lia. f_equal. lia.
  - exists m, e. split; [reflexivity|]. split; lia.
Qed.

(** Rounding the located number to the nearer neighbour, ties to even. *)
Lemma round_nearest_even_spec m e l x :
  0 <= m < 2 ^ 53 -> -1074 <= e -> (2 ^ 52 <= m \/ e = -1074) ->
  located m e l x ->
  nearest x (F2R (round_nearest_even m l) e)
  /\ m <= round_nearest_even m l <= m + 1.
Proof.
  intros Hm He Hn (d & Hx & Hd).
  assert (Hr : m <= round_nearest_even m l <= m + 1).
  { destruct l as [|[| |]]; cbn [round_nearest_even];
      try destruct (Z.even m); lia. }
  split; [|exact Hr]. split.
  { apply Fmt_F2R; lia. }
  intros g Hg.
  destruct (Fmt_gap m e g ltac:(lia) He Hn Hg) as [G|G];
    rewrite ?F2R_succ in G; pose proof (bpow_pos e) as Hb;
    assert (Hx' : x = (F2R m e + d * bpow e)%R) by (rewrite Hx; unfold F2R; ring).
  all: destruct l as [|[| |]]; cbn [round_nearest_even loc_frac] in *;
    try destruct (Z.even m); rewrite ?F2R_succ;
    set (lo := F2R m e) in *; set (b := bpow e) in *;
    assert (Ht : (0 <= d * b <= b)%R) by nra;
    try assert (Ht1 : (d * b < b / 2)%R) by nra;
    try assert (Ht2 : (d * b = b / 2)%R) by nra;
    try assert (Ht3 : (b / 2 < d * b)%R) by nra;
    try assert (Ht0 : (d * b = 0)%R) by nra;
    set (t := (d * b)%R) in *; clearbody t lo b;
    unfold Rabs; repeat destruct Rcase_abs; lra.
Qed.

Lemma canonical_normal m e :
  2 ^ 52 <= Zpos m < 2 ^ 53 -> -1074 <= e ->
  canonical_mantissa prec emax m e = true.
Proof.
  intros Hm He. unfold canonical_mantissa. rewrite fexp_eq.
  change (Zpos (digits2_pos m)) with (Zdigits2 (Zpos m)).
  rewrite (Zdigits2_unique (Zpos m) 53) by (simpl; lia).
  apply Z.eqb_eq. lia.
Qed.

Lemma canonical_subnormal m :
  Zpos m < 2 ^ 52 -> canonical_mantissa prec emax m (-1074) = true.
Proof.
  intros Hm. unfold canonical_mantissa. rewrite fexp_eq.
  change (Zpos (digits2_pos m)) with (Zdigits2 (Zpos m)).
  destruct (Zdigits2_bounds (Zpos m) ltac:(lia)) as [Hd [H1 H2]].
  assert (Zdigits2 (Zpos m) - 1 < 52).
  { apply (Z.pow_lt_mono_r_iff 2); lia. }
  apply Z.eqb_eq. lia.
Qed.

Lemma shr_fexp_exact_small m e :
  0 < m < 2 ^ 53 -> -1074 <= e -> (2 ^ 52 <= m \/ e = -1074) ->
  shr_fexp prec emax m e loc_Exact = (shr_record_of_loc m loc_Exact, e).
Proof.
  intros Hm He Hn. unfold shr_fexp. rewrite fexp_eq.
  destruct (Zdigits2_bounds m ltac:(lia)) as [Hd [H1 H2]].
  assert (D : Z.max (Zdigits2 m + e - 53) (-1074) - e = 0).
  { destruct (Z_le_gt_dec (2 ^ 52) m) as [L|L].
    - rewrite (Zdigits2_unique m 53) by (simpl; lia). lia.
    - assert (Zdigits2 m - 1 < 52) by (apply (Z.pow_lt_mono_r_iff 2); lia).
      lia. }
  rewrite D. reflexivity.
Qed.

Lemma shr_fexp_exact_carry e :
  -1074 <= e ->
  shr_fexp prec emax (2 ^ 53) e loc_Exact
  = (Build_shr_record (2 ^ 52) false false, e + 1).
Proof.
  intros He. unfold shr_fexp. rewrite fexp_eq.
  change (Zdigits2 (2 ^ 53)) with 54.
  replace (Z.max (54 + e - 53) (-1074) - e) with 1 by lia.
  reflexivity.
Qed.

Lemma shr_fexp_exact_zero e :
  shr_m (fst (shr_fexp prec emax 0 e loc_Exact)) = 0.
Proof.
  unfold shr_fexp, shr.
  destruct (fexp prec emax (Zdigits2 0 + e) - e) as [|n|n]; try reflexivity.
  cbn [fst].
  destruct (iter_shr_1_located 0%R n (shr_record_of_loc 0 loc_Exact) e) as [_ E].
  - simpl; lia.
  - exists 0%R. split; [simpl; lra | reflexivity].
  - rewrite E. simpl shr_m. apply Z.div_0_l. pose proof (pow2_pos (Zpos n)); lia.
Qed.

(** The rounding at the heart of every operation. *)
Theorem binary_round_aux_spec s mx ex lx x :
  0 <= mx ->
  located mx ex lx x ->
  ex <= fexp prec emax (Zdigits2 mx + ex) ->
  Rounded s x (binary_round_aux prec emax s mx ex lx).
Proof.
  intros Hm Hl Hpre. unfold binary_round_aux.
  destruct (shr_fexp prec emax mx ex lx) as [mrs1 e1] eqn:E1.
  destruct (shr_fexp_spec _ _ _ _ _ _ Hm Hl Hpre E1) as (L1 & B1 & He1 & N1).
  destruct (round_nearest_even_spec _ _ _ _ B1 He1 N1 L1) as [Hnear Hr].
  set (m2 := round_nearest_even (shr_m mrs1) (loc_of_shr_record mrs1)) in *.
  exists (F2R m2 e1). split; [exact Hnear|].
  destruct (Z.eq_dec m2 0) as [Z0|NZ].
  { rewrite Z0. pose proof (shr_fexp_exact_zero e1) as Hz.
    destruct (shr_fexp prec emax 0 e1 loc_Exact) as [mrs2 e2].
    cbn [fst] in Hz. rewrite Hz. split; [reflexivity | apply F2R_0]. }
  destruct (Z.eq_dec m2 (2 ^ 53)) as [C|NC].
  { rewrite C, shr_fexp_exact_carry by exact He1. cbn [shr_m].
    change (2 ^ 52) with (Zpos (Z.to_pos (2 ^ 52))).
    assert (V : F2R (2 ^ 53) e1 = F2R (Zpos (Z.to_pos (2 ^ 52))) (e1 + 1)).
    { change (Zpos (Z.to_pos (2 ^ 52))) with (2 ^ 52).
      rewrite !F2R_pow2 by lia. f_equal. lia. }
    destruct (Z.leb_spec (e1 + 1) (emax - prec)) as [Le|Gt].
    - split; [reflexivity|]. split; [exact V|].
      unfold bounded. rewrite canonical_normal by (simpl; lia).
      apply Z.leb_le. exact Le.
    - split; [reflexivity|]. rewrite F2R_pow2 by lia.
      apply bpow_le. unfold emax, prec in Gt. lia. }
  assert (B2 : 0 < m2 < 2 ^ 53) by lia.
  assert (N2 : 2 ^ 52 <= m2 \/ e1 = -1074) by (destruct N1; [left; lia | right; assumption]).
  rewrite shr_fexp_exact_small by assumption.
  cbn [shr_record_of_loc shr_m].
  destruct m2 as [|p|p]; try lia.
  destruct (Z.leb_spec e1 (emax - prec)) as [Le|Gt].
  - split; [reflexivity|]. split; [reflexivity|].
    unfold bounded. apply andb_true_intro. split; [|apply Z.leb_le; exact Le].
    destruct (Z_le_gt_dec (2 ^ 52) (Zpos p)) as [L|L].
    + apply canonical_normal; lia.
    + destruct N2 as [N2|N2]; [lia|]. rewrite N2. apply canonical_subnormal. lia.
  - split; [reflexivity|]. unfold emax, prec in Gt.
    destruct N2 as [N2|N2]; [|lia].
    apply Rle_trans with (F2R (2 ^ 52) e1).
    + rewrite F2R_pow2 by lia. apply bpow_le. lia.
    + apply F2R_le. exact N2.
Qed.

(** ** Properties of nearest elements *)

Lemma Fmt_0 : Fmt 0%R.
Proof. exists 0, 0. split; [rewrite F2R_0; reflexivity|]. split; simpl; lia. Qed.

Lemma nearest_refl x : Fmt x -> nearest x x.
Proof.
  intros H. split; [exact H|]. intros g _.
  replace (x - x)%R with 0%R by ring. rewrite Rabs_R0. apply Rabs_pos.
Qed.

Lemma nearest_exact x v : Fmt x -> nearest x v -> v = x.
Proof.
  intros Hx [_ Hn]. specialize (Hn x Hx).
  replace (x - x)%R with 0%R in Hn by ring. rewrite Rabs_R0 in Hn.
  revert Hn. unfold Rabs. destruct Rcase_abs; lra.
Qed.

Lemma nearest_mono x y f g :
  (x < y)%R -> nearest x f -> nearest y g -> (f <= g)%R.
Proof.
  intros Hxy [Ff Hf] [Fg Hg].
  specialize (Hf g Fg). specialize (Hg f Ff).
  revert Hf Hg. unfold Rabs. repeat destruct Rcase_abs; lra.
Qed.

Lemma nearest_le x v c : Fmt c -> (x <= c)%R -> nearest x v -> (v <= c)%R.
Proof.
  intros Hc [Hlt|Heq] Hn.
  - apply (nearest_mono x c v c Hlt Hn). apply nearest_refl, Hc.
  - subst x. rewrite (nearest_exact c v Hc Hn). lra.
Qed.

Lemma nearest_ge x v c : Fmt c -> (c <= x)%R -> nearest x v -> (c <= v)%R.
Proof.
  intros Hc [Hlt|Heq] Hn.
  - apply (nearest_mono c x c v Hlt); [apply nearest_refl, Hc | exact Hn].
  - subst x. rewrite (nearest_exact c v Hc Hn). lra.
Qed.

(** ** Valid floats and the order *)

Lemma bounded_facts m e :
  bounded prec emax m e = true ->
  -1074 <= e <= 971 /\ Zpos m < 2 ^ 53 /\ (2 ^ 52 <= Zpos m \/ e = -1074).
Proof.
  unfold bounded, canonical_mantissa. rewrite fexp_eq.
  intros H. apply andb_prop in H. destruct H as [H1 H2].
  apply Z.eqb_eq in H1. apply Z.leb_le in H2. unfold emax, prec in H2.
  change (Zpos (digits2_pos m)) with (Zdigits2 (Zpos m)) in H1.
  destruct (Zdigits2_bounds (Zpos m) ltac:(lia)) as [Hd [L U]].
  set (d := Zdigits2 (Zpos m)) in *.
  assert (d <= 53) by lia.
  assert (2 ^ d <= 2 ^ 53) by (apply Z.pow_le_mono_r; lia).
  split; [lia|]. split; [lia|].
  destruct (Z.eq_dec e (-1074)) as [E|E]; [right; exact E|left].
  assert (d = 53) by lia. subst d. rewrite H3 in L. exact L.
Qed.

Lemma bounded_Fmt m e : bounded prec emax m e = true -> Fmt (F2R (Zpos m) e).
Proof.
  intros H. destruct (bounded_facts m e H) as (He & Hm & _).
  exists (Zpos m), e. split; [reflexivity|]. split; simpl; lia.
Qed.

Lemma bounded_lt_top m e :
  bounded prec emax m e = true -> (F2R (Zpos m) e < bpow 1024)%R.
Proof.
  intros H. destruct (bounded_facts m e H) as (He & Hm & _).
  apply Rlt_le_trans with (F2R (2 ^ 53) e).
  - apply F2R_lt. exact Hm.
  - rewrite F2R_pow2 by lia. apply bpow_le. lia.
Qed.

Lemma F2R_pos m e : (0 < F2R (Zpos m) e)%R.
Proof.
  unfold F2R. apply Rmult_lt_0_compat; [apply IZR_lt; lia | apply bpow_pos].
Qed.

Lemma canonical_lt m1 e1 m2 e2 :
  bounded prec emax m1 e1 = true -> bounded prec emax m2 e2 = true ->
  e1 < e2 -> (F2R (Zpos m1) e1 < F2R (Zpos m2) e2)%R.
Proof.
  intros H1 H2 He.
  destruct (bounded_facts _ _ H1) as (He1 & Hm1 & _).
  destruct (bounded_facts _ _ H2) as (He2 & Hm2 & [N2|N2]); [|lia].
  apply Rlt_le_trans with (F2R (2 ^ 53) e1); [apply F2R_lt; exact Hm1|].
  apply Rle_trans with (F2R (2 ^ 52) e2); [|apply F2R_le; exact N2].
  rewrite !F2R_pow2 by lia. apply bpow_le. lia.
Qed.

(** The comparison of two positive valid floats is that of their values. *)
Lemma SFcompare_pos m1 e1 m2 e2 :
  bounded prec emax m1 e1 = true -> bounded prec emax m2 e2 = true ->
  match SFcompare (S754_finite false m1 e1) (S754_finite false m2 e2) with
  | Some Lt => (F2R (Zpos m1) e1 < F2R (Zpos m2) e2)%R
  | Some Eq => m1 = m2 /\ e1 = e2
  | Some Gt => (F2R (Zpos m2) e2 < F2R (Zpos m1) e1)%R
  | None => False
  end.
Proof.
  intros H1 H2. cbn [SFcompare].
  destruct (Z.compare_spec e1 e2) as [E|L|G].
  - subst e2. rewrite Pos.compare_cont_spec. cbn [Pos.switch_Eq].
    destruct (Pos.compare_spec m1 m2) as [E|L|G].
    + split; [exact E | reflexivity].
    + apply F2R_lt. lia.
    + apply F2R_lt. lia.
  - apply canonical_lt; assumption.
  - apply canonical_lt; assumption || lia.
Qed.

(** ** The operations *)

Lemma located_exact m e : located m e loc_Exact (F2R m e).
Proof. exists 0%R. split; [unfold F2R; ring | reflexivity]. Qed.

Lemma Zdigits2_mul_ge m1 m2 :
  0 < m1 -> 0 < m2 -> Zdigits2 m1 + Zdigits2 m2 - 1 <= Zdigits2 (m1 * m2).
Proof.
  intros H1 H2.
  destruct (Zdigits2_bounds m1 H1) as (D1 & L1 & _).
  destruct (Zdigits2_bounds m2 H2) as (D2 & L2 & _).
  destruct (Zdigits2_bounds (m1 * m2) ltac:(lia)) as (D & _ & U).
  assert (P : 2 ^ (Zdigits2 m1 - 1 + (Zdigits2 m2 - 1)) <= m1 * m2).
  { rewrite Z.pow_add_r by lia.
    pose proof (pow2_pos (Zdigits2 m1 - 1)). pose proof (pow2_pos (Zdigits2 m2 - 1)).
    nia. }
  assert (Zdigits2 m1 - 1 + (Zdigits2 m2 - 1) < Zdigits2 (m1 * m2)).
  { apply (Z.pow_lt_mono_r_iff 2); lia. }
  lia.
Qed.

Lemma canonical_digits m e :
  bounded prec emax m e = true ->
  Zdigits2 (Zpos m) = 53 \/ (e = -1074 /\ Zdigits2 (Zpos m) <= 53).
Proof.
  unfold bounded, canonical_mantissa. rewrite fexp_eq.
  intros H. apply andb_prop in H. destruct H as [H1 _].
  apply Z.eqb_eq in H1.
  change (Zpos (digits2_pos m)) with (Zdigits2 (Zpos m)) in H1. lia.
Qed.

Theorem SFmul_finite sx mx ex sy my ey :
  bounded prec emax mx ex = true -> bounded prec emax my ey = true ->
  Rounded (xorb sx sy) (F2R (Zpos mx) ex * F2R (Zpos my) ey)
          (SFmul prec emax (S754_finite sx mx ex) (S754_finite sy my ey)).
Proof.
  intros Hx Hy. cbn [SFmul].
  apply binary_round_aux_spec.
  - lia.
  - replace (F2R (Zpos mx) ex * F2R (Zpos my) ey)%R
      with (F2R (Zpos (mx * my)) (ex + ey)); [apply located_exact|].
    unfold F2R. rewrite Pos2Z.inj_mul, mult_IZR, bpow_add. ring.
  - rewrite fexp_eq. rewrite Pos2Z.inj_mul.
    pose proof (Zdigits2_mul_ge (Zpos mx) (Zpos my) ltac:(lia) ltac:(lia)) as D.
    destruct (Zdigits2_bounds (Zpos mx) ltac:(lia)) as (Dx & _).
    destruct (Zdigits2_bounds (Zpos my) ltac:(lia)) as (Dy & _).
    destruct (bounded_facts _ _ Hx) as (Ex & _).
    destruct (bounded_facts _ _ Hy) as (Ey & _).
    destruct (canonical_digits _ _ Hx) as [Cx|[Cx _]];
      destruct (canonical_digits _ _ Hy) as [Cy|[Cy _]]; lia.
Qed.

Lemma new_location_spec nb k :
  0 < nb -> 0 <= k < nb ->
  loc_frac (new_location nb k) (IZR k / IZR nb).
Proof.
  intros Hnb Hk.
  assert (Rnb : (0 < IZR nb)%R) by (apply IZR_lt; lia).
  assert (Rk : (0 <= IZR k)%R) by (apply IZR_le; lia).
  assert (Q : forall c : R, (IZR k / IZR nb < c <-> IZR k < c * IZR nb)%R).
  { intros c. split; intros H.
    - apply (Rmult_lt_compat_r (IZR nb)) in H; [|exact Rnb].
      unfold Rdiv in H. rewrite Rmult_assoc, Rinv_l in H by lra. lra.
    - apply (Rmult_lt_reg_r (IZR nb)); [exact Rnb|].
      unfold Rdiv. rewrite Rmult_assoc, Rinv_l by lra. lra. }
  assert (Q' : forall c : R, (c < IZR k / IZR nb <-> c * IZR nb < IZR k)%R).
  { intros c. split; intros H.
    - apply (Rmult_lt_compat_r (IZR nb)) in H; [|exact Rnb].
      unfold Rdiv in H. rewrite Rmult_assoc, Rinv_l in H by lra. lra.
    - apply (Rmult_lt_reg_r (IZR nb)); [exact Rnb|].
      unfold Rdiv. rewrite Rmult_assoc, Rinv_l by lra. lra. }
  assert (Hlt : 2 * k < nb -> (0 < k) -> (0 < IZR k / IZR nb < / 2)%R).
  { intros H1 H2. apply IZR_lt in H1, H2. rewrite mult_IZR in H1.
    split; [apply Q'|apply Q]; lra. }
  assert (Hgt : nb < 2 * k -> (/ 2 < IZR k / IZR nb < 1)%R).
  { intros H1. apply IZR_lt in H1. rewrite mult_IZR in H1.
    destruct Hk as [_ Hk]. apply IZR_lt in Hk.
    split; [apply Q'|apply Q]; lra. }
  assert (Heq : nb = 2 * k -> (IZR k / IZR nb = / 2)%R).
  { intros H1. rewrite H1, mult_IZR. field.
    rewrite H1, mult_IZR in Rnb. lra. }
  assert (Hz : k = 0 -> (IZR k / IZR nb = 0)%R).
  { intros ->. unfold Rdiv. ring. }
  unfold new_location, new_location_even, new_location_odd.
  destruct (Z.even nb) eqn:Ev; cbv beta;
    (destruct (Z.eqb_spec k 0) as [EZ|NZ]; [exact (Hz EZ)|]).
  - destruct (Z.compare_spec (2 * k) nb) as [E|L|G]; cbn [loc_frac].
    + apply Heq. lia.
    + apply Hlt; lia.
    + apply Hgt; lia.
  - assert (Od : nb <> 2 * k).
    { intros E. rewrite E, Z.even_mul in Ev. discriminate. }
    destruct (Z.compare_spec (2 * k + 1) nb) as [E|L|G]; cbn [loc_frac].
    + apply Hlt; lia.
    + apply Hlt; lia.
    + apply Hgt; lia.
Qed.

Lemma shift_or_keep m s :
  0 <= s ->
  match s with Zpos _ => Z.shiftl m s | Z0 => m | Zneg _ => 0 end = m * 2 ^ s.
Proof.
  intros Hs. destruct s as [|p|p].
  - change (2 ^ 0) with 1. lia.
  - apply Z.shiftl_mul_pow2. lia.
  - lia.
Qed.

Lemma SFdiv_core_spec m1 e1 m2 e2 q e l :
  0 < m1 -> 0 < m2 ->
  SFdiv_core_binary prec emax m1 e1 m2 e2 = (q, e, l) ->
  0 <= q /\ located q e l (F2R m1 e1 / F2R m2 e2)
  /\ e <= fexp prec emax (Zdigits2 q + e).
Proof.
  intros H1 H2. unfold SFdiv_core_binary. rewrite !fexp_eq.
  set (d1 := Zdigits2 m1). set (d2 := Zdigits2 m2).
  set (e' := Z.min (Z.max (d1 + e1 - (d2 + e2) - 53) (-1074)) (e1 - e2)).
  set (s := e1 - e2 - e').
  assert (Hs : 0 <= s) by (unfold s, e'; lia).
  set (m' := match s with Zpos _ => Z.shiftl m1 s | Z0 => m1 | Zneg _ => 0 end).
  assert (Hm' : m' = m1 * 2 ^ s) by (apply shift_or_keep; exact Hs).
  clearbody m'.
  pose proof (Z_div_mod m' m2 ltac:(lia)) as DM.
  destruct (Z.div_eucl m' m2) as [q0 r0]. destruct DM as [DM Hr].
  intros H. injection H as <- <- <-.
  pose proof (pow2_pos s Hs) as Ps.
  assert (Hq : 0 <= q0) by nia.
  split; [exact Hq|]. split.
  - exists (IZR r0 / IZR m2)%R. split; [|apply new_location_spec; lia].
    assert (Rm2 : (0 < IZR m2)%R) by (apply IZR_lt; lia).
    assert (E : (IZR m1 * bpow s = IZR m2 * IZR q0 + IZR r0)%R).
    { rewrite <- bpow_IZR, <- mult_IZR, <- Hm', DM, plus_IZR, mult_IZR by lia.
      reflexivity. }
    unfold F2R. replace e1 with (s + e' + e2) by (unfold s; lia).
    rewrite !bpow_add.
    pose proof (bpow_pos e2). pose proof (bpow_pos e').
    replace (IZR m1 * (bpow s * bpow e' * bpow e2) / (IZR m2 * bpow e2))%R
      with ((IZR m1 * bpow s) / IZR m2 * bpow e')%R by (field; lra).
    rewrite E. field. lra.
  - destruct (Zdigits2_bounds m1 H1) as (D1 & L1 & _).
    destruct (Zdigits2_bounds m2 H2) as (D2 & _ & U2).
    fold d1 in D1, L1. fold d2 in D2, U2.
    assert (Dq : 0 <= Zdigits2 q0 /\ q0 + 1 <= 2 ^ Zdigits2 q0).
    { destruct (Z.eq_dec q0 0) as [->|NZ]; [simpl; lia|].
      destruct (Zdigits2_bounds q0 ltac:(lia)) as (Dq & _ & Uq). lia. }
    destruct Dq as [Dq Uq].
    assert (P : 2 ^ (d1 - 1 + s) < 2 ^ (Zdigits2 q0 + d2)).
    { rewrite !Z.pow_add_r by lia.
      pose proof (pow2_pos (d1 - 1) ltac:(lia)).
      pose proof (pow2_pos (Zdigits2 q0) Dq).
      apply Z.le_lt_trans with (m1 * 2 ^ s); [nia|].
      apply Z.lt_le_trans with ((q0 + 1) * m2); [nia|]. nia. }
    apply (Z.pow_lt_mono_r_iff 2) in P; [|lia|lia].
    unfold s in P. unfold e' at 1. lia.
Qed.

Theorem SFdiv_finite sx mx ex sy my ey :
  Rounded (xorb sx sy) (F2R (Zpos mx) ex / F2R (Zpos my) ey)
          (SFdiv prec emax (S754_finite sx mx ex) (S754_finite sy my ey)).
Proof.
  cbn [SFdiv].
  destruct (SFdiv_core_binary prec emax (Zpos mx) ex (Zpos my) ey) as [[q e] l] eqn:E.
  destruct (SFdiv_core_spec _ _ _ _ _ _ _ (Pos2Z.is_pos mx) (Pos2Z.is_pos my) E)
    as (Hq & Hl & Hp).
  apply binary_round_aux_spec; assumption.
Qed.

Lemma iter_xO m d : Zpos (Pos.iter xO m d) = Zpos m * 2 ^ Zpos d.
Proof.
  induction d as [|d IH] using Pos.peano_ind.
  - cbn [Pos.iter]. rewrite Pos2Z.inj_xO. change (2 ^ 1) with 2. ring.
  - rewrite Pos.iter_succ, Pos2Z.inj_xO, IH, Pos2Z.inj_succ, Z.pow_succ_r by lia.
    ring.
Qed.

Theorem binary_round_spec s m e :
  Rounded s (F2R (Zpos m) e) (binary_round prec emax s m e).
Proof.
  unfold binary_round, shl_align. rewrite fexp_eq.
  change (Zpos (digits2_pos m)) with (Zdigits2 (Zpos m)).
  destruct (Zdigits2_bounds (Zpos m) ltac:(lia)) as (D & L & U).
  set (d := Zdigits2 (Zpos m)) in *.
  destruct (Z.max (d + e - 53) (-1074) - e) as [|p|p] eqn:En.
  - apply binary_round_aux_spec; [lia | apply located_exact |].
    rewrite fexp_eq. fold d. lia.
  - apply binary_round_aux_spec; [lia | apply located_exact |].
    rewrite fexp_eq. fold d. lia.
  - apply binary_round_aux_spec; [lia | |].
    + rewrite iter_xO.
      replace (F2R (Zpos m) e) with (F2R (Zpos m * 2 ^ Zpos p) (Z.max (d + e - 53) (-1074))).
      * apply located_exact.
      * rewrite F2R_shift by lia. f_equal. lia.
    + rewrite iter_xO, fexp_eq.
      rewrite (Zdigits2_unique (Zpos m * 2 ^ Zpos p) (d + Zpos p)).
      * lia.
      * pose proof (pow2_pos (Zpos p)). nia.
      * replace (d + Zpos p - 1) with (d - 1 + Zpos p) by lia.
        rewrite !Z.pow_add_r by lia.
        pose proof (pow2_pos (Zpos p)). nia.
Qed.

End Binary64Facts.

Import Binary64Facts.

(** * Lemmas on the operations of the program *)

(** ** Comparisons *)

Lemma SFcompare_refl x : isNaN x = false -> SFcompare x x = Some Eq.
Proof.
  destruct x as [s|s| |s m e]; try discriminate; intros _; cbn [SFcompare].
  - reflexivity.
  - destruct s; reflexivity.
  - rewrite Z.compare_refl, Pos.compare_cont_refl. destruct s; reflexivity.
Qed.

Lemma le_refl x : isNaN x = false -> le x x = true.
Proof. intros H. unfold le, SFleb. rewrite SFcompare_refl by exact H. reflexivity. Qed.

Lemma lt_le a b : lt a b = true -> le a b = true.
Proof. unfold lt, le, SFltb, SFleb. destruct (SFcompare a b) as [[| |]|]; congruence. Qed.

Lemma le_not_nan a b : le a b = true -> isNaN a = false /\ isNaN b = false.
Proof.
  unfold le, SFleb. destruct a as [| | |]; destruct b as [| | |]; cbn; try discriminate;
    split; reflexivity.
Qed.

Lemma lt_not_nan a b : lt a b = true -> isNaN a = false /\ isNaN b = false.
Proof. intros H. apply le_not_nan, lt_le, H. Qed.

(** ** [Math.max], [Math.min] and [clamp] *)

Lemma Math_max_cases a b :
  isNaN a = false -> isNaN b = false ->
  (Math_max a b = a \/ (Math_max a b = b /\ le a b = true))
  /\ le a (Math_max a b) = true.
Proof.
  intros Ha Hb. unfold Math_max. rewrite Ha, Hb. cbn [orb].
  assert (G : (if lt a b then b else a) = a
              \/ ((if lt a b then b else a) = b /\ le a b = true)).
  { destruct (lt a b) eqn:L; [right; split; [reflexivity | apply lt_le, L] | left; reflexivity]. }
  assert (G' : le a (if lt a b then b else a) = true).
  { destruct (lt a b) eqn:L; [apply lt_le, L | apply le_refl, Ha]. }
  destruct a as [[|]| | |]; try (split; assumption);
    destruct b as [[|]| | |]; try (split; assumption).
  split; [right; split; reflexivity | reflexivity].
Qed.

Lemma Math_min_cases a b :
  isNaN a = false -> isNaN b = false ->
  (Math_min a b = a \/ (Math_min a b = b /\ le b a = true))
  /\ le (Math_min a b) a = true.
Proof.
  intros Ha Hb. unfold Math_min. rewrite Ha, Hb. cbn [orb].
  assert (G : (if lt b a then b else a) = a
              \/ ((if lt b a then b else a) = b /\ le b a = true)).
  { destruct (lt b a) eqn:L; [right; split; [reflexivity | apply lt_le, L] | left; reflexivity]. }
  assert (G' : le (if lt b a then b else a) a = true).
  { destruct (lt b a) eqn:L; [apply lt_le, L | apply le_refl, Ha]. }
  destruct a as [[|]| | |]; try (split; assumption);
    destruct b as [[|]| | |]; try (split; assumption).
  split; [right; split; reflexivity | reflexivity].
Qed.

Lemma clamp_nan n lo hi : isNaN n = true -> clamp n lo hi = lo.
Proof. intros H. unfold clamp. rewrite H. reflexivity. Qed.

(** [clamp] returns one of its three arguments, between the bounds. *)
Lemma clamp_bounds n lo hi :
  isNaN lo = false -> isNaN hi = false -> le lo hi = true ->
  le lo (clamp n lo hi) = true /\ le (clamp n lo hi) hi = true
  /\ (clamp n lo hi = lo \/ clamp n lo hi = hi
      \/ (clamp n lo hi = n /\ isNaN n = false)).
Proof.
  intros Hlo Hhi Hle. unfold clamp.
  destruct (isNaN n) eqn:Hn.
  { split; [apply le_refl, Hlo|]. split; [exact Hle|]. left. reflexivity. }
  destruct (Math_max_cases lo n Hlo Hn) as [Hm Hlm].
  assert (Nm : isNaN (Math_max lo n) = false).
  { destruct Hm as [->|[-> _]]; assumption. }
  destruct (Math_min_cases hi (Math_max lo n) Hhi Nm) as [Hr Hrh].
  split; [|split; [exact Hrh|]].
  - destruct Hr as [->|[-> _]]; assumption.
  - destruct Hr as [->|[-> _]]; [right; left; reflexivity|].
    destruct Hm as [->|[-> _]]; [left; reflexivity|].
    right; right. split; reflexivity.
Qed.

Lemma toNum_finite_or_nan v : isFinite (toNum v) = true \/ toNum v = NaN.
Proof.
  unfold toNum. destruct (isFinite (Number (decimal_text v))) eqn:F.
  - left. exact F.
  - right. reflexivity.
Qed.

Lemma toNum_nan v :
  isFinite (Number (decimal_text v)) = false -> toNum v = NaN.
Proof. intros H. unfold toNum. rewrite H. reflexivity. Qed.

Lemma isFinite_not_nan x : isFinite x = true -> isNaN x = false.
Proof. destruct x; cbn; congruence. Qed.

(** A clamped field is finite whenever its bounds are. *)
Lemma clamp_toNum_finite v lo hi :
  isFinite lo = true -> isFinite hi = true -> le lo hi = true ->
  isFinite (clamp (toNum v) lo hi) = true.
Proof.
  intros Flo Fhi Hle.
  destruct (clamp_bounds (toNum v) lo hi) as (_ & _ & [->|[->|[-> Hn]]]);
    try (apply isFinite_not_nan; assumption); try assumption.
  destruct (toNum_finite_or_nan v) as [F|E]; [exact F|].
  rewrite E in Hn. discriminate.
Qed.

(** ** The real value of finite doubles *)

Lemma finite_nonneg_cases x :
  finite_nonneg x = true ->
  (exists s, x = S754_zero s)
  \/ (exists m e, x = S754_finite false m e /\ bounded prec emax m e = true).
Proof.
  destruct x as [s|s| |[|] m e]; cbn; try discriminate; intros H.
  - left. exists s. reflexivity.
  - right. exists m, e. split; [reflexivity | exact H].
Qed.

Ltac fn_cases H :=
  let s := fresh "s" in let m := fresh "m" in let e := fresh "e" in
  let B := fresh "B" in
  destruct (finite_nonneg_cases _ H) as [[s ->]|(m & e & -> & B)].

Lemma val_nonneg x : finite_nonneg x = true -> (0 <= val x)%R.
Proof.
  intros H. fn_cases H; cbn [val cond_Zopp].
  - lra.
  - apply Rlt_le, F2R_pos.
Qed.

Lemma val_Fmt x : finite_nonneg x = true -> Fmt (val x).
Proof.
  intros H. fn_cases H; cbn [val cond_Zopp].
  - apply Fmt_0.
  - apply bounded_Fmt, B.
Qed.

Lemma val_lt_top x : finite_nonneg x = true -> (val x < bpow 1024)%R.
Proof.
  intros H. fn_cases H; cbn [val cond_Zopp].
  - apply bpow_pos.
  - apply bounded_lt_top, B.
Qed.

Lemma val_zero_inv x :
  finite_nonneg x = true -> val x = 0%R -> exists s, x = S754_zero s.
Proof.
  intros H. fn_cases H; cbn [val cond_Zopp]; intros V.
  - exists s. reflexivity.
  - pose proof (F2R_pos m e). lra.
Qed.

Lemma finite_nonneg_wf x : finite_nonneg x = true -> wf x = true.
Proof. intros H. fn_cases H; [reflexivity | exact B]. Qed.

Lemma finite_nonneg_finite x : finite_nonneg x = true -> isFinite x = true.
Proof. intros H. fn_cases H; reflexivity. Qed.

Lemma le_val a b :
  finite_nonneg a = true -> finite_nonneg b = true ->
  (le a b = true <-> (val a <= val b)%R).
Proof.
  intros Ha Hb. unfold le, SFleb. fn_cases Ha; fn_cases Hb; cbn [val cond_Zopp].
  - cbn. split; [lra | reflexivity].
  - cbn. pose proof (F2R_pos m e). split; [lra | reflexivity].
  - cbn. pose proof (F2R_pos m e). split; [discriminate | lra].
  - pose proof (SFcompare_pos m e m0 e0 B B0) as C.
    destruct (SFcompare (S754_finite false m e) (S754_finite false m0 e0))
      as [[| |]|]; try contradiction.
    + destruct C as [-> ->]. split; [lra | reflexivity].
    + split; [lra | reflexivity].
    + split; [discriminate | lra].
Qed.

Lemma lt_val a b :
  finite_nonneg a = true -> finite_nonneg b = true ->
  (lt a b = true <-> (val a < val b)%R).
Proof.
  intros Ha Hb. unfold lt, SFltb. fn_cases Ha; fn_cases Hb; cbn [val cond_Zopp].
  - cbn. split; [discriminate | lra].
  - cbn. pose proof (F2R_pos m e). split; [lra | reflexivity].
  - cbn. pose proof (F2R_pos m e). split; [discriminate | lra].
  - pose proof (SFcompare_pos m e m0 e0 B B0) as C.
    destruct (SFcompare (S754_finite false m e) (S754_finite false m0 e0))
      as [[| |]|]; try contradiction.
    + destruct C as [-> ->]. split; [discriminate | lra].
    + split; [lra | reflexivity].
    + split; [discriminate | lra].
Qed.

Lemma val_inj a b :
  finite_nonneg a = true -> finite_nonneg b = true -> val a = val b ->
  a = b \/ (exists s t, a = S754_zero s /\ b = S754_zero t).
Proof.
  intros Ha Hb. fn_cases Ha; fn_cases Hb; cbn [val cond_Zopp]; intros V.
  - right. exists s, s0. split; reflexivity.
  - pose proof (F2R_pos m e). lra.
  - pose proof (F2R_pos m e). lra.
  - pose proof (SFcompare_pos m e m0 e0 B B0) as C.
    destruct (SFcompare (S754_finite false m e) (S754_finite false m0 e0))
      as [[| |]|]; try contradiction; try lra.
    destruct C as [-> ->]. left. reflexivity.
Qed.

(** ** Rounded results *)

Lemma Rounded_Rnn x f : Rounded false x f -> Rnn x f.
Proof.
  intros (v & Hn & Hf). destruct f as [s|s| |s m e]; try contradiction.
  - destruct Hf as [-> ->]. left. split; [reflexivity | exact Hn].
  - destruct Hf as [-> Hv]. right. split; [reflexivity|]. exists v. split; assumption.
  - destruct Hf as (-> & -> & B). left. split; [exact B | exact Hn].
Qed.

Lemma Rounded_wf s x f : Rounded s x f -> wf f = true /\ isNaN f = false.
Proof.
  intros (v & Hn & Hf). destruct f as [s'|s'| |s' m e]; try contradiction.
  - split; reflexivity.
  - split; reflexivity.
  - destruct Hf as (_ & _ & B). split; [exact B | reflexivity].
Qed.

Lemma Rnn_zero s : Rnn 0 (S754_zero s).
Proof. left. split; [reflexivity | apply nearest_refl, Fmt_0]. Qed.

Lemma Rnn_not_nan x f : Rnn x f -> isNaN f = false.
Proof.
  intros [[H _]|[-> _]]; [|reflexivity].
  apply isFinite_not_nan, finite_nonneg_finite, H.
Qed.

Lemma Rnn_nonneg_ext x f : Rnn x f -> nonneg_ext f = true.
Proof.
  intros [[H _]|[-> _]]; unfold nonneg_ext; [rewrite H|]; reflexivity.
Qed.

Lemma Rnn_wf x f : Rnn x f -> wf f = true.
Proof. intros [[H _]|[-> _]]; [apply finite_nonneg_wf, H | reflexivity]. Qed.

(** A result whose exact value is below a double stays finite and below it. *)
Lemma Rnn_bounded x f c :
  Rnn x f -> finite_nonneg c = true -> (x <= val c)%R ->
  finite_nonneg f = true /\ nearest x (val f) /\ (val f <= val c)%R.
Proof.
  intros [[Hf Hn]|[-> (v & Hn & Hv)]] Hc Hx.
  - split; [exact Hf|]. split; [exact Hn|].
    apply (nearest_le x); [apply val_Fmt, Hc | exact Hx | exact Hn].
  - exfalso. pose proof (nearest_le x v (val c) (val_Fmt c Hc) Hx Hn).
    pose proof (val_lt_top c Hc). lra.
Qed.

Lemma le_Infinity f : nonneg_ext f = true -> le f Infinity = true.
Proof.
  unfold nonneg_ext. destruct f as [s|[|]| |[|] m e]; cbn; try discriminate; reflexivity.
Qed.

Lemma Rnn_lt_le x y f g : Rnn x f -> Rnn y g -> (x < y)%R -> le f g = true.
Proof.
  intros Hf Hg Hxy.
  destruct Hg as [[Fg Ng]|[-> _]]; [|apply le_Infinity, (Rnn_nonneg_ext x), Hf].
  destruct Hf as [[Ff Nf]|[-> (v & Nv & Hv)]].
  - apply le_val; [assumption..|]. apply (nearest_mono x y); assumption.
  - exfalso. pose proof (nearest_mono x y v (val g) Hxy Nv Ng).
    pose proof (val_lt_top g Fg). lra.
Qed.

Theorem mul_Rnn a b :
  finite_nonneg a = true -> finite_nonneg b = true ->
  Rnn (val a * val b) (mul a b).
Proof.
  intros Ha Hb. fn_cases Ha; fn_cases Hb; cbn [val cond_Zopp].
  - rewrite Rmult_0_l. apply Rnn_zero.
  - rewrite Rmult_0_l. apply Rnn_zero.
  - rewrite Rmult_0_r. apply Rnn_zero.
  - apply Rounded_Rnn. apply (SFmul_finite false m e false m0 e0); assumption.
Qed.

Theorem div_Rnn a b :
  finite_nonneg a = true -> finite_nonneg b = true -> (0 < val b)%R ->
  Rnn (val a / val b) (div a b).
Proof.
  intros Ha Hb. fn_cases Ha; fn_cases Hb; cbn [val cond_Zopp]; intros Hp; try lra.
  - unfold Rdiv. rewrite Rmult_0_l. apply Rnn_zero.
  - apply Rounded_Rnn. apply (SFdiv_finite false m e false m0 e0).
Qed.

Lemma mul_comm a b : mul a b = mul b a.
Proof.
  unfold mul. destruct a as [s|s| |s m e]; destruct b as [t|t| |t n f];
    cbn [SFmul]; rewrite ?(xorb_comm s t), ?(Pos.mul_comm m n), ?(Z.add_comm e f);
    reflexivity.
Qed.

Lemma mul_zero_l s b : finite_nonneg b = true -> exists t, mul (S754_zero s) b = S754_zero t.
Proof. intros H. fn_cases H; cbn; eexists; reflexivity. Qed.

(** Multiplication is monotone on doubles that are not negative. *)
Theorem mul_le_mono_r a1 a2 b :
  finite_nonneg a1 = true -> finite_nonneg a2 = true -> finite_nonneg b = true ->
  le a1 a2 = true -> le (mul a1 b) (mul a2 b) = true.
Proof.
  intros H1 H2 Hb Hle.
  apply (le_val a1 a2 H1 H2) in Hle.
  pose proof (mul_Rnn a1 b H1 Hb) as R1. pose proof (mul_Rnn a2 b H2 Hb) as R2.
  pose proof (val_nonneg b Hb) as Nb.
  destruct (Req_dec (val b) 0) as [Zb|Pb].
  { destruct (val_zero_inv b Hb Zb) as [t ->].
    rewrite (mul_comm a1), (mul_comm a2).
    destruct (mul_zero_l t a1 H1) as [t1 ->]. destruct (mul_zero_l t a2 H2) as [t2 ->].
    reflexivity. }
  destruct Hle as [Hlt|Heq].
  - apply (Rnn_lt_le _ _ _ _ R1 R2). nra.
  - destruct (val_inj a1 a2 H1 H2 Heq) as [->|(s & t & -> & ->)].
    + apply le_refl, (Rnn_not_nan _ _ R2).
    + destruct (mul_zero_l s b Hb) as [t1 ->]. destruct (mul_zero_l t b Hb) as [t2 ->].
      reflexivity.
Qed.

Theorem mul_le_mono_l a b1 b2 :
  finite_nonneg a = true -> finite_nonneg b1 = true -> finite_nonneg b2 = true ->
  le b1 b2 = true -> le (mul a b1) (mul a b2) = true.
Proof.
  intros. rewrite (mul_comm a b1), (mul_comm a b2). apply mul_le_mono_r; assumption.
Qed.

(** Division by a positive double is monotone in the numerator. *)
Theorem div_le_mono a1 a2 c :
  finite_nonneg a1 = true -> finite_nonneg a2 = true -> finite_nonneg c = true ->
  (0 < val c)%R ->
  le a1 a2 = true -> le (div a1 c) (div a2 c) = true.
Proof.
  intros H1 H2 Hc Pc Hle.
  apply (le_val a1 a2 H1 H2) in Hle.
  pose proof (div_Rnn a1 c H1 Hc Pc) as R1. pose proof (div_Rnn a2 c H2 Hc Pc) as R2.
  destruct Hle as [Hlt|Heq].
  - apply (Rnn_lt_le _ _ _ _ R1 R2).
    unfold Rdiv. apply Rmult_lt_compat_r; [apply Rinv_0_lt_compat, Pc | exact Hlt].
  - destruct (val_inj a1 a2 H1 H2 Heq) as [->|(s & t & -> & ->)].
    + apply le_refl, (Rnn_not_nan _ _ R2).
    + clear R1 R2. fn_cases Hc; cbn [val] in Pc; [lra | reflexivity].
Qed.

(** An integer literal below [2^53] is represented exactly. *)
Theorem val_num z :
  0 <= z < 2 ^ 53 -> finite_nonneg (num z) = true /\ val (num z) = IZR z.
Proof.
  intros Hz. unfold num, binary_normalize.
  destruct z as [|p|p]; try lia.
  - split; reflexivity.
  - destruct (binary_round_spec false p 0) as (v & Hn & Hf).
    assert (Fz : Fmt (F2R (Zpos p) 0)).
    { exists (Zpos p), 0. split; [reflexivity|]. split; simpl; lia. }
    pose proof (nearest_exact _ _ Fz Hn) as Ev.
    assert (Vz : F2R (Zpos p) 0 = IZR (Zpos p)).
    { unfold F2R. rewrite bpow_0. ring. }
    destruct (binary_round prec emax false p 0) as [s|s| |s m e]; try contradiction.
    + destruct Hf as [_ Hv]. pose proof (F2R_pos p 0). lra.
    + destruct Hf as [_ Hv]. exfalso.
      assert (F2R (Zpos p) 0 < bpow 1024)%R; [|lra].
      apply Rlt_le_trans with (F2R (2 ^ 53) 0); [apply F2R_lt; lia|].
      rewrite F2R_pow2 by lia. apply bpow_le. lia.
    + destruct Hf as (-> & Hv & B). split; [exact B|].
      cbn [val cond_Zopp]. rewrite <- Hv, Ev. exact Vz.
Qed.

(** ** More on comparisons *)

Lemma SFcompare_antisym a b :
  SFcompare b a = match SFcompare a b with
                  | Some c => Some (CompOpp c)
                  | None => None
                  end.
Proof.
  destruct a as [s|s| |s m e]; destruct b as [t|t| |t n f]; cbn [SFcompare];
    try reflexivity; try (destruct s; reflexivity); try (destruct t; reflexivity);
    try (destruct s, t; reflexivity).
  destruct s, t; try reflexivity;
    rewrite (Z.compare_antisym e f); destruct (e ?= f); cbn [CompOpp]; try reflexivity;
    rewrite (Pos.compare_cont_antisym m n Eq); reflexivity.
Qed.

(** [a <= b] and [a >= b] are evaluated from the comparison of the operands
    in the other order; by antisymmetry that is [SFleb]. *)
Lemma le_as_evaluated a b :
  le a b = match SFcompare b a with
           | Some Lt | None => false
           | Some _ => true
           end.
Proof.
  unfold le, SFleb. rewrite (SFcompare_antisym a b).
  destruct (SFcompare a b) as [[| |]|]; reflexivity.
Qed.

Lemma gt_false_iff s o :
  isNaN o = false ->
  (gt s o = false <-> le s o = true \/ isNaN s = true).
Proof.
  intros Ho. unfold gt, le, SFltb, SFleb. rewrite (SFcompare_antisym s o).
  destruct (SFcompare s o) as [[| |]|] eqn:C; cbn [CompOpp].
  - split; intros _; [left|]; reflexivity.
  - split; intros _; [left|]; reflexivity.
  - split; [discriminate|]. intros [H|H]; [discriminate|].
    destruct s; discriminate.
  - split; [|reflexivity]. intros _. right.
    destruct s as [| | |]; destruct o as [| | |]; cbn in *; try discriminate; reflexivity.
Qed.

Lemma eq_finite_inv d m e :
  eq d (S754_finite false m e) = true -> d = S754_finite false m e.
Proof.
  unfold eq, SFeqb. destruct d as [s|s| |s m' e']; cbn [SFcompare].
  - destruct s; discriminate.
  - destruct s; discriminate.
  - discriminate.
  - destruct s; [discriminate|].
    destruct (Z.compare_spec e' e) as [E|L|G]; try discriminate.
    rewrite Pos.compare_cont_spec. cbn [Pos.switch_Eq].
    destruct (Pos.compare_spec m' m) as [E'|L|G]; try discriminate.
    intros _. subst. reflexivity.
Qed.

(** ** Fields within their bounds *)

Lemma in_bounds_facts x lo hi :
  0 <= lo -> lo <= hi < 2 ^ 53 ->
  in_bounds x lo hi = true ->
  finite_nonneg x = true /\ (IZR lo <= val x <= IZR hi)%R.
Proof.
  intros Hlo Hhi H. unfold in_bounds in H.
  apply andb_prop in H. destruct H as [H H3].
  apply andb_prop in H. destruct H as [H1 H2].
  destruct (val_num lo ltac:(lia)) as [Flo Vlo].
  destruct (val_num hi ltac:(lia)) as [Fhi Vhi].
  assert (Fx : finite_nonneg x = true).
  { destruct x as [s|s| |s m e].
    - reflexivity.
    - exfalso. destruct s.
      + revert H2. unfold le, SFleb. fn_cases Flo; cbn; discriminate.
      + revert H3. unfold le, SFleb. fn_cases Fhi; cbn; discriminate.
    - apply le_not_nan in H2. destruct H2 as [_ H2]. discriminate.
    - destruct s; [|exact H1]. exfalso.
      revert H2. unfold le, SFleb. fn_cases Flo; cbn; discriminate. }
  split; [exact Fx|].
  apply (le_val _ _ Flo Fx) in H2. apply (le_val _ _ Fx Fhi) in H3. lra.
Qed.

Lemma Normalized_field i f :
  Normalized i = true -> in_bounds (get f i) (field_lo f) (field_hi f) = true.
Proof.
  unfold Normalized. intros H.
  apply andb_prop in H. destruct H as [H _].
  apply andb_prop in H. destruct H as [H _].
  rewrite forallb_forall in H. apply H.
  destruct f; cbn; tauto.
Qed.

Lemma Normalized_get i f :
  Normalized i = true ->
  finite_nonneg (get f i) = true
  /\ (IZR (field_lo f) <= val (get f i) <= IZR (field_hi f))%R.
Proof.
  intros H. apply in_bounds_facts.
  - destruct f; cbn; lia.
  - destruct f; cbn; lia.
  - apply Normalized_field, H.
Qed.

Lemma Normalized_override i :
  Normalized i = true ->
  wf (vriPerYearOverride i) = true
  /\ (isFinite (vriPerYearOverride i) = true \/ vriPerYearOverride i = NaN).
Proof.
  unfold Normalized. intros H.
  apply andb_prop in H. destruct H as [H H3].
  apply andb_prop in H. destruct H as [_ H2].
  split; [exact H2|].
  apply orb_prop in H3. destruct H3 as [H3|H3]; [left; exact H3|right].
  destruct (vriPerYearOverride i); try discriminate. reflexivity.
Qed.

(** ** Quotients and products that stay below their operand *)

Lemma div_frac a c :
  finite_nonneg a = true -> finite_nonneg c = true ->
  (0 < val c)%R -> (val a <= val c)%R ->
  finite_nonneg (div a c) = true /\ (val (div a c) <= 1)%R.
Proof.
  intros Ha Hc Pc Hle.
  destruct (val_num 1 ltac:(lia)) as [F1 V1].
  destruct (Rnn_bounded _ _ (num 1) (div_Rnn a c Ha Hc Pc) F1) as (F & _ & B).
  - rewrite V1. apply (Rmult_le_reg_r (val c)); [exact Pc|].
    unfold Rdiv. rewrite Rmult_assoc, Rinv_l by lra. lra.
  - split; [exact F|]. rewrite V1 in B. exact B.
Qed.

Lemma mul_frac a q :
  finite_nonneg a = true -> finite_nonneg q = true -> (val q <= 1)%R ->
  finite_nonneg (mul a q) = true /\ (val (mul a q) <= val a)%R.
Proof.
  intros Ha Hq Hle.
  destruct (Rnn_bounded _ _ a (mul_Rnn a q Ha Hq) Ha) as (F & _ & B).
  - pose proof (val_nonneg a Ha). pose proof (val_nonneg q Hq). nra.
  - split; assumption.
Qed.

Lemma mul_bounded a b c :
  finite_nonneg a = true -> finite_nonneg b = true -> 0 <= c < 2 ^ 53 ->
  (val a * val b <= IZR c)%R ->
  finite_nonneg (mul a b) = true /\ (val (mul a b) <= IZR c)%R.
Proof.
  intros Ha Hb Hc Hle.
  destruct (val_num c Hc) as [Fc Vc].
  destruct (Rnn_bounded _ _ (num c) (mul_Rnn a b Ha Hb) Fc) as (F & _ & B).
  - rewrite Vc. exact Hle.
  - split; [exact F|]. rewrite Vc in B. exact B.
Qed.

(** Dividing by one changes nothing. *)
Theorem div_one a : finite_nonneg a = true -> div a (num 1) = a.
Proof.
  intros Ha. destruct (val_num 1 ltac:(lia)) as [F1 V1].
  fn_cases Ha.
  - cbn. destruct s; reflexivity.
  - assert (P1 : (0 < val (num 1))%R) by (rewrite V1; lra).
    assert (Fa : finite_nonneg (S754_finite false m e) = true) by exact B.
    destruct (Rnn_bounded _ _ _ (div_Rnn _ _ Fa F1 P1) Fa) as (F & N & _).
    + rewrite V1. unfold Rdiv. rewrite Rinv_1, Rmult_1_r. lra.
    + rewrite V1 in N. unfold Rdiv in N. rewrite Rinv_1, Rmult_1_r in N.
      pose proof (nearest_exact _ _ (val_Fmt _ Fa) N) as E.
      destruct (val_inj _ _ F Fa E) as [->|(s & t & _ & Habs)];
        [reflexivity | discriminate].
Qed.

(** ** Subtraction gives a double *)

Lemma binary_normalize_wf z e s :
  wf (binary_normalize prec emax z e s) = true
  /\ isNaN (binary_normalize prec emax z e s) = false.
Proof.
  unfold binary_normalize. destruct z as [|p|p].
  - split; reflexivity.
  - apply (Rounded_wf false (F2R (Zpos p) e)), binary_round_spec.
  - apply (Rounded_wf true (F2R (Zpos p) e)), binary_round_spec.
Qed.

Lemma sub_wf a b :
  finite_nonneg a = true -> finite_nonneg b = true ->
  wf (sub a b) = true /\ isNaN (sub a b) = false.
Proof.
  intros Ha Hb. unfold sub. fn_cases Ha; fn_cases Hb; cbn [SFsub].
  - destruct s, s0; split; reflexivity.
  - split; [exact B | reflexivity].
  - split; [exact B | reflexivity].
  - apply binary_normalize_wf.
Qed.

Lemma num_wf z : wf (num z) = true /\ isNaN (num z) = false.
Proof. apply binary_normalize_wf. Qed.

(** ** The formula chain of [calc], step by step *)

Lemma calc_bedDays i :
  bedDays (calc i)
  = mul (mul (beds i) (num 365))
        (clamp (div (occupancyPct i) (num 100)) (num 0) (num 1)).
Proof. reflexivity. Qed.

Lemma calc_vriFromRate i :
  vriFromRate (calc i)
  = mul (div (vriPer1000BedDays i) (num 1000)) (bedDays (calc i)).
Proof. reflexivity. Qed.

Lemma calc_usedOverride i :
  usedOverride (calc i)
  = isFinite (vriPerYearOverride i) && gt (vriPerYearOverride i) (num 0).
Proof. reflexivity. Qed.

Lemma calc_vri i :
  vri (calc i)
  = if usedOverride (calc i) then vriPerYearOverride i else vriFromRate (calc i).
Proof. reflexivity. Qed.

Lemma calc_gramNeg i :
  gramNeg (calc i) = mul (vri (calc i)) (div (gramNegPct i) (num 100)).
Proof. reflexivity. Qed.

Lemma calc_sinkGramNeg i :
  sinkGramNeg (calc i)
  = mul (gramNeg (calc i)) (div (sinkAttributablePct i) (num 100)).
Proof. reflexivity. Qed.

Lemma calc_avoided i :
  avoided (calc i) = mul (sinkGramNeg (calc i)) (div (effectPct i) (num 100)).
Proof. reflexivity. Qed.

Lemma calc_savedBedDays i :
  savedBedDays (calc i) = mul (avoided (calc i)) (extraDaysPerVRI i).
Proof. reflexivity. Qed.

Lemma calc_savedSEK i :
  savedSEK (calc i)
  = if String.eqb (pricingMode i) "perVRI"
    then mul (avoided (calc i)) (costPerVRI i)
    else mul (savedBedDays (calc i)) (costPerBedDay i).
Proof. reflexivity. Qed.

Lemma calc_paybackYears i :
  paybackYears (calc i)
  = if gt (savedSEK (calc i)) (opexYear i)
    then div (capex i) (Math_max (num 1) (sub (savedSEK (calc i)) (opexYear i)))
    else NaN.
Proof. reflexivity. Qed.

(** A percentage divided by 100 is a fraction. *)
Lemma pct_frac p :
  finite_nonneg p = true -> (val p <= 100)%R ->
  finite_nonneg (div p (num 100)) = true /\ (val (div p (num 100)) <= 1)%R.
Proof.
  intros Hp Hle. destruct (val_num 100 ltac:(lia)) as [F V].
  apply div_frac; try assumption; rewrite V; lra.
Qed.

Lemma override_used_finite_nonneg o :
  wf o = true -> isFinite o && gt o (num 0) = true -> finite_nonneg o = true.
Proof.
  intros Hw H. apply andb_prop in H. destruct H as [Hf Hg].
  destruct o as [s|s| |s m e]; try discriminate.
  destruct s; [discriminate | exact Hw].
Qed.

Section NormalizedInput.

Variable i : CalcInput.
Hypothesis HN : Normalized i = true.

(** On a normalized input every quantity up to [avoided] is a finite
    double that is not negative; [savedBedDays] may overflow. *)
Theorem calc_chain :
  finite_nonneg (bedDays (calc i)) = true
  /\ finite_nonneg (vriFromRate (calc i)) = true
  /\ finite_nonneg (vri (calc i)) = true
  /\ finite_nonneg (gramNeg (calc i)) = true
  /\ finite_nonneg (sinkGramNeg (calc i)) = true
  /\ finite_nonneg (avoided (calc i)) = true
  /\ Rnn (val (avoided (calc i)) * val (extraDaysPerVRI i)) (savedBedDays (calc i)).
Proof.
  destruct (Normalized_get i FBeds HN) as [Fb Vb].
  destruct (Normalized_get i FOccupancyPct HN) as [Fo Vo].
  destruct (Normalized_get i FVriPer1000BedDays HN) as [Fr Vr].
  destruct (Normalized_get i FGramNegPct HN) as [Fg Vg].
  destruct (Normalized_get i FSinkAttributablePct HN) as [Fs Vs].
  destruct (Normalized_get i FEffectPct HN) as [Fe Ve].
  destruct (Normalized_get i FExtraDaysPerVRI HN) as [Fx Vx].
  destruct (Normalized_override i HN) as [Wo _].
  cbn [get field_lo field_hi] in *.
  destruct (val_num 0 ltac:(lia)) as [F0 V0].
  destruct (val_num 1 ltac:(lia)) as [F1 V1].
  destruct (val_num 365 ltac:(lia)) as [F365 V365].
  destruct (val_num 1000 ltac:(lia)) as [F1000 V1000].
  (* occupancy *)
  destruct (pct_frac _ Fo ltac:(lra)) as [Fq Vq].
  set (occupancy := clamp (div (occupancyPct i) (num 100)) (num 0) (num 1)).
  assert (Hocc : finite_nonneg occupancy = true /\ (val occupancy <= 1)%R).
  { destruct (clamp_bounds (div (occupancyPct i) (num 100)) (num 0) (num 1))
      as (_ & _ & [E|[E|[E _]]]); try reflexivity;
      fold occupancy in E; rewrite E; split; try assumption; lra. }
  destruct Hocc as [Focc Vocc].
  (* bedDays *)
  destruct (mul_bounded (beds i) (num 365) 730000 Fb F365 ltac:(lia)) as [Fb1 Vb1].
  { rewrite V365. lra. }
  assert (Hbd : finite_nonneg (bedDays (calc i)) = true
                /\ (val (bedDays (calc i)) <= 730000)%R).
  { rewrite calc_bedDays. fold occupancy.
    apply (mul_bounded _ _ 730000 Fb1 Focc); [lia|].
    pose proof (val_nonneg _ Fb1). pose proof (val_nonneg _ Focc). nra. }
  destruct Hbd as [Fbd Vbd].
  (* vriFromRate *)
  assert (Hrq : finite_nonneg (div (vriPer1000BedDays i) (num 1000)) = true
                /\ (val (div (vriPer1000BedDays i) (num 1000)) <= 1)%R).
  { apply div_frac; try assumption; rewrite V1000; lra. }
  destruct Hrq as [Frq Vrq].
  assert (Hvr : finite_nonneg (vriFromRate (calc i)) = true).
  { rewrite calc_vriFromRate. rewrite mul_comm. apply mul_frac; assumption. }
  (* vri *)
  assert (Hv : finite_nonneg (vri (calc i)) = true).
  { rewrite calc_vri, calc_usedOverride.
    destruct (isFinite (vriPerYearOverride i) && gt (vriPerYearOverride i) (num 0)) eqn:U.
    - apply override_used_finite_nonneg; assumption.
    - exact Hvr. }
  (* the three fractions *)
  destruct (pct_frac _ Fg ltac:(lra)) as [Fqg Vqg].
  destruct (pct_frac _ Fs ltac:(lra)) as [Fqs Vqs].
  destruct (pct_frac _ Fe ltac:(lra)) as [Fqe Vqe].
  assert (Hg : finite_nonneg (gramNeg (calc i)) = true).
  { rewrite calc_gramNeg. apply mul_frac; assumption. }
  assert (Hs : finite_nonneg (sinkGramNeg (calc i)) = true).
  { rewrite calc_sinkGramNeg. apply mul_frac; assumption. }
  assert (Ha : finite_nonneg (avoided (calc i)) = true).
  { rewrite calc_avoided. apply mul_frac; assumption. }
  repeat split; try assumption.
  rewrite calc_savedBedDays. apply mul_Rnn; assumption.
Qed.

(** [savedSEK] is a double that is not negative, possibly [Infinity], or it
    is NaN; NaN arises only in the bed-day mode, from an overflowed
    [savedBedDays] priced at zero. *)
Theorem calc_savedSEK_cases :
  nonneg_ext (savedSEK (calc i)) = true /\ wf (savedSEK (calc i)) = true
  \/ (savedSEK (calc i) = NaN
      /\ String.eqb (pricingMode i) "perVRI" = false
      /\ savedBedDays (calc i) = Infinity
      /\ eq (costPerBedDay i) (num 0) = true).
Proof.
  destruct calc_chain as (_ & _ & _ & _ & _ & Fa & Rsb).
  destruct (Normalized_get i FCostPerBedDay HN) as [Fcb _].
  destruct (Normalized_get i FCostPerVRI HN) as [Fcv _].
  cbn [get] in *.
  rewrite calc_savedSEK.
  destruct (String.eqb (pricingMode i) "perVRI").
  - left. pose proof (mul_Rnn _ _ Fa Fcv) as R.
    split; [apply (Rnn_nonneg_ext _ _ R) | apply (Rnn_wf _ _ R)].
  - destruct Rsb as [[Fsb _]|[E _]].
    + left. pose proof (mul_Rnn _ _ Fsb Fcb) as R.
      split; [apply (Rnn_nonneg_ext _ _ R) | apply (Rnn_wf _ _ R)].
    + rewrite E. fn_cases Fcb.
      * right. repeat split; reflexivity.
      * left. split; reflexivity.
Qed.

Lemma Normalized_opex_capex :
  finite_nonneg (opexYear i) = true /\ finite_nonneg (capex i) = true.
Proof.
  split.
  - apply (Normalized_get i FOpexYear HN).
  - apply (Normalized_get i FCapex HN).
Qed.

End NormalizedInput.

(** ** The payback quotient *)

Lemma div_by_Infinity c :
  finite_nonneg c = true -> exists s, div c Infinity = S754_zero s.
Proof. intros H. fn_cases H; cbn; eexists; reflexivity. Qed.

Lemma le_one_inv d :
  wf d = true -> le (num 1) d = true ->
  d = Infinity \/ (finite_nonneg d = true /\ (1 <= val d)%R).
Proof.
  intros Hw Hle. destruct (val_num 1 ltac:(lia)) as [F1 V1].
  destruct d as [s|s| |s m e].
  - vm_compute in Hle. discriminate.
  - destruct s; [vm_compute in Hle; discriminate | left; reflexivity].
  - vm_compute in Hle. discriminate.
  - destruct s; [vm_compute in Hle; discriminate|].
    right. assert (Fd : finite_nonneg (S754_finite false m e) = true) by exact Hw.
    split; [exact Fd|]. apply (le_val _ _ F1 Fd) in Hle. rewrite V1 in Hle. exact Hle.
Qed.

(** The divisor [max(1, savedSEK - opexYear)] is at least one, so the
    quotient lies between zero and the numerator. *)
Theorem payback_bound c s o :
  finite_nonneg c = true -> nonneg_ext s = true -> wf s = true ->
  finite_nonneg o = true ->
  le (num 1) (Math_max (num 1) (sub s o)) = true
  /\ finite_nonneg (div c (Math_max (num 1) (sub s o))) = true
  /\ (val (div c (Math_max (num 1) (sub s o))) <= val c)%R.
Proof.
  intros Fc Hs Ws Fo.
  assert (Hd : wf (sub s o) = true /\ isNaN (sub s o) = false).
  { unfold nonneg_ext in Hs. apply orb_prop in Hs. destruct Hs as [Fs|Is].
    - apply sub_wf; assumption.
    - destruct s as [|[|]| |]; try discriminate.
      fn_cases Fo; split; reflexivity. }
  destruct Hd as [Wd Nd].
  destruct (Math_max_cases (num 1) (sub s o) (proj2 (num_wf 1)) Nd) as [Hm Hle].
  split; [exact Hle|].
  assert (G : forall m, m = num 1 \/ (m = sub s o /\ le (num 1) (sub s o) = true) ->
              finite_nonneg (div c m) = true /\ (val (div c m) <= val c)%R).
  { intros m [->|[-> L]].
    - rewrite div_one by exact Fc. split; [exact Fc | lra].
    - destruct (le_one_inv _ Wd L) as [->|[Fd Vd]].
      + destruct (div_by_Infinity c Fc) as [t ->].
        split; [reflexivity|]. cbn [val]. apply val_nonneg, Fc.
      + destruct (Rnn_bounded _ _ c (div_Rnn c _ Fc Fd ltac:(lra)) Fc) as (F & _ & B).
        * pose proof (val_nonneg c Fc) as Nc.
          apply (Rmult_le_reg_r (val (sub s o))); [lra|].
          unfold Rdiv. rewrite Rmult_assoc, Rinv_l by lra. nra.
        * split; assumption. }
  apply G. exact Hm.
Qed.

(** ** The normalizer produces normalized inputs *)

Lemma decimal_wf neg m e : wf (decimal neg m e) = true.
Proof.
  unfold decimal. destruct m as [|p|p]; try reflexivity.
  destruct e as [|q|q].
  - apply (Rounded_wf neg (F2R (Zpos (Z.to_pos (Zpos p * 10 ^ 0))) 0)), binary_round_spec.
  - apply (Rounded_wf neg (F2R (Zpos (Z.to_pos (Zpos p * 10 ^ Zpos q))) 0)),
      binary_round_spec.
  - apply (Rounded_wf (xorb neg false)
             (F2R (Zpos p) 0 / F2R (Zpos (Z.to_pos (10 ^ (- Zneg q)))) 0)),
      SFdiv_finite.
Qed.

Lemma radix_literal_wf radix s : wf (radix_literal radix s) = true.
Proof.
  unfold radix_literal. destruct s; [reflexivity|].
  destruct (radix_acc radix _ 0); [apply num_wf | reflexivity].
Qed.

Lemma unsigned_decimal_wf neg s : wf (unsigned_decimal neg s) = true.
Proof.
  unfold unsigned_decimal. destruct (String.eqb s "Infinity"); [reflexivity|].
  destruct (digits s) as [[i ilen] r].
  destruct (fraction_part r i) as [[[f flen] r'] dotted].
  destruct ((0 <? ilen) || (dotted && (0 <? flen))); [|reflexivity].
  destruct (exponent_part r'); [apply decimal_wf | reflexivity].
Qed.

Lemma non_decimal_wf ps t n : non_decimal ps t = Some n -> wf n = true.
Proof.
  induction ps as [|[p radix] ps IH]; cbn [non_decimal]; [discriminate|].
  destruct (strip_prefix p t).
  - intros H. injection H as <-. apply radix_literal_wf.
  - exact IH.
Qed.

Lemma Number_of_string_wf s : wf (Number_of_string s) = true.
Proof.
  unfold Number_of_string. destruct (trim s) as [|c r]; [reflexivity|].
  destruct (non_decimal radix_prefixes (String c r)) eqn:E.
  - apply (non_decimal_wf _ _ _ E).
  - unfold signed_decimal.
    destruct (Ascii.eqb c "+"); [apply unsigned_decimal_wf|].
    destruct (Ascii.eqb c "-"); apply unsigned_decimal_wf.
Qed.

Lemma toNum_wf v : wf_value v = true -> wf (toNum v) = true.
Proof.
  intros H. unfold toNum.
  destruct (isFinite (Number (decimal_text v))); [|reflexivity].
  destruct v as [s|n]; [apply Number_of_string_wf | exact H].
Qed.

Lemma clamp_in_bounds v lo hi :
  wf_value v = true -> le (num lo) (num hi) = true ->
  in_bounds (clamp (toNum v) (num lo) (num hi)) lo hi = true.
Proof.
  intros Hv Hle.
  destruct (clamp_bounds (toNum v) (num lo) (num hi) (proj2 (num_wf lo))
              (proj2 (num_wf hi)) Hle) as (L & U & C).
  unfold in_bounds. rewrite L, U, !andb_true_r.
  destruct C as [->|[->|[-> _]]]; [apply num_wf | apply num_wf | apply toNum_wf, Hv].
Qed.

Theorem parsed_normalized st : wf_state st = true -> Normalized (parsed st) = true.
Proof.
  unfold wf_state. intros H. apply andb_prop in H. destruct H as [Hf Ho].
  rewrite forallb_forall in Hf.
  unfold Normalized. apply andb_true_intro. split; [apply andb_true_intro; split|].
  - apply forallb_forall. intros f Hin. specialize (Hf f Hin).
    destruct f; apply clamp_in_bounds; try exact Hf; reflexivity.
  - cbn [parsed vriPerYearOverride].
    destruct (isFinite (toNum (State.vriPerYearOverride st))); [|reflexivity].
    apply toNum_wf, Ho.
  - cbn [parsed vriPerYearOverride].
    destruct (isFinite (toNum (State.vriPerYearOverride st))) eqn:F.
    + rewrite F. reflexivity.
    + reflexivity.
Qed.

(** ** The normalized fields, one by one *)

Lemma parsed_get st f :
  get f (parsed st)
  = clamp (toNum (raw_of f st)) (num (field_lo f)) (num (field_hi f)).
Proof. destruct f; reflexivity. Qed.

Lemma bounds_ordered f : le (num (field_lo f)) (num (field_hi f)) = true.
Proof. destruct f; reflexivity. Qed.

(** ** The payback period on normalized inputs *)

Lemma payback_defined i :
  Normalized i = true ->
  gt (savedSEK (calc i)) (opexYear i) = true ->
  finite_nonneg (paybackYears (calc i)) = true
  /\ (val (paybackYears (calc i)) <= val (capex i))%R
  /\ le (num 1) (Math_max (num 1) (sub (savedSEK (calc i)) (opexYear i))) = true.
Proof.
  intros HN G. destruct (Normalized_opex_capex i HN) as [Fo Fc].
  rewrite calc_paybackYears, G.
  destruct (calc_savedSEK_cases i HN) as [[Hs Ws]|[E _]].
  - destruct (payback_bound (capex i) _ (opexYear i) Fc Hs Ws Fo) as (L & F & V).
    split; [exact F|]. split; [exact V | exact L].
  - rewrite E in G. unfold gt, SFltb in G.
    destruct (opexYear i); discriminate.
Qed.

Lemma le_Infinity_l x : finite_nonneg x = true -> le Infinity x = false.
Proof. intros H. fn_cases H; reflexivity. Qed.

(** ** The advisory list as a filter *)

Lemma push_if_app c msg notes :
  push_if c msg notes = notes ++ (if c then [msg] else []).
Proof. destruct c; cbn [push_if]; [reflexivity | symmetry; apply app_nil_r]. Qed.

Lemma filter_In_fired (l : list (bool * string)) :
  NoDup (map snd l) ->
  forall c m, In (c, m) l -> (In m (map snd (filter fst l)) <-> c = true).
Proof.
  induction l as [|[c0 m0] l IH]; intros ND c m Hin; [contradiction|].
  cbn [map snd] in ND. apply NoDup_cons_iff in ND. destruct ND as [Nin ND].
  assert (Sub : forall x, In x (map snd (filter fst l)) -> In x (map snd l)).
  { intros x Hx. apply in_map_iff in Hx. destruct Hx as (y & <- & Hy).
    apply filter_In in Hy. apply in_map, Hy. }
  destruct Hin as [E|Hin].
  - injection E as -> ->. cbn [filter fst]. destruct c; cbn [map snd].
    + split; [reflexivity | left; reflexivity].
    + split; [|discriminate]. intros H. exfalso. apply Nin, Sub, H.
  - assert (Nm : m0 <> m).
    { intros ->. apply Nin. change m with (snd (c, m)). apply in_map, Hin. }
    rewrite <- (IH ND c m Hin). cbn [filter fst]. destruct c0; cbn [map snd].
    + split; [intros [H|H]; [contradiction | exact H] | right; assumption].
    + reflexivity.
Qed.

Lemma notes_distinct p r : NoDup (map snd (rules p r)).
Proof.
  assert (D : forall a b : string, String.eqb a b = false -> a <> b).
  { intros a b H E. apply String.eqb_eq in E. congruence. }
  cbn [rules map snd].
  repeat (apply NoDup_cons; [cbn [In]; intros H;
    repeat (destruct H as [H|H]; [revert H; apply D; reflexivity|]); exact H|]).
  apply NoDup_nil.
Qed.

(** ** [===] on one value, and the NaN of [savedSEK] *)

Lemma eq_refl_num a : isNaN a = false -> eq a a = true.
Proof. intros H. unfold eq, SFeqb. rewrite SFcompare_refl by exact H. reflexivity. Qed.




(** ** The pricing mode of the states the page can hold *)

Lemma step_pricingMode st ev :
  State.pricingMode st = "bedDays"%string \/ State.pricingMode st = "perVRI"%string ->
  State.pricingMode (step st ev) = "bedDays"%string
  \/ State.pricingMode (step st ev) = "perVRI"%string.
Proof.
  intros H. destruct ev; cbn [step set_raw set_override set_mode State.pricingMode];
    try exact H.
  - left. reflexivity.
  - left. reflexivity.
  - right. reflexivity.
Qed.

Lemma run_pricingMode evs :
  State.pricingMode (run evs) = "bedDays"%string
  \/ State.pricingMode (run evs) = "perVRI"%string.
Proof.
  unfold run.
  assert (G : forall st,
             State.pricingMode st = "bedDays"%string
             \/ State.pricingMode st = "perVRI"%string ->
             State.pricingMode (fold_left step evs st) = "bedDays"%string
             \/ State.pricingMode (fold_left step evs st) = "perVRI"%string).
  { induction evs as [|ev evs IH]; intros st H; [exact H|].
    cbn [fold_left]. apply IH, step_pricingMode, H. }
  apply G. left. reflexivity.
Qed.

(** * The claims of the specification *)

(** ** C1: precedence of the override *)

(** C1.  On a normalized input, a finite and strictly positive
    [vriPerYearOverride] is returned as [vri] with [usedOverride = true],
    whatever [vriPer1000BedDays] is; an override that is NaN, zero or
    negative gives [vri = vriFromRate] and [usedOverride = false].  The two
    cases cover every normalized input, and [vri] equals the value named
    both as the same double and under [===]. *)
Theorem C1_override_precedence (i : CalcInput) :
  Normalized i = true ->
  let o := vriPerYearOverride i in
  (isFinite o = true -> gt o (num 0) = true ->
     vri (calc i) = o /\ eq (vri (calc i)) o = true
     /\ usedOverride (calc i) = true
     /\ forall rate,
          vri (calc (set_vriPer1000BedDays i rate)) = o
          /\ usedOverride (calc (set_vriPer1000BedDays i rate)) = true)
  /\ (isNaN o = true \/ le o (num 0) = true ->
     vri (calc i) = vriFromRate (calc i)
     /\ eq (vri (calc i)) (vriFromRate (calc i)) = true
     /\ usedOverride (calc i) = false)
  /\ ((isFinite o = true /\ gt o (num 0) = true)
      \/ (isNaN o = true \/ le o (num 0) = true)).
Proof.
  intros HN o.
  destruct (calc_chain i HN) as (_ & Fvr & _).
  destruct (Normalized_override i HN) as [Wo Ho]. fold o in Wo, Ho.
  split; [|split].
  - intros Hf Hg.
    assert (U : forall j, vriPerYearOverride j = o ->
                  vri (calc j) = o /\ usedOverride (calc j) = true).
    { intros j Ej. rewrite calc_vri, calc_usedOverride, Ej, Hf, Hg. split; reflexivity. }
    destruct (U i eq_refl) as [E1 E2].
    split; [exact E1|]. split; [|split; [exact E2|]].
    + rewrite E1. unfold eq, SFeqb. rewrite SFcompare_refl; [reflexivity|].
      apply isFinite_not_nan, Hf.
    + intros rate. apply U. reflexivity.
  - intros Hc.
    assert (G : gt o (num 0) = false).
    { apply gt_false_iff; [reflexivity|]. destruct Hc; [right|left]; assumption. }
    assert (U : usedOverride (calc i) = false).
    { rewrite calc_usedOverride. fold o. rewrite G. apply andb_false_r. }
    assert (E : vri (calc i) = vriFromRate (calc i)).
    { rewrite calc_vri, U. reflexivity. }
    split; [exact E|]. split; [|exact U].
    rewrite E. unfold eq, SFeqb. rewrite SFcompare_refl; [reflexivity|].
    apply isFinite_not_nan, finite_nonneg_finite, Fvr.
  - destruct Ho as [Hf|Hn].
    + destruct (gt o (num 0)) eqn:G.
      * left. split; [exact Hf | reflexivity].
      * right. apply gt_false_iff in G; [|reflexivity].
        destruct G; [right|left]; assumption.
    + right. left. rewrite Hn. reflexivity.
Qed.

Lemma C1_witness :
  Normalized (parsed defaults) = true
  /\ usedOverride (calc (parsed defaults)) = false.
Proof.
  split; [vm_compute; reflexivity|].
  destruct (C1_override_precedence (parsed defaults)) as (_ & H & _).
  - vm_compute; reflexivity.
  - apply H. right. vm_compute; reflexivity.
Defined.

(** ** C2: clamping *)

(** C2.  For every form state and every clamped field with bounds
    [lo, hi] of the table, the normalized field lies in [lo, hi]; when the
    raw value, after removing white space and turning the decimal comma
    into a point, converts to NaN, the normalized field is exactly [lo]. *)
Theorem C2_clamping (st : StateType) (f : field) :
  le (num (field_lo f)) (get f (parsed st)) = true
  /\ le (get f (parsed st)) (num (field_hi f)) = true
  /\ (isNaN (Number (decimal_text (raw_of f st))) = true ->
      get f (parsed st) = num (field_lo f)).
Proof.
  rewrite parsed_get.
  destruct (clamp_bounds (toNum (raw_of f st)) (num (field_lo f)) (num (field_hi f))
              (proj2 (num_wf _)) (proj2 (num_wf _)) (bounds_ordered f)) as (L & U & _).
  split; [exact L|]. split; [exact U|].
  intros Hn. apply clamp_nan. rewrite toNum_nan; [reflexivity|].
  destruct (Number (decimal_text (raw_of f st))); try discriminate. reflexivity.
Qed.

Lemma C2_witness :
  isNaN (Number (decimal_text (raw_of FBeds st_garbled))) = true
  /\ get FBeds (parsed st_garbled) = num (field_lo FBeds).
Proof.
  split; [vm_compute; reflexivity|].
  apply (proj2 (proj2 (C2_clamping st_garbled FBeds))).
  vm_compute; reflexivity.
Defined.

(** ** C3: where the payback period is undefined *)

(** C3, as stated, fails: on the normalized input of the extreme state
    with the effect at 100, [savedBedDays] overflows to [Infinity], priced
    at zero it makes [savedSEK] NaN, and [paybackYears] is NaN although
    [savedSEK <= opexYear] is false. *)
Lemma C3_counterexample :
  let i := parsed (st_extreme "100") in
  Normalized i = true
  /\ isNaN (paybackYears (calc i)) = true
  /\ le (savedSEK (calc i)) (opexYear i) = false
  /\ savedSEK (calc i) = NaN.
Proof. vm_compute. repeat split; reflexivity. Qed.

(** C3, amended.  On a normalized input [paybackYears] is NaN exactly when
    [savedSEK <= opexYear] or [savedSEK] is NaN, that is exactly when
    [savedSEK > opexYear] is false; [savedSEK] is NaN only in the bed-day
    mode, when [savedBedDays] has overflowed to [Infinity] and
    [costPerBedDay] is zero.  When [savedSEK] exceeds [opexYear] and their
    difference is exactly 1, [paybackYears] is [capex]. *)
Theorem C3_payback_boundary (i : CalcInput) :
  Normalized i = true ->
  (isNaN (paybackYears (calc i)) = true
   <-> le (savedSEK (calc i)) (opexYear i) = true
       \/ isNaN (savedSEK (calc i)) = true)
  /\ (le (savedSEK (calc i)) (opexYear i) = true -> paybackYears (calc i) = NaN)
  /\ (isNaN (savedSEK (calc i)) = true ->
      String.eqb (pricingMode i) "perVRI" = false
      /\ savedBedDays (calc i) = Infinity
      /\ eq (costPerBedDay i) (num 0) = true)
  /\ (gt (savedSEK (calc i)) (opexYear i) = true ->
      eq (sub (savedSEK (calc i)) (opexYear i)) (num 1) = true ->
      paybackYears (calc i) = capex i).
Proof.
  intros HN. destruct (Normalized_opex_capex i HN) as [Fo Fc].
  assert (No : isNaN (opexYear i) = false)
    by (apply isFinite_not_nan, finite_nonneg_finite, Fo).
  pose proof (gt_false_iff (savedSEK (calc i)) (opexYear i) No) as GF.
  split; [|split; [|split]].
  - rewrite <- GF. destruct (gt (savedSEK (calc i)) (opexYear i)) eqn:G.
    + destruct (payback_defined i HN G) as (F & _).
      apply finite_nonneg_finite, isFinite_not_nan in F. rewrite F.
      split; discriminate.
    + rewrite calc_paybackYears, G. split; reflexivity.
  - intros L. rewrite calc_paybackYears.
    rewrite (proj2 GF (or_introl L)). reflexivity.
  - intros Hn. destruct (calc_savedSEK_cases i HN) as [[Hs Ws]|(E & M & S & C)].
    + exfalso. unfold nonneg_ext in Hs.
      destruct (savedSEK (calc i)) as [| | |[|]]; discriminate.
    + repeat split; assumption.
  - intros G H1.
    change (num 1) with (S754_finite false 4503599627370496 (-52)) in H1.
    apply eq_finite_inv in H1.
    rewrite calc_paybackYears, G, H1.
    change (Math_max (num 1) (S754_finite false 4503599627370496 (-52))) with (num 1).
    apply div_one, Fc.
Qed.

Lemma C3_witness :
  (Normalized (parsed defaults) = true
   /\ le (savedSEK (calc (parsed defaults))) (opexYear (parsed defaults)) = true
   /\ paybackYears (calc (parsed defaults)) = NaN)
  /\ (Normalized (parsed st_margin_one) = true
      /\ gt (savedSEK (calc (parsed st_margin_one)))
            (opexYear (parsed st_margin_one)) = true
      /\ eq (sub (savedSEK (calc (parsed st_margin_one)))
                 (opexYear (parsed st_margin_one))) (num 1) = true
      /\ paybackYears (calc (parsed st_margin_one)) = capex (parsed st_margin_one)).
Proof.
  split.
  - split; [vm_compute; reflexivity|]. split; [vm_compute; reflexivity|].
    destruct (C3_payback_boundary (parsed defaults)) as (_ & H & _).
    + vm_compute; reflexivity.
    + apply H. vm_compute; reflexivity.
  - split; [vm_compute; reflexivity|]. split; [vm_compute; reflexivity|].
    split; [vm_compute; reflexivity|].
    destruct (C3_payback_boundary (parsed st_margin_one)) as (_ & _ & _ & H).
    + vm_compute; reflexivity.
    + apply H; vm_compute; reflexivity.
Defined.

(** ** C4: finiteness after normalization *)

(** C4, as stated, fails: the normalized [vriPerYearOverride] of a state
    whose override text is no number is NaN, which is not finite. *)
Lemma C4_counterexample :
  wf_state st_bad_override = true
  /\ State.pricingMode st_bad_override = "bedDays"%string
  /\ vriPerYearOverride (parsed st_bad_override) = NaN
  /\ isFinite (vriPerYearOverride (parsed st_bad_override)) = false.
Proof. vm_compute. repeat split; reflexivity. Qed.

(** C4, amended.  For every form state, each of the thirteen clamped
    fields of the normalized input is finite.  [vriPerYearOverride] is the
    converted raw value when that is finite and NaN when it is not, hence
    finite or NaN and never infinite.  [pricingMode] is the one of the
    state, unchanged; the field is a plain string, and in every state the
    page can hold (the defaults followed by any calls of [setState]) it is
    one of the two modes. *)
Theorem C4_normalized_finite (st : StateType) :
  (forall f, isFinite (get f (parsed st)) = true)
  /\ (isFinite (toNum (State.vriPerYearOverride st)) = true ->
      vriPerYearOverride (parsed st) = toNum (State.vriPerYearOverride st))
  /\ (isFinite (toNum (State.vriPerYearOverride st)) = false ->
      vriPerYearOverride (parsed st) = NaN)
  /\ (isFinite (vriPerYearOverride (parsed st)) = true
      \/ vriPerYearOverride (parsed st) = NaN)
  /\ pricingMode (parsed st) = State.pricingMode st
  /\ (forall evs,
        pricingMode (parsed (run evs)) = "bedDays"%string
        \/ pricingMode (parsed (run evs)) = "perVRI"%string).
Proof.
  split; [|split; [|split; [|split; [|split]]]].
  - intros f. rewrite parsed_get. apply clamp_toNum_finite.
    + destruct f; reflexivity.
    + destruct f; reflexivity.
    + apply bounds_ordered.
  - intros F. cbn [parsed vriPerYearOverride]. rewrite F. reflexivity.
  - intros F. cbn [parsed vriPerYearOverride]. rewrite F. reflexivity.
  - cbn [parsed vriPerYearOverride].
    destruct (isFinite (toNum (State.vriPerYearOverride st))) eqn:F;
      [left; exact F | right; reflexivity].
  - reflexivity.
  - intros evs. change (pricingMode (parsed (run evs))) with (State.pricingMode (run evs)).
    apply run_pricingMode.
Qed.

Lemma C4_witness :
  isFinite (toNum (State.vriPerYearOverride st_bad_override)) = false
  /\ vriPerYearOverride (parsed st_bad_override) = NaN.
Proof.
  split; [reflexivity|].
  apply (proj1 (proj2 (proj2 (C4_normalized_finite st_bad_override)))).
  reflexivity.
Defined.

(** ** C5: the default scenario *)

(** C5, as stated, fails on the default parameter set: [bedDays] is not
    8056.8 (it exceeds 8059), [vri] is not 48.34 (it exceeds 48.35),
    [savedSEK] is not 10152 (it exceeds 10154) and [net] is not -84848 (it
    exceeds -84846). *)
Lemma C5_counterexample :
  let r := calc (parsed defaults) in
  eq (bedDays r) (Number_of_string "8056.8") = false
  /\ gt (bedDays r) (num 8059) = true
  /\ eq (vri r) (Number_of_string "48.34") = false
  /\ gt (vri r) (Number_of_string "48.35") = true
  /\ eq (savedSEK r) (num 10152) = false
  /\ gt (savedSEK r) (num 10154) = true
  /\ eq (net r) (Number_of_string "-84848") = false
  /\ gt (net r) (Number_of_string "-84846") = true.
Proof. vm_compute. repeat split; reflexivity. Qed.

(** C5, amended.  On the default parameter set [calc] returns
    bedDays = 8059.2, vri = 48.3552, gramNeg = 16.92432,
    sinkGramNeg = 1.692432, avoided = 0.1692432, savedBedDays = 0.846216,
    savedSEK = 10154.592, annualCost = 95000, net = -84845.408 and
    paybackYears = NaN; each value is the double whose shortest decimal
    form is given below, the last digits being the rounding of binary64. *)
Theorem C5_default_scenario :
  let r := calc (parsed defaults) in
  bedDays r = Number_of_string "8059.200000000001"
  /\ vri r = Number_of_string "48.3552"
  /\ gramNeg r = Number_of_string "16.92432"
  /\ sinkGramNeg r = Number_of_string "1.6924320000000002"
  /\ avoided r = Number_of_string "0.16924320000000004"
  /\ savedBedDays r = Number_of_string "0.8462160000000002"
  /\ savedSEK r = Number_of_string "10154.592000000002"
  /\ annualCost r = num 95000
  /\ net r = Number_of_string "-84845.408"
  /\ paybackYears r = NaN
  /\ le (savedSEK r) (opexYear (parsed defaults)) = true.
Proof. vm_compute. repeat split; reflexivity. Qed.

(** ** C6: one pricing branch *)




(** ** C7: monotonicity in the effect *)

(** C7, as stated, fails: the two normalized inputs of the extreme state
    differ in [effectPct] only, 0 against 100, and the larger effect turns
    [savedSEK] from 0 into NaN, which is not greater than or equal to 0. *)
Lemma C7_counterexample :
  let i1 := parsed (st_extreme "0") in
  let i2 := parsed (st_extreme "100") in
  Normalized i1 = true /\ Normalized i2 = true
  /\ i2 = set_effectPct i1 (effectPct i2)
  /\ le (effectPct i1) (effectPct i2) = true
  /\ savedSEK (calc i1) = pos_zero
  /\ savedSEK (calc i2) = NaN
  /\ ge (savedSEK (calc i2)) (savedSEK (calc i1)) = false.
Proof. vm_compute. repeat split; reflexivity. Qed.

(** C7, amended.  For two normalized inputs that differ in [effectPct]
    only, the second having the larger or equal effect, [avoided] and
    [savedBedDays] of the second are greater than or equal to those of the
    first, and so is [savedSEK] whenever [savedSEK] of the second is not
    NaN; it is NaN only in the bed-day mode, when [savedBedDays] has
    overflowed to [Infinity] and [costPerBedDay] is zero. *)
Theorem C7_effect_monotone (i1 i2 : CalcInput) :
  Normalized i1 = true -> Normalized i2 = true ->
  i2 = set_effectPct i1 (effectPct i2) ->
  le (effectPct i1) (effectPct i2) = true ->
  ge (avoided (calc i2)) (avoided (calc i1)) = true
  /\ ge (savedBedDays (calc i2)) (savedBedDays (calc i1)) = true
  /\ (isNaN (savedSEK (calc i2)) = false ->
      ge (savedSEK (calc i2)) (savedSEK (calc i1)) = true)
  /\ (isNaN (savedSEK (calc i2)) = true ->
      String.eqb (pricingMode i2) "perVRI" = false
      /\ savedBedDays (calc i2) = Infinity
      /\ eq (costPerBedDay i2) (num 0) = true).
Proof.
  intros HN1 HN2 Ei Hle. unfold ge.
  destruct (calc_chain i1 HN1) as (_ & _ & _ & _ & Fs1 & Fa1 & Rb1).
  destruct (calc_chain i2 HN2) as (_ & _ & _ & _ & _ & Fa2 & Rb2).
  destruct (Normalized_get i1 FEffectPct HN1) as [Fe1 _].
  destruct (Normalized_get i2 FEffectPct HN2) as [Fe2 _].
  destruct (Normalized_get i1 FExtraDaysPerVRI HN1) as [Fx _].
  destruct (Normalized_get i1 FCostPerBedDay HN1) as [Fcb _].
  destruct (Normalized_get i1 FCostPerVRI HN1) as [Fcv _].
  cbn [get] in *.
  destruct (val_num 100 ltac:(lia)) as [F100 V100].
  assert (Es : sinkGramNeg (calc i2) = sinkGramNeg (calc i1)) by (rewrite Ei; reflexivity).
  assert (Ex : extraDaysPerVRI i2 = extraDaysPerVRI i1) by (rewrite Ei; reflexivity).
  assert (Eb : costPerBedDay i2 = costPerBedDay i1) by (rewrite Ei; reflexivity).
  assert (Ev : costPerVRI i2 = costPerVRI i1) by (rewrite Ei; reflexivity).
  assert (Em : pricingMode i2 = pricingMode i1) by (rewrite Ei; reflexivity).
  assert (Q : le (div (effectPct i1) (num 100)) (div (effectPct i2) (num 100)) = true).
  { apply div_le_mono; try assumption. rewrite V100. lra. }
  assert (Fq : forall j, Normalized j = true ->
                 finite_nonneg (div (effectPct j) (num 100)) = true).
  { intros j HN. destruct (Normalized_get j FEffectPct HN) as [F V].
    cbn [get field_hi] in *. apply pct_frac; [exact F | lra]. }
  assert (A : le (avoided (calc i1)) (avoided (calc i2)) = true).
  { rewrite !calc_avoided, Es. apply mul_le_mono_l; auto. }
  assert (B : le (savedBedDays (calc i1)) (savedBedDays (calc i2)) = true).
  { rewrite !calc_savedBedDays, Ex. apply mul_le_mono_r; assumption. }
  split; [exact A|]. split; [exact B|]. split.
  - rewrite !calc_savedSEK, Em, Eb, Ev.
    destruct (String.eqb (pricingMode i1) "perVRI").
    + intros _. apply mul_le_mono_r; assumption.
    + rewrite Ex in Rb2. intros Hn.
      destruct Rb2 as [[F2 _]|[E2 _]].
      * destruct Rb1 as [[F1 _]|[E1 _]].
        -- apply mul_le_mono_r; assumption.
        -- rewrite E1, (le_Infinity_l _ F2) in B. discriminate.
      * rewrite E2 in Hn |- *.
        assert (I2 : mul Infinity (costPerBedDay i1) = Infinity).
        { revert Hn. fn_cases Fcb; cbn; [discriminate | reflexivity]. }
        rewrite I2. apply le_Infinity.
        destruct Rb1 as [[F1 _]|[E1 _]].
        -- apply (Rnn_nonneg_ext _ _ (mul_Rnn _ _ F1 Fcb)).
        -- rewrite E1, I2. reflexivity.
  - intros Hn. destruct (calc_savedSEK_cases i2 HN2) as [[Hs Ws]|(E & M & S & C)].
    + exfalso. unfold nonneg_ext in Hs.
      destruct (savedSEK (calc i2)) as [| | |[|]]; discriminate.
    + repeat split; assumption.
Qed.

Lemma C7_witness :
  Normalized (parsed (st_effect 10)) = true
  /\ Normalized (parsed (st_effect 20)) = true
  /\ le (effectPct (parsed (st_effect 10))) (effectPct (parsed (st_effect 20))) = true
  /\ ge (avoided (calc (parsed (st_effect 20))))
        (avoided (calc (parsed (st_effect 10)))) = true.
Proof.
  split; [vm_compute; reflexivity|]. split; [vm_compute; reflexivity|].
  split; [vm_compute; reflexivity|].
  destruct (C7_effect_monotone (parsed (st_effect 10)) (parsed (st_effect 20)))
    as (H & _).
  - vm_compute; reflexivity.
  - vm_compute; reflexivity.
  - vm_compute; reflexivity.
  - vm_compute; reflexivity.
  - exact H.
Defined.

(** ** C8: the advisory rules *)

(** C8.  The advisory evaluator returns exactly the messages of the rules
    whose conditions hold, in the declaration order of the five rules; a
    rule's message is present if and only if its own condition holds, so no
    rule suppresses another.  With [vriPer1000BedDays = 0] and no override
    in use the zero-infection advisory is present, and with
    [sinkAttributablePct = 3] the low-attribution advisory is present. *)
Theorem C8_advisories (p : CalcInput) (r : CalcResult) :
  safetyNotes p r = evaluate p r
  /\ (forall c m, In (c, m) (rules p r) -> (In m (safetyNotes p r) <-> c = true))
  /\ (eq (vriPer1000BedDays p) (num 0) = true -> usedOverride r = false ->
      In note_zero_rate (safetyNotes p r))
  /\ (eq (sinkAttributablePct p) (num 3) = true ->
      In note_low_sink (safetyNotes p r)).
Proof.
  assert (E : safetyNotes p r = evaluate p r).
  { unfold safetyNotes, evaluate, rules. rewrite !push_if_app. cbn [app filter fst].
    destruct (negb (usedOverride r) && eq (vriPer1000BedDays p) (num 0));
    destruct (le (sinkAttributablePct p) (num 5));
    destruct (le (effectPct p) (num 5));
    destruct (String.eqb (pricingMode p) "bedDays" && eq (costPerBedDay p) (num 0));
    destruct (String.eqb (pricingMode p) "perVRI" && eq (costPerVRI p) (num 0));
    reflexivity. }
  assert (F : forall c m, In (c, m) (rules p r) -> (In m (safetyNotes p r) <-> c = true)).
  { intros c m Hin. rewrite E. apply filter_In_fired; [apply notes_distinct | exact Hin]. }
  split; [exact E|]. split; [exact F|]. split.
  - intros Hz Hu.
    apply (F (negb (usedOverride r) && eq (vriPer1000BedDays p) (num 0))).
    + cbn [rules In]. left. reflexivity.
    + rewrite Hu, Hz. reflexivity.
  - intros H3. apply (F (le (sinkAttributablePct p) (num 5))).
    + cbn [rules In]. right. left. reflexivity.
    + change (num 3) with (S754_finite false 6755399441055744 (-51)) in H3.
      apply eq_finite_inv in H3. rewrite H3. reflexivity.
Qed.

Lemma C8_witness :
  eq (vriPer1000BedDays (parsed (blank_state "bedDays"))) (num 0) = true
  /\ usedOverride (calc (parsed (blank_state "bedDays"))) = false
  /\ In note_zero_rate
        (safetyNotes (parsed (blank_state "bedDays"))
                     (calc (parsed (blank_state "bedDays")))).
Proof.
  split; [vm_compute; reflexivity|]. split; [vm_compute; reflexivity|].
  apply (proj1 (proj2 (proj2 (C8_advisories (parsed (blank_state "bedDays"))
                                (calc (parsed (blank_state "bedDays"))))))).
  - vm_compute; reflexivity.
  - vm_compute; reflexivity.
Defined.

(** The first example of C8 on a form state: the rate normalizes to zero
    and the override field is blank. *)
Lemma advisory_zero_rate_blank_override (st : StateType) :
  State.vriPerYearOverride st = VStr "" ->
  eq (vriPer1000BedDays (parsed st)) (num 0) = true ->
  In note_zero_rate (safetyNotes (parsed st) (calc (parsed st))).
Proof.
  intros Ho Hz.
  assert (E : vriPerYearOverride (parsed st) = pos_zero).
  { cbn [parsed vriPerYearOverride]. rewrite Ho. reflexivity. }
  assert (U : usedOverride (calc (parsed st)) = false).
  { rewrite calc_usedOverride, E. reflexivity. }
  unfold safetyNotes. rewrite !push_if_app, U, Hz. cbn [negb andb app].
  left. reflexivity.
Qed.

(** ** C9: the range of a defined payback period *)

(** C9.  On a normalized input, a finite [paybackYears] lies between [0]
    and [capex]: the divisor [max(1, savedSEK - opexYear)] is at least [1]
    and [capex] is not negative. *)
Theorem C9_payback_range (i : CalcInput) :
  Normalized i = true ->
  isFinite (paybackYears (calc i)) = true ->
  le (num 0) (paybackYears (calc i)) = true
  /\ le (paybackYears (calc i)) (capex i) = true
  /\ le (num 1) (Math_max (num 1) (sub (savedSEK (calc i)) (opexYear i))) = true
  /\ le (num 0) (capex i) = true.
Proof.
  intros HN Hf. destruct (Normalized_opex_capex i HN) as [Fo Fc].
  destruct (val_num 0 ltac:(lia)) as [F0 V0].
  assert (G : gt (savedSEK (calc i)) (opexYear i) = true).
  { destruct (gt (savedSEK (calc i)) (opexYear i)) eqn:G; [reflexivity|].
    rewrite calc_paybackYears, G in Hf. discriminate. }
  destruct (payback_defined i HN G) as (F & V & L).
  split; [|split; [|split]].
  - apply (le_val _ _ F0 F). rewrite V0. apply val_nonneg, F.
  - apply (le_val _ _ F Fc). exact V.
  - exact L.
  - apply (le_val _ _ F0 Fc). rewrite V0. apply val_nonneg, Fc.
Qed.

Lemma C9_witness :
  Normalized (parsed (st_effect 100)) = true
  /\ isFinite (paybackYears (calc (parsed (st_effect 100)))) = true
  /\ le (paybackYears (calc (parsed (st_effect 100))))
        (capex (parsed (st_effect 100))) = true.
Proof.
  split; [vm_compute; reflexivity|]. split; [vm_compute; reflexivity|].
  destruct (C9_payback_range (parsed (st_effect 100))) as (_ & H & _).
  - vm_compute; reflexivity.
  - vm_compute; reflexivity.
  - exact H.
Defined.

(** ** C10: blank fields *)

(** C10.  The empty text converts to the number [+0], not to NaN.  A blank
    clamped field therefore normalizes to [max(lo, 0)]: [0] for every field
    but [capexAmortYears], which becomes [1].  A blank override normalizes
    to [0], the normalized input is the same as with an explicit [0]
    (typed or numeric), and the engine then takes the rate path with
    [usedOverride = false]. *)
Theorem C10_blank_fields :
  Number (decimal_text (VStr "")) = pos_zero
  /\ toNum (VStr "") = pos_zero
  /\ (forall st f, raw_of f st = VStr "" ->
        get f (parsed st) = Math_max (num (field_lo f)) pos_zero
        /\ get f (parsed st)
           = match f with FCapexAmortYears => num 1 | _ => pos_zero end)
  /\ (forall st, State.vriPerYearOverride st = VStr "" ->
        vriPerYearOverride (parsed st) = pos_zero)
  /\ (forall st,
        parsed (set_override st (VStr "")) = parsed (set_override st (VStr "0"))
        /\ parsed (set_override st (VStr ""))
           = parsed (set_override st (VNum (num 0))))
  /\ (forall i, vriPerYearOverride i = pos_zero ->
        usedOverride (calc i) = false /\ vri (calc i) = vriFromRate (calc i)).
Proof.
  split; [reflexivity|]. split; [reflexivity|]. split; [|split; [|split]].
  - intros st f H. rewrite parsed_get, H. destruct f; split; reflexivity.
  - intros st H. cbn [parsed vriPerYearOverride]. rewrite H. reflexivity.
  - intros st. split; reflexivity.
  - intros i H.
    assert (U : usedOverride (calc i) = false) by (rewrite calc_usedOverride, H; reflexivity).
    split; [exact U|]. rewrite calc_vri, U. reflexivity.
Qed.

Lemma C10_witness :
  raw_of FCapexAmortYears (blank_state "bedDays") = VStr ""
  /\ capexAmortYears (parsed (blank_state "bedDays")) = num 1
  /\ vriPerYearOverride (parsed (blank_state "bedDays")) = pos_zero
  /\ usedOverride (calc (parsed (blank_state "bedDays"))) = false.
Proof.
  destruct C10_blank_fields as (_ & _ & Hf & Ho & _ & Hc).
  split; [reflexivity|]. split; [|split].
  - apply (proj2 (Hf (blank_state "bedDays") FCapexAmortYears eq_refl)).
  - apply Ho. reflexivity.
  - apply Hc. apply Ho. reflexivity.
Defined.

(** * Further properties of the page *)

(** ** [clamp] on its own *)

Lemma SFcompare_Eq_inv a b :
  SFcompare a b = Some Eq ->
  a = b \/ (exists s t, a = S754_zero s /\ b = S754_zero t).
Proof.
  destruct a as [s|s| |s m e]; destruct b as [t|t| |t n f]; cbn [SFcompare];
    try discriminate; try (destruct s; discriminate); try (destruct t; discriminate).
  - intros _. right. exists s, t. split; reflexivity.
  - destruct s, t; try discriminate; intros _; left; reflexivity.
  - destruct s, t; try discriminate;
      (destruct (Z.compare_spec e f) as [E|L|G]; try discriminate);
      rewrite Pos.compare_cont_spec; cbn [Pos.switch_Eq];
      (destruct (Pos.compare_spec m n) as [E'|L|G]; try discriminate);
      intros _; subst; left; reflexivity.
Qed.

Lemma SFcompare_Eq_l a b c :
  SFcompare a b = Some Eq -> SFcompare a c = SFcompare b c.
Proof.
  intros H. destruct (SFcompare_Eq_inv a b H) as [->|(s & t & -> & ->)];
    [reflexivity|]. destruct c; reflexivity.
Qed.

Lemma le_lt_or_eq a b : le a b = true -> lt a b = true \/ eq a b = true.
Proof.
  unfold le, lt, eq, SFleb, SFltb, SFeqb.
  destruct (SFcompare a b) as [[| |]|]; try discriminate; intros _;
    [right | left]; reflexivity.
Qed.

Lemma eq_sym a b : eq a b = true -> eq b a = true.
Proof.
  unfold eq, SFeqb. rewrite (SFcompare_antisym a b).
  destruct (SFcompare a b) as [[| |]|]; try discriminate. reflexivity.
Qed.

Lemma eq_trans a b c : eq a b = true -> eq b c = true -> eq a c = true.
Proof.
  unfold eq, SFeqb. intros H1 H2.
  destruct (SFcompare a b) as [[| |]|] eqn:C; try discriminate.
  rewrite (SFcompare_Eq_l a b c C). exact H2.
Qed.

Lemma lt_irrefl_sym a b : lt a b = true -> lt b a = false.
Proof.
  unfold lt, SFltb. rewrite (SFcompare_antisym a b).
  destruct (SFcompare a b) as [[| |]|]; try discriminate. reflexivity.
Qed.

Lemma Math_max_in_range lo n : le lo n = true -> eq (Math_max lo n) n = true.
Proof.
  intros H. destruct (le_not_nan _ _ H) as [Nlo Nn].
  unfold Math_max. rewrite Nlo, Nn. cbn [orb].
  assert (G : eq (if lt lo n then n else lo) n = true).
  { destruct (le_lt_or_eq _ _ H) as [L|E].
    - rewrite L. apply eq_refl_num, Nn.
    - destruct (lt lo n); [apply eq_refl_num, Nn | exact E]. }
  destruct lo as [[|]| | |]; try exact G; destruct n as [[|]| | |]; exact G.
Qed.

Lemma Math_min_in_range hi m : le m hi = true -> eq (Math_min hi m) m = true.
Proof.
  intros H. destruct (le_not_nan _ _ H) as [Nm Nhi].
  unfold Math_min. rewrite Nm, Nhi. cbn [orb].
  assert (G : eq (if lt m hi then m else hi) m = true).
  { destruct (le_lt_or_eq _ _ H) as [L|E].
    - rewrite L. apply eq_refl_num, Nm.
    - destruct (lt m hi); [apply eq_refl_num, Nm | apply eq_sym, E]. }
  destruct hi as [[|]| | |]; try exact G; destruct m as [[|]| | |]; exact G.
Qed.

(** X1.  A number within the bounds passes through [clamp] unchanged: the
    result is [===] to the argument, and it is the very same double unless
    the argument is a zero (a [-0] within [[+0, hi]] comes out as [+0]). *)
Theorem clamp_in_range (n lo hi : number) :
  le lo n = true -> le n hi = true ->
  eq (clamp n lo hi) n = true
  /\ (clamp n lo hi = n \/ exists s, n = S754_zero s).
Proof.
  intros Hlo Hhi. destruct (le_not_nan _ _ Hlo) as [_ Nn].
  assert (E : eq (clamp n lo hi) n = true).
  { unfold clamp. rewrite Nn.
    pose proof (Math_max_in_range lo n Hlo) as E1.
    assert (L : le (Math_max lo n) hi = true).
    { unfold le, SFleb. unfold eq, SFeqb in E1.
      destruct (SFcompare (Math_max lo n) n) as [[| |]|] eqn:C; try discriminate.
      rewrite (SFcompare_Eq_l _ _ hi C). exact Hhi. }
    apply (eq_trans _ (Math_max lo n)); [apply Math_min_in_range, L | exact E1]. }
  split; [exact E|].
  unfold eq, SFeqb in E.
  destruct (SFcompare (clamp n lo hi) n) as [[| |]|] eqn:C; try discriminate.
  destruct (SFcompare_Eq_inv _ _ C) as [->|(s & t & _ & ->)];
    [left; reflexivity | right; exists t; reflexivity].
Qed.

Lemma clamp_in_range_witness :
  le (num 0) (num 35) = true /\ le (num 35) (num 100) = true
  /\ eq (clamp (num 35) (num 0) (num 100)) (num 35) = true.
Proof.
  split; [reflexivity|]. split; [reflexivity|].
  apply (clamp_in_range (num 35) (num 0) (num 100)); reflexivity.
Defined.

Lemma clamp_lo_fixed lo hi : lt lo hi = true -> clamp lo lo hi = lo.
Proof.
  intros H. destruct (lt_not_nan _ _ H) as [Nlo Nhi].
  unfold clamp, Math_max. rewrite Nlo. cbn [orb].
  assert (R : lt lo lo = false).
  { unfold lt, SFltb. rewrite SFcompare_refl by exact Nlo. reflexivity. }
  assert (M : match lo, lo with
              | S754_zero true, S754_zero false => lo
              | _, _ => if lt lo lo then lo else lo
              end = lo).
  { rewrite R. destruct lo as [[|]| | |]; reflexivity. }
  rewrite M. unfold Math_min. rewrite Nlo, Nhi. cbn [orb]. rewrite H.
  destruct hi as [[|]| | |]; try reflexivity; destruct lo as [[|]| | |];
    try reflexivity; discriminate.
Qed.

Lemma clamp_hi_fixed lo hi : lt lo hi = true -> clamp hi lo hi = hi.
Proof.
  intros H. destruct (lt_not_nan _ _ H) as [Nlo Nhi].
  unfold clamp, Math_max. rewrite Nhi, Nlo. cbn [orb]. rewrite H.
  assert (M : match lo, hi with
              | S754_zero true, S754_zero false => hi
              | _, _ => hi
              end = hi).
  { destruct lo as [[|]| | |]; try reflexivity; destruct hi as [[|]| | |]; reflexivity. }
  rewrite M. unfold Math_min. rewrite Nhi. cbn [orb].
  assert (R : lt hi hi = false).
  { unfold lt, SFltb. rewrite SFcompare_refl by exact Nhi. reflexivity. }
  rewrite R. destruct hi as [[|]| | |]; reflexivity.
Qed.

Lemma clamp_twice n lo hi :
  lt lo hi = true -> clamp (clamp n lo hi) lo hi = clamp n lo hi.
Proof.
  intros H. destruct (lt_not_nan _ _ H) as [Nlo Nhi].
  destruct (clamp_bounds n lo hi Nlo Nhi (lt_le _ _ H)) as (_ & _ & [E|[E|[E _]]]).
  - rewrite E. apply clamp_lo_fixed, H.
  - rewrite E. apply clamp_hi_fixed, H.
  - rewrite E at 1. reflexivity.
Qed.

(** X2.  [clamp] is idempotent when the lower bound is below the upper one:
    clamping a clamped value changes nothing, and the result of [clamp] is
    never NaN. *)
Theorem clamp_idempotent (n lo hi : number) :
  lt lo hi = true ->
  clamp (clamp n lo hi) lo hi = clamp n lo hi /\ isNaN (clamp n lo hi) = false.
Proof.
  intros H. split; [apply clamp_twice, H|].
  destruct (lt_not_nan _ _ H) as [Nlo Nhi].
  destruct (clamp_bounds n lo hi Nlo Nhi (lt_le _ _ H)) as (L & _).
  exact (proj2 (le_not_nan _ _ L)).
Qed.

Lemma clamp_idempotent_witness :
  lt (num 1) (num 20) = true
  /\ clamp (clamp (num 50) (num 1) (num 20)) (num 1) (num 20)
     = clamp (num 50) (num 1) (num 20).
Proof.
  split; [reflexivity|].
  exact (proj1 (clamp_idempotent (num 50) (num 1) (num 20) eq_refl)).
Defined.

(** The order of [SFcompare] on two finite doubles of the same sign is
    the order of the pairs (exponent, mantissa); it is transitive on all
    doubles. *)
Lemma lt_finite s1 m1 e1 s2 m2 e2 :
  lt (S754_finite s1 m1 e1) (S754_finite s2 m2 e2) = true <->
  match s1, s2 with
  | true, false => True
  | false, true => False
  | false, false => e1 < e2 \/ (e1 = e2 /\ Zpos m1 < Zpos m2)
  | true, true => e2 < e1 \/ (e1 = e2 /\ Zpos m2 < Zpos m1)
  end.
Proof.
  unfold lt, SFltb. cbn [SFcompare].
  change (Pos.compare_cont Eq m1 m2) with (Pos.compare m1 m2).
  destruct s1, s2; try (split; [discriminate | contradiction]);
    try (split; [intros _; exact I | reflexivity]);
    destruct (Z.compare_spec e1 e2) as [E|E|E];
    destruct (Pos.compare_spec m1 m2) as [M|M|M]; cbn [CompOpp];
    split; try discriminate; try reflexivity; try lia;
    intros _; try (left; lia); right; (split; [exact E | lia]).
Qed.

Lemma lt_trans a b c : lt a b = true -> lt b c = true -> lt a c = true.
Proof.
  intros H1 H2.
  destruct a as [sa|sa| |sa ma ea]; destruct b as [sb|sb| |sb mb eb];
    destruct c as [sc|sc| |sc mc ec];
    try discriminate H1; try discriminate H2;
    try (destruct sa; destruct sb; destruct sc;
         first [discriminate H1 | discriminate H2 | reflexivity]).
  apply lt_finite in H1. apply lt_finite in H2. apply lt_finite.
  destruct sa, sb, sc; try exact I; try contradiction; lia.
Qed.

(** X3.  Saturation: a number below the lower bound is clamped to the lower
    bound, a number above the upper bound to the upper one, the infinities
    included. *)
Theorem clamp_saturates (n lo hi : number) :
  lt lo hi = true ->
  (lt n lo = true -> clamp n lo hi = lo)
  /\ (lt hi n = true -> clamp n lo hi = hi).
Proof.
  intros H. destruct (lt_not_nan _ _ H) as [Nlo Nhi]. split.
  - intros L. destruct (lt_not_nan _ _ L) as [Nn _].
    assert (M : Math_max lo n = lo).
    { unfold Math_max. rewrite Nlo, Nn. cbn [orb]. rewrite (lt_irrefl_sym _ _ L).
      destruct lo as [[|]| | |]; try reflexivity; destruct n as [[|]| | |];
        try reflexivity; discriminate. }
    pose proof (clamp_lo_fixed lo hi H) as F.
    unfold clamp in F |- *. rewrite Nn. rewrite Nlo in F.
    rewrite M.
    assert (M' : Math_max lo lo = lo).
    { unfold Math_max. rewrite Nlo. cbn [orb].
      assert (R : lt lo lo = false).
      { unfold lt, SFltb. rewrite SFcompare_refl by exact Nlo. reflexivity. }
      rewrite R. destruct lo as [[|]| | |]; reflexivity. }
    rewrite M' in F. exact F.
  - intros L. destruct (lt_not_nan _ _ L) as [_ Nn].
    pose proof (lt_trans _ _ _ H L) as Ln.
    assert (M : Math_max lo n = n).
    { unfold Math_max. rewrite Nlo, Nn. cbn [orb]. rewrite Ln.
      destruct lo as [[|]| | |]; try reflexivity; destruct n as [[|]| | |]; reflexivity. }
    unfold clamp. rewrite Nn, M. unfold Math_min. rewrite Nhi, Nn. cbn [orb].
    rewrite (lt_irrefl_sym _ _ L).
    destruct hi as [[|]| | |]; try reflexivity; destruct n as [[|]| | |];
      try reflexivity; discriminate.
Qed.

Lemma clamp_saturates_witness :
  lt (num 0) (num 100) = true
  /\ lt (Number_of_string "-5") (num 0) = true
  /\ clamp (Number_of_string "-5") (num 0) (num 100) = num 0
  /\ clamp (num 250) (num 0) (num 100) = num 100
  /\ lt (Number_of_string "-5") (num 5) = true
  /\ clamp (num 10) (Number_of_string "-5") (num 5) = num 5
  /\ clamp Infinity (Number_of_string "-5") (num 5) = num 5
  /\ clamp (S754_infinity true) (Number_of_string "-5") (num 5) = Number_of_string "-5".
Proof.
  destruct (clamp_saturates (Number_of_string "-5") (num 0) (num 100) eq_refl) as [A _].
  destruct (clamp_saturates (num 250) (num 0) (num 100) eq_refl) as [_ B].
  destruct (clamp_saturates (num 10) (Number_of_string "-5") (num 5) eq_refl) as [_ C].
  destruct (clamp_saturates Infinity (Number_of_string "-5") (num 5) eq_refl) as [_ D].
  destruct (clamp_saturates (S754_infinity true) (Number_of_string "-5") (num 5) eq_refl)
    as [E _].
  split; [reflexivity|]. split; [reflexivity|].
  split; [apply A; reflexivity|]. split; [apply B; reflexivity|].
  split; [reflexivity|]. split; [apply C; reflexivity|].
  split; [apply D; reflexivity | apply E; reflexivity].
Defined.

(** ** [toNum] on texts *)

Lemma remove_spaces_app a b :
  remove_spaces (a ++ b) = (remove_spaces a ++ remove_spaces b)%string.
Proof.
  induction a as [|c a IH]; cbn [String.append remove_spaces]; [reflexivity|].
  destruct (is_space c); cbn [String.append]; rewrite IH; reflexivity.
Qed.

(** X4.  White space anywhere in a text is ignored: a text with a white
    space character inserted at any position normalizes like the text
    without it. *)
Theorem toNum_ignores_space (s1 s2 : string) (c : ascii) :
  is_space c = true ->
  toNum (VStr (s1 ++ String c s2)) = toNum (VStr (s1 ++ s2)).
Proof.
  intros Hc. unfold toNum, decimal_text.
  rewrite !remove_spaces_app. cbn [remove_spaces]. rewrite Hc. reflexivity.
Qed.

Lemma toNum_ignores_space_witness :
  is_space " "%char = true
  /\ toNum (VStr ("1" ++ String " "%char "000")) = num 1000.
Proof.
  split; [reflexivity|].
  rewrite (toNum_ignores_space "1" "000" " "%char eq_refl). reflexivity.
Defined.

Lemma has_comma_remove_spaces s : has_comma (remove_spaces s) = has_comma s.
Proof.
  induction s as [|c s IH]; [reflexivity|]. cbn [remove_spaces has_comma].
  destruct (is_space c) eqn:Sp.
  - rewrite IH. destruct (Ascii.eqb_spec c ","%char) as [->|_]; [discriminate | reflexivity].
  - cbn [has_comma]. rewrite IH. reflexivity.
Qed.

Lemma replace_first_comma_app a b :
  has_comma a = false ->
  replace_first_comma (a ++ String ","%char b) = (a ++ String "."%char b)%string.
Proof.
  induction a as [|c a IH]; cbn [String.append replace_first_comma has_comma].
  - reflexivity.
  - intros H. apply orb_false_elim in H. destruct H as [Hc Ha].
    rewrite Hc, (IH Ha). reflexivity.
Qed.

Lemma replace_first_comma_none a : has_comma a = false -> replace_first_comma a = a.
Proof.
  induction a as [|c a IH]; cbn [replace_first_comma has_comma]; [reflexivity|].
  intros H. apply orb_false_elim in H. destruct H as [Hc Ha].
  rewrite Hc, (IH Ha). reflexivity.
Qed.

Lemma has_comma_app a b : has_comma (a ++ b) = has_comma a || has_comma b.
Proof.
  induction a as [|c a IH]; cbn [String.append has_comma]; [reflexivity|].
  rewrite IH. apply orb_assoc.
Qed.

(** X5.  The decimal comma: a text with exactly one comma normalizes like
    the same text with a point in its place. *)
Theorem toNum_decimal_comma (a b : string) :
  has_comma a = false -> has_comma b = false ->
  toNum (VStr (a ++ String ","%char b)) = toNum (VStr (a ++ String "."%char b)).
Proof.
  intros Ha Hb. unfold toNum, decimal_text.
  rewrite !remove_spaces_app. cbn [remove_spaces]. cbn.
  rewrite replace_first_comma_app by (rewrite has_comma_remove_spaces; exact Ha).
  rewrite (replace_first_comma_none (remove_spaces a ++ String "." (remove_spaces b))).
  - reflexivity.
  - rewrite has_comma_app. cbn [has_comma]. rewrite !has_comma_remove_spaces, Ha, Hb.
    reflexivity.
Qed.

Lemma toNum_decimal_comma_witness :
  has_comma "0" = false /\ has_comma "92" = false
  /\ toNum (VStr ("0" ++ String ","%char "92")) = Number_of_string "0.92".
Proof.
  split; [reflexivity|]. split; [reflexivity|].
  rewrite (toNum_decimal_comma "0" "92" eq_refl eq_refl). reflexivity.
Defined.

(** A text that still contains a comma is no numeric literal. *)

Lemma has_comma_ltrim s : has_comma (ltrim s) = has_comma s.
Proof.
  induction s as [|c s IH]; [reflexivity|]. cbn [ltrim].
  destruct (is_space c) eqn:Sp; [|reflexivity].
  rewrite IH. cbn [has_comma].
  destruct (Ascii.eqb_spec c ","%char) as [->|_]; [discriminate | reflexivity].
Qed.

Lemma has_comma_rtrim s : has_comma (rtrim s) = has_comma s.
Proof.
  induction s as [|c s IH]; [reflexivity|]. cbn [rtrim has_comma].
  destruct (rtrim s) as [|c' r'] eqn:R.
  - cbn [has_comma] in IH. rewrite <- IH.
    destruct (is_space c) eqn:Sp; cbn [has_comma];
      destruct (Ascii.eqb_spec c ","%char) as [->|_]; try discriminate; reflexivity.
  - cbn [has_comma]. cbn [has_comma] in IH. rewrite IH. reflexivity.
Qed.

Lemma radix_acc_comma radix s : forall acc,
  has_comma s = true -> radix_acc radix s acc = None.
Proof.
  induction s as [|c s IH]; intros acc; cbn [has_comma radix_acc]; [discriminate|].
  destruct (Ascii.eqb_spec c ","%char) as [->|_].
  - reflexivity.
  - cbn [orb]. intros H. destruct (hex_val c) as [d|]; [|reflexivity].
    destruct (d <? radix); [apply IH, H | reflexivity].
Qed.

Lemma strip_prefix_comma p t r :
  has_comma p = false -> has_comma t = true ->
  strip_prefix p t = Some r -> has_comma r = true.
Proof.
  revert t. induction p as [|a p IH]; intros t Hp Ht; cbn [strip_prefix].
  - intros E. injection E as <-. exact Ht.
  - destruct t as [|b t]; [discriminate|].
    cbn [has_comma] in Hp, Ht. apply orb_false_elim in Hp. destruct Hp as [Ha Hp].
    destruct (Ascii.eqb_spec a b) as [<-|_]; [|discriminate].
    rewrite Ha in Ht. apply IH; assumption.
Qed.

Lemma non_decimal_comma ps t n :
  Forall (fun pr => has_comma (fst pr) = false) ps ->
  has_comma t = true -> non_decimal ps t = Some n -> n = NaN.
Proof.
  intros Hps Ht. induction Hps as [|[p radix] ps Hp _ IH]; cbn [non_decimal];
    [discriminate|].
  destruct (strip_prefix p t) as [r|] eqn:E; [|exact IH].
  intros H. injection H as <-.
  pose proof (strip_prefix_comma p t r Hp Ht E) as Hr.
  unfold radix_literal. destruct r as [|c r]; [discriminate|].
  rewrite (radix_acc_comma radix (String c r) 0 Hr). reflexivity.
Qed.

Lemma digits_acc_comma s : forall acc len,
  has_comma s = true -> has_comma (snd (digits_acc s acc len)) = true.
Proof.
  induction s as [|c s IH]; intros acc len; cbn [has_comma digits_acc]; [discriminate|].
  destruct (Ascii.eqb_spec c ","%char) as [->|_].
  - intros _. reflexivity.
  - cbn [orb]. intros H. destruct (is_digit c).
    + apply IH, H.
    + cbn [snd has_comma]. rewrite H. apply orb_true_r.
Qed.

Lemma exponent_sign_comma r :
  has_comma r = true ->
  has_comma (snd (match r with
                  | String "+"%char r' => (false, r')
                  | String "-"%char r' => (true, r')
                  | _ => (false, r)
                  end)) = true.
Proof.
  destruct r as [|c r']; [discriminate|]. intros H.
  assert (T : has_comma r' = true \/ c = ","%char).
  { cbn [has_comma] in H. destruct (Ascii.eqb_spec c ","%char) as [->|_];
      [right; reflexivity | left; exact H]. }
  destruct T as [T| ->]; [|exact H].
  destruct c as [[] [] [] [] [] [] [] []]; cbn [snd]; solve [exact T | exact H].
Qed.

Lemma exponent_part_comma s : has_comma s = true -> exponent_part s = None.
Proof.
  intros H. destruct s as [|c r]; [discriminate|]. unfold exponent_part.
  destruct ((code c =? 101) || (code c =? 69))%N eqn:Ee; [|reflexivity].
  assert (Hr : has_comma r = true).
  { cbn [has_comma] in H. destruct (Ascii.eqb_spec c ","%char) as [->|_];
      [discriminate | exact H]. }
  pose proof (exponent_sign_comma r Hr) as Hs.
  destruct (match r with
            | String "+"%char r' => (false, r')
            | String "-"%char r' => (true, r')
            | _ => (false, r)
            end) as [neg r1].
  cbn [snd] in Hs.
  pose proof (digits_acc_comma r1 0 0 Hs) as Hd. unfold digits.
  destruct (digits_acc r1 0 0) as [[v len] rest]. cbn [snd] in Hd.
  destruct rest; [discriminate | reflexivity].
Qed.

Lemma unsigned_decimal_comma neg s :
  has_comma s = true -> unsigned_decimal neg s = NaN.
Proof.
  intros H. unfold unsigned_decimal.
  destruct (String.eqb_spec s "Infinity") as [->|_]; [discriminate|].
  pose proof (digits_acc_comma s 0 0 H) as Hd. unfold digits.
  destruct (digits_acc s 0 0) as [[i ilen] r]. cbn [snd] in Hd.
  assert (Hf : has_comma (snd (fst (fraction_part r i))) = true).
  { unfold fraction_part. destruct r as [|c r1]; [discriminate|].
    destruct (Ascii.eqb_spec c "."%char) as [->|_].
    - cbn [fst]. apply digits_acc_comma. exact Hd.
    - exact Hd. }
  destruct (fraction_part r i) as [[[f flen] r'] dotted]. cbn [fst snd] in Hf.
  rewrite (exponent_part_comma r' Hf).
  destruct ((0 <? ilen) || (dotted && (0 <? flen))); reflexivity.
Qed.

Lemma Number_of_string_comma s : has_comma s = true -> Number_of_string s = NaN.
Proof.
  intros H. unfold Number_of_string.
  assert (Ht : has_comma (trim s) = true).
  { unfold trim. rewrite has_comma_rtrim, has_comma_ltrim. exact H. }
  destruct (trim s) as [|c r] eqn:T; [discriminate|].
  destruct (non_decimal radix_prefixes (String c r)) as [n|] eqn:E.
  - apply (non_decimal_comma radix_prefixes (String c r)); try assumption.
    unfold radix_prefixes. repeat constructor.
  - unfold signed_decimal.
    assert (Hr : c = ","%char \/ has_comma r = true).
    { cbn [has_comma] in Ht. destruct (Ascii.eqb_spec c ","%char) as [->|_];
        [left; reflexivity | right; exact Ht]. }
    destruct (Ascii.eqb_spec c "+"%char) as [->|_].
    { destruct Hr as [Hr|Hr]; [discriminate | apply unsigned_decimal_comma, Hr]. }
    destruct (Ascii.eqb_spec c "-"%char) as [->|_].
    { destruct Hr as [Hr|Hr]; [discriminate | apply unsigned_decimal_comma, Hr]. }
    apply unsigned_decimal_comma, Ht.
Qed.

(** X6.  Grouping commas are not understood: a text in which a comma is
    followed, anywhere later, by another comma normalizes to NaN, so every
    clamped field holding it becomes its lower bound. *)
Theorem toNum_two_commas (a b : string) :
  has_comma b = true ->
  toNum (VStr (a ++ String ","%char b)) = NaN
  /\ forall st f, raw_of f st = VStr (a ++ String ","%char b) ->
       get f (parsed st) = num (field_lo f).
Proof.
  intros Hb.
  assert (E : toNum (VStr (a ++ String ","%char b)) = NaN).
  { unfold toNum, decimal_text, Number.
    rewrite Number_of_string_comma; [reflexivity|].
    set (t := remove_spaces (a ++ String ","%char b)).
    assert (Ht : exists u v, t = (u ++ String ","%char v)%string
                             /\ has_comma u = false /\ has_comma v = true).
    { unfold t. rewrite remove_spaces_app. cbn [remove_spaces]. cbn.
      assert (Hv : has_comma (remove_spaces b) = true)
        by (rewrite has_comma_remove_spaces; exact Hb).
      generalize (remove_spaces a) (remove_spaces b) Hv. clear.
      intros u. induction u as [|c u IH]; intros v Hv.
      - exists EmptyString, v. repeat split; assumption.
      - destruct (Ascii.eqb_spec c ","%char) as [->|Nc].
        + exists EmptyString, (u ++ String ","%char v)%string. repeat split.
          rewrite has_comma_app. cbn [has_comma]. apply orb_true_r.
        + destruct (IH v Hv) as (u' & v' & E & Hu' & Hv').
          exists (String c u'), v'. cbn [String.append]. rewrite E.
          repeat split; [|exact Hv']. cbn [has_comma].
          destruct (Ascii.eqb_spec c ","%char); [contradiction | exact Hu']. }
    destruct Ht as (u & v & -> & Hu & Hv).
    rewrite replace_first_comma_app by exact Hu.
    rewrite has_comma_app. cbn [has_comma]. rewrite Hv. apply orb_true_r. }
  split; [exact E|].
  intros st f Hraw. rewrite parsed_get, Hraw, E. reflexivity.
Qed.

Lemma toNum_two_commas_witness :
  has_comma "000,000" = true
  /\ toNum (VStr ("1" ++ String ","%char "000,000")) = NaN.
Proof.
  split; [reflexivity|].
  apply (proj1 (toNum_two_commas "1" "000,000" eq_refl)).
Defined.

(** ** The normalizer and the form state *)

Lemma toNum_number x :
  toNum (VNum x) = if isFinite x then x else NaN.
Proof. reflexivity. Qed.

Lemma renormalize_field v lo hi :
  isFinite lo = true -> isFinite hi = true -> lt lo hi = true ->
  clamp (toNum (VNum (clamp (toNum v) lo hi))) lo hi = clamp (toNum v) lo hi.
Proof.
  intros Flo Fhi H. rewrite toNum_number.
  rewrite (clamp_toNum_finite v lo hi Flo Fhi (lt_le _ _ H)).
  apply clamp_twice, H.
Qed.

(** X8.  Normalizing is idempotent: when the normalized numbers are written
    back into the form and normalized again, the same input comes out. *)
Theorem renormalize_idempotent (st : StateType) :
  parsed (numbers_of (parsed st)) = parsed st.
Proof.
  unfold parsed at 1. unfold numbers_of.
  cbn [State.beds State.occupancyPct State.alosDays State.vriPer1000BedDays
       State.vriPerYearOverride State.gramNegPct State.sinkAttributablePct
       State.effectPct State.extraDaysPerVRI State.costPerBedDay State.costPerVRI
       State.pricingMode State.capex State.opexYear State.capexAmortYears].
  assert (O : (if isFinite (toNum (VNum (vriPerYearOverride (parsed st))))
               then toNum (VNum (vriPerYearOverride (parsed st))) else NaN)
              = vriPerYearOverride (parsed st)).
  { rewrite toNum_number. cbn [parsed vriPerYearOverride].
    destruct (isFinite (toNum (State.vriPerYearOverride st))) eqn:F.
    - rewrite F, F. reflexivity.
    - reflexivity. }
  rewrite O.
  unfold parsed.
  cbn [beds occupancyPct alosDays vriPer1000BedDays vriPerYearOverride gramNegPct
       sinkAttributablePct effectPct extraDaysPerVRI costPerBedDay costPerVRI
       pricingMode capex opexYear capexAmortYears].
  rewrite !renormalize_field by reflexivity.
  reflexivity.
Qed.

(** The events of the page keep the state well formed. *)

Lemma raw_of_set_raw st f v g :
  raw_of g (set_raw st f v) = if field_eqb f g then v else raw_of g st.
Proof. destruct g; reflexivity. Qed.

Lemma wf_state_iff st :
  wf_state st = true
  <-> (forall g, wf_value (raw_of g st) = true)
      /\ wf_value (State.vriPerYearOverride st) = true.
Proof.
  unfold wf_state. rewrite andb_true_iff, forallb_forall. split.
  - intros [H1 H2]. split; [|exact H2]. intros g. apply H1. destruct g; cbn; tauto.
  - intros [H1 H2]. split; [|exact H2]. intros g _. apply H1.
Qed.

Lemma step_keeps_wf st ev :
  event_wf ev = true ->
  wf_state st = true
  /\ (State.pricingMode st = "bedDays"%string \/ State.pricingMode st = "perVRI"%string) ->
  wf_state (step st ev) = true
  /\ (State.pricingMode (step st ev) = "bedDays"%string
      \/ State.pricingMode (step st ev) = "perVRI"%string).
Proof.
  intros Hev [Hw Hm]. apply wf_state_iff in Hw. destruct Hw as [Hf Ho].
  assert (S : forall f v, wf_value v = true -> wf_state (set_raw st f v) = true).
  { intros f v Hv. apply wf_state_iff. split; [|exact Ho].
    intros g. rewrite raw_of_set_raw. destruct (field_eqb f g); [exact Hv | apply Hf]. }
  destruct ev as [|s|f v|v| |]; cbn [step event_wf] in *.
  - split; [reflexivity | left; reflexivity].
  - split; [|exact Hm]. apply S. apply num_wf.
  - split; [|exact Hm]. apply S, Hev.
  - split; [|exact Hm]. apply wf_state_iff. split; [exact Hf | exact Hev].
  - split; [|left; reflexivity]. apply wf_state_iff. split; [exact Hf | exact Ho].
  - split; [|right; reflexivity]. apply wf_state_iff. split; [exact Hf | exact Ho].
Qed.

(** X9.  Whatever the user does, starting from the defaults, the state the
    page holds is well formed and its [pricingMode] is one of the two
    modes; the normalized input then satisfies the contract of the engine
    with the same mode. *)
Theorem reachable_states (evs : list event) :
  forallb event_wf evs = true ->
  wf_state (run evs) = true
  /\ (State.pricingMode (run evs) = "bedDays"%string
      \/ State.pricingMode (run evs) = "perVRI"%string)
  /\ Normalized (parsed (run evs)) = true
  /\ (pricingMode (parsed (run evs)) = "bedDays"%string
      \/ pricingMode (parsed (run evs)) = "perVRI"%string).
Proof.
  intros Hevs.
  assert (I : wf_state (run evs) = true
              /\ (State.pricingMode (run evs) = "bedDays"%string
                  \/ State.pricingMode (run evs) = "perVRI"%string)).
  { unfold run.
    assert (G : forall st,
               wf_state st = true
               /\ (State.pricingMode st = "bedDays"%string
                   \/ State.pricingMode st = "perVRI"%string) ->
               wf_state (fold_left step evs st) = true
               /\ (State.pricingMode (fold_left step evs st) = "bedDays"%string
                   \/ State.pricingMode (fold_left step evs st) = "perVRI"%string)).
    { induction evs as [|ev evs IH]; intros st Hst; [exact Hst|].
      cbn [forallb] in Hevs. apply andb_prop in Hevs. destruct Hevs as [Hev Hevs].
      cbn [fold_left]. apply (IH Hevs). apply step_keeps_wf; assumption. }
    apply G. split; [reflexivity | left; reflexivity]. }
  destruct I as [Hw Hm].
  split; [exact Hw|]. split; [exact Hm|].
  split; [apply parsed_normalized, Hw | exact Hm].
Qed.

Lemma reachable_states_witness :
  forallb event_wf
    [ChangeField FBeds (VStr "12 abc"); PickPerVRI; ChangeOverride (VStr "1e308");
     PickScenario ambitious] = true
  /\ Normalized (parsed (run
       [ChangeField FBeds (VStr "12 abc"); PickPerVRI; ChangeOverride (VStr "1e308");
        PickScenario ambitious])) = true.
Proof.
  split; [reflexivity|].
  apply (reachable_states
    [ChangeField FBeds (VStr "12 abc"); PickPerVRI; ChangeOverride (VStr "1e308");
     PickScenario ambitious]).
  reflexivity.
Defined.

(** X10.  After a scenario button is pressed, in any state, exactly that
    scenario is drawn as selected. *)
Theorem scenario_highlight (st : StateType) (s s' : scenario) :
  scenario_selected (parsed (step st (PickScenario s))) s' = true <-> s' = s.
Proof.
  split.
  - destruct s, s'; vm_compute; intros H; try reflexivity; discriminate.
  - intros ->. destruct s; vm_compute; reflexivity.
Qed.

Lemma scenario_highlight_witness :
  scenario_selected (parsed (step defaults (PickScenario ambitious))) ambitious = true.
Proof. apply (scenario_highlight defaults ambitious ambitious). reflexivity. Defined.

(** ** Addition and subtraction of doubles that are not negative *)

Lemma shl_align_value m e ez :
  ez <= e -> F2R (Zpos (fst (shl_align m e ez))) ez = F2R (Zpos m) e.
Proof.
  intros H. unfold shl_align.
  destruct (ez - e) as [|d|d] eqn:D; cbn [fst]; try lia.
  - replace ez with e by lia. reflexivity.
  - rewrite iter_xO, F2R_shift by lia. f_equal. lia.
Qed.

Theorem add_Rnn a b :
  finite_nonneg a = true -> finite_nonneg b = true ->
  Rnn (val a + val b) (add a b).
Proof.
  intros Ha Hb. unfold add. fn_cases Ha; fn_cases Hb; cbn [val cond_Zopp SFadd].
  - rewrite Rplus_0_l. destruct s, s0; apply Rnn_zero.
  - rewrite Rplus_0_l. left. split; [exact B|]. apply nearest_refl, bounded_Fmt, B.
  - rewrite Rplus_0_r. left. split; [exact B|]. apply nearest_refl, bounded_Fmt, B.
  - apply Rounded_Rnn. cbn [cond_Zopp].
    rewrite <- (shl_align_value m e (Z.min e e0)) by lia.
    rewrite <- (shl_align_value m0 e0 (Z.min e e0)) by lia.
    set (m1 := fst (shl_align m e (Z.min e e0))).
    set (m2 := fst (shl_align m0 e0 (Z.min e e0))).
    replace (F2R (Zpos m1) (Z.min e e0) + F2R (Zpos m2) (Z.min e e0))%R
      with (F2R (Zpos (m1 + m2)) (Z.min e e0)).
    + change (Zpos m1 + Zpos m2) with (Zpos (m1 + m2)). apply binary_round_spec.
    + unfold F2R. rewrite Pos2Z.inj_add, plus_IZR. ring.
Qed.

(** The difference of two finite doubles that are not negative: its sign
    is that of the exact difference, and it never exceeds the minuend. *)
Theorem sub_sign a b :
  finite_nonneg a = true -> finite_nonneg b = true ->
  (lt (sub a b) (num 0) = true <-> lt a b = true)
  /\ (eq (sub a b) (num 0) = true <-> eq a b = true)
  /\ le (sub a b) a = true.
Proof.
  intros Ha Hb.
  destruct (val_num 0 ltac:(lia)) as [F0 V0].
  assert (Neg : forall s x f, Rounded s x f -> (bpow (-1074) <= x)%R ->
                  match f with
                  | S754_finite s' _ _ | S754_infinity s' => s' = s
                  | _ => False
                  end).
  { intros s x f (v & Hn & Hf) Hx.
    assert (Hv : (bpow (-1074) <= v)%R).
    { apply (nearest_ge x); [|exact Hx | exact Hn].
      exists 1, (-1074). split; [unfold F2R; ring|]. split; simpl; lia. }
    pose proof (bpow_pos (-1074)).
    destruct f as [s'|s'| |s' m e]; try contradiction.
    - destruct Hf as [_ Hf]. lra.
    - apply Hf.
    - apply Hf. }
  unfold sub. fn_cases Ha; fn_cases Hb; cbn [SFsub].
  - split; [|split].
    + destruct s, s0; cbn; split; discriminate.
    + destruct s, s0; cbn; split; reflexivity.
    + destruct s, s0; reflexivity.
  - cbn. repeat split; try reflexivity; discriminate.
  - split; [|split].
    + cbn. split; discriminate.
    + cbn. split; discriminate.
    + apply le_refl. reflexivity.
  - pose proof (shl_align_value m e (Z.min e e0) ltac:(lia)) as V1.
    pose proof (shl_align_value m0 e0 (Z.min e e0) ltac:(lia)) as V2.
    cbn [cond_Zopp].
    set (m1 := fst (shl_align m e (Z.min e e0))) in *.
    set (m2 := fst (shl_align m0 e0 (Z.min e e0))) in *.
    set (ez := Z.min e e0) in *.
    assert (Ez : -1074 <= ez).
    { destruct (bounded_facts _ _ B) as (? & _). destruct (bounded_facts _ _ B0) as (? & _).
      unfold ez. lia. }
    assert (Fa : finite_nonneg (S754_finite false m e) = true) by exact B.
    assert (Fb : finite_nonneg (S754_finite false m0 e0) = true) by exact B0.
    pose proof (lt_val _ _ Fa Fb) as LT. pose proof (lt_val _ _ Fb Fa) as GT.
    cbn [val cond_Zopp] in LT, GT. rewrite <- V1, <- V2 in LT, GT.
    assert (Cmp : forall p q : positive,
               (F2R (Zpos p) ez < F2R (Zpos q) ez)%R <-> (Zpos p < Zpos q)).
    { intros p q. split; intros H.
      - destruct (Z_lt_le_dec (Zpos p) (Zpos q)) as [L|L]; [exact L|].
        apply (F2R_le _ _ ez) in L. lra.
      - apply F2R_lt, H. }
    assert (Big : forall p, (bpow (-1074) <= F2R (Zpos p) ez)%R).
    { intros p. apply Rle_trans with (F2R 1 ez).
      - unfold F2R. rewrite Rmult_1_l. apply bpow_le, Ez.
      - apply F2R_le. lia. }
    unfold binary_normalize.
    destruct (Zpos m1 - Zpos m2) as [|p|p] eqn:D.
    + assert (E12 : m1 = m2) by lia.
      assert (Eab : S754_finite false m e = S754_finite false m0 e0).
      { destruct (val_inj _ _ Fa Fb) as [E|(s & t & E & _)]; [|exact E|discriminate].
        cbn [val cond_Zopp]. rewrite <- V1, <- V2, E12. reflexivity. }
      split; [|split].
      * split; [discriminate|]. intros H. apply LT in H. rewrite E12 in H. lra.
      * split; [|reflexivity]. intros _. rewrite Eab. apply eq_refl_num. reflexivity.
      * reflexivity.
    + pose proof (binary_round_spec false p ez) as R.
      pose proof (Neg _ _ _ R (Big p)) as S.
      assert (Vp : F2R (Zpos p) ez = (F2R (Zpos m1) ez - F2R (Zpos m2) ez)%R).
      { unfold F2R. rewrite <- D, minus_IZR. ring. }
      assert (Gt : (F2R (Zpos m2) ez < F2R (Zpos m1) ez)%R) by (apply Cmp; lia).
      split; [|split].
      * split.
        -- destruct (binary_round prec emax false p ez) as [s|s| |s m' e']; try contradiction;
             subst s; discriminate.
        -- intros H. apply LT in H. lra.
      * split.
        -- destruct (binary_round prec emax false p ez) as [s|s| |s m' e']; try contradiction;
             subst s; discriminate.
        -- intros H. exfalso. unfold eq, SFeqb in H.
           destruct (SFcompare (S754_finite false m e) (S754_finite false m0 e0))
             as [[| |]|] eqn:C; try discriminate.
           destruct (SFcompare_Eq_inv _ _ C) as [E|(s & t & E & _)]; [|discriminate].
           injection E as -> ->. lia.
      * pose proof (Rounded_Rnn _ _ R) as Rn.
        destruct (Rnn_bounded _ _ _ Rn Fa) as (F & _ & Bd).
        { cbn [val cond_Zopp]. rewrite Vp, <- V1. pose proof (F2R_pos m2 ez). lra. }
        apply (le_val _ _ F Fa). exact Bd.
    + pose proof (binary_round_spec true p ez) as R.
      pose proof (Neg _ _ _ R (Big p)) as S.
      assert (Lt' : (F2R (Zpos m1) ez < F2R (Zpos m2) ez)%R) by (apply Cmp; lia).
      split; [|split].
      * split; [intros _; apply LT, Lt'|]. intros _.
        destruct (binary_round prec emax true p ez) as [s|s| |s m' e']; try contradiction;
          subst s; reflexivity.
      * split.
        -- destruct (binary_round prec emax true p ez) as [s|s| |s m' e']; try contradiction;
             subst s; discriminate.
        -- intros H. exfalso. unfold eq, SFeqb in H.
           destruct (SFcompare (S754_finite false m e) (S754_finite false m0 e0))
             as [[| |]|] eqn:C; try discriminate.
           destruct (SFcompare_Eq_inv _ _ C) as [E|(s & t & E & _)]; [|discriminate].
           injection E as -> ->. lia.
      * destruct (binary_round prec emax true p ez) as [s|s| |s m' e']; try contradiction;
          subst s; reflexivity.
Qed.

(** ** The cost side of the engine *)

Lemma calc_annualCost i :
  annualCost (calc i)
  = add (if gt (capexAmortYears i) (num 0)
         then div (capex i) (capexAmortYears i) else capex i)
        (opexYear i).
Proof. reflexivity. Qed.

Lemma calc_net i :
  net (calc i) = sub (savedSEK (calc i)) (annualCost (calc i)).
Proof. reflexivity. Qed.

Lemma calc_roi i :
  roi (calc i)
  = if gt (annualCost (calc i)) (num 0)
    then div (net (calc i)) (annualCost (calc i)) else NaN.
Proof. reflexivity. Qed.

Lemma calc_vriPer1000 i :
  vriPer1000 (calc i)
  = if gt (bedDays (calc i)) (num 0)
    then mul (div (vri (calc i)) (bedDays (calc i))) (num 1000) else NaN.
Proof. reflexivity. Qed.

Lemma gt_zero_val x :
  finite_nonneg x = true -> (gt x (num 0) = true <-> (0 < val x)%R).
Proof.
  intros H. destruct (val_num 0 ltac:(lia)) as [F0 V0].
  unfold gt. rewrite (lt_val _ _ F0 H), V0. reflexivity.
Qed.

Lemma eq_zero_val x :
  finite_nonneg x = true -> (eq x (num 0) = true <-> val x = 0%R).
Proof.
  intros H. fn_cases H; cbn [val cond_Zopp].
  - split; reflexivity.
  - pose proof (F2R_pos m e). split; [discriminate | lra].
Qed.

Section CostSide.

Variable i : CalcInput.
Hypothesis HN : Normalized i = true.

Lemma annualCost_facts :
  gt (capexAmortYears i) (num 0) = true
  /\ finite_nonneg (annualCost (calc i)) = true
  /\ (val (opexYear i) <= val (annualCost (calc i)) <= 200000000)%R.
Proof.
  destruct (Normalized_get i FCapex HN) as [Fc Vc].
  destruct (Normalized_get i FOpexYear HN) as [Fo Vo].
  destruct (Normalized_get i FCapexAmortYears HN) as [Fy Vy].
  cbn [get field_lo field_hi] in *.
  assert (G : gt (capexAmortYears i) (num 0) = true) by (apply gt_zero_val; [exact Fy | lra]).
  split; [exact G|].
  rewrite calc_annualCost, G.
  destruct (Rnn_bounded _ _ (capex i) (div_Rnn _ _ Fc Fy ltac:(lra)) Fc) as (Fa & _ & Va).
  { pose proof (val_nonneg _ Fc).
    apply (Rmult_le_reg_r (val (capexAmortYears i))); [lra|].
    unfold Rdiv. rewrite Rmult_assoc, Rinv_l by lra. nra. }
  destruct (val_num 200000000 ltac:(lia)) as [F2 V2].
  pose proof (add_Rnn _ _ Fa Fo) as R.
  pose proof (val_nonneg _ Fa) as Na.
  destruct (Rnn_bounded _ _ _ R F2) as (F & Nr & B); [rewrite V2; lra|].
  split; [exact F|]. split; [|rewrite V2 in B; exact B].
  apply (nearest_ge _ _ _ (val_Fmt _ Fo)) in Nr; [exact Nr | lra].
Qed.

End CostSide.

(** X11.  On a normalized input the capital cost is always amortized (the
    fallback for a non-positive period is never taken), and [annualCost]
    is a finite number between [opexYear] and 200 000 000. *)
Theorem annualCost_range (i : CalcInput) :
  Normalized i = true ->
  annualCost (calc i) = add (div (capex i) (capexAmortYears i)) (opexYear i)
  /\ isFinite (annualCost (calc i)) = true
  /\ le (opexYear i) (annualCost (calc i)) = true
  /\ le (annualCost (calc i)) (num 200000000) = true.
Proof.
  intros HN. destruct (annualCost_facts i HN) as (G & F & Vlo & Vhi).
  destruct (Normalized_get i FOpexYear HN) as [Fo _]. cbn [get] in Fo.
  destruct (val_num 200000000 ltac:(lia)) as [F2 V2].
  split; [rewrite calc_annualCost, G; reflexivity|].
  split; [apply finite_nonneg_finite, F|]. split.
  - apply (le_val _ _ Fo F). exact Vlo.
  - apply (le_val _ _ F F2). rewrite V2. exact Vhi.
Qed.

Lemma annualCost_range_witness :
  Normalized (parsed defaults) = true
  /\ le (annualCost (calc (parsed defaults))) (num 200000000) = true.
Proof.
  split; [vm_compute; reflexivity|].
  destruct (annualCost_range (parsed defaults)) as (_ & _ & _ & H).
  - vm_compute; reflexivity.
  - exact H.
Defined.

(** X7.  The normalizer establishes the contract of the engine: whatever
    texts the fields hold, and whatever doubles, the normalized input has
    every clamped field within its bounds and an override that is finite or
    NaN.  Every quantity of the chain up to the avoided infections, and the
    annual cost, is then a finite number that is not negative. *)
Theorem normalizer_contract (st : StateType) :
  wf_state st = true ->
  Normalized (parsed st) = true
  /\ forall q, In q [bedDays; vriFromRate; vri; gramNeg; sinkGramNeg; avoided; annualCost] ->
       isFinite (q (calc (parsed st))) = true
       /\ le (num 0) (q (calc (parsed st))) = true.
Proof.
  intros W. pose proof (parsed_normalized st W) as HN. split; [exact HN|].
  destruct (calc_chain _ HN) as (F1 & F2 & F3 & F4 & F5 & F6 & _).
  destruct (annualCost_facts _ HN) as (_ & F7 & _).
  destruct (val_num 0 ltac:(lia)) as [F0 V0].
  assert (K : forall x, finite_nonneg x = true ->
                isFinite x = true /\ le (num 0) x = true).
  { intros x F. split; [apply finite_nonneg_finite, F|].
    apply (le_val _ _ F0 F). rewrite V0. apply val_nonneg, F. }
  intros q Hq. cbn [In] in Hq.
  repeat (destruct Hq as [<-|Hq]; [apply K; assumption|]). contradiction.
Qed.

Lemma normalizer_contract_witness :
  wf_state st_bad_override = true /\ Normalized (parsed st_bad_override) = true.
Proof.
  split; [reflexivity|].
  exact (proj1 (normalizer_contract st_bad_override eq_refl)).
Defined.

Lemma savedSEK_finite_nonneg i :
  Normalized i = true -> isFinite (savedSEK (calc i)) = true ->
  finite_nonneg (savedSEK (calc i)) = true.
Proof.
  intros HN Hf. destruct (calc_savedSEK_cases i HN) as [[Hs _]|[E _]].
  - unfold nonneg_ext in Hs. apply orb_prop in Hs. destruct Hs as [Hs|Hs]; [exact Hs|].
    destruct (savedSEK (calc i)) as [|[|]| |]; discriminate.
  - rewrite E in Hf. discriminate.
Qed.

(** X12.  The sign of the net benefit is right: for a finite [savedSEK],
    [net] is negative exactly when [savedSEK < annualCost], zero exactly
    when they are equal, and [net] never exceeds [savedSEK]. *)
Theorem net_sign (i : CalcInput) :
  Normalized i = true -> isFinite (savedSEK (calc i)) = true ->
  (lt (net (calc i)) (num 0) = true
   <-> lt (savedSEK (calc i)) (annualCost (calc i)) = true)
  /\ (eq (net (calc i)) (num 0) = true
      <-> eq (savedSEK (calc i)) (annualCost (calc i)) = true)
  /\ le (net (calc i)) (savedSEK (calc i)) = true.
Proof.
  intros HN Hf. rewrite calc_net. apply sub_sign.
  - apply savedSEK_finite_nonneg; assumption.
  - apply (annualCost_facts i HN).
Qed.

Lemma net_sign_witness :
  Normalized (parsed defaults) = true
  /\ isFinite (savedSEK (calc (parsed defaults))) = true
  /\ lt (net (calc (parsed defaults))) (num 0) = true.
Proof.
  split; [vm_compute; reflexivity|]. split; [vm_compute; reflexivity|].
  destruct (net_sign (parsed defaults)) as (H & _).
  - vm_compute; reflexivity.
  - vm_compute; reflexivity.
  - apply H. vm_compute; reflexivity.
Defined.

Lemma div_pos_not_nan n b :
  wf n = true -> isNaN n = false -> finite_nonneg b = true -> (0 < val b)%R ->
  isNaN (div n b) = false.
Proof.
  intros Wn Nn Fb Pb. fn_cases Fb; cbn [val cond_Zopp] in Pb; [lra|].
  destruct n as [s|s| |s m' e']; try discriminate; try reflexivity.
  apply (Rounded_wf (xorb s false) (F2R (Zpos m') e' / F2R (Zpos m) e)).
  apply SFdiv_finite.
Qed.

(** X13.  On a normalized input [roi] is NaN exactly when [annualCost] is
    zero or [savedSEK] is NaN. *)
Theorem roi_undefined (i : CalcInput) :
  Normalized i = true ->
  (isNaN (roi (calc i)) = true
   <-> eq (annualCost (calc i)) (num 0) = true \/ isNaN (savedSEK (calc i)) = true).
Proof.
  intros HN. destruct (annualCost_facts i HN) as (_ & Fa & _).
  rewrite calc_roi.
  destruct (gt (annualCost (calc i)) (num 0)) eqn:G.
  - apply (gt_zero_val _ Fa) in G.
    assert (Nz : eq (annualCost (calc i)) (num 0) = false).
    { destruct (eq (annualCost (calc i)) (num 0)) eqn:E; [|reflexivity].
      apply (eq_zero_val _ Fa) in E. lra. }
    rewrite Nz, calc_net.
    destruct (calc_savedSEK_cases i HN) as [[Hs Ws]|[E _]].
    + assert (Ns : isNaN (savedSEK (calc i)) = false).
      { unfold nonneg_ext in Hs. destruct (savedSEK (calc i)) as [| | |[|]]; try reflexivity;
          discriminate. }
      rewrite Ns.
      assert (Hd : wf (sub (savedSEK (calc i)) (annualCost (calc i))) = true
                   /\ isNaN (sub (savedSEK (calc i)) (annualCost (calc i))) = false).
      { unfold nonneg_ext in Hs. apply orb_prop in Hs. destruct Hs as [Fs|Is].
        - apply sub_wf; assumption.
        - destruct (savedSEK (calc i)) as [|[|]| |]; try discriminate.
          fn_cases Fa; split; reflexivity. }
      rewrite (div_pos_not_nan _ _ (proj1 Hd) (proj2 Hd) Fa G).
      split; [discriminate | intros [H|H]; discriminate].
    + rewrite E. split; [right|]; reflexivity.
  - assert (Z : eq (annualCost (calc i)) (num 0) = true).
    { apply (eq_zero_val _ Fa). pose proof (val_nonneg _ Fa).
      destruct (Rle_lt_or_eq_dec _ _ H) as [P|P]; [|symmetry; exact P].
      apply (gt_zero_val _ Fa) in P. congruence. }
    split; [left; exact Z | reflexivity].
Qed.

Lemma roi_undefined_witness :
  Normalized (parsed (blank_state "bedDays")) = true
  /\ eq (annualCost (calc (parsed (blank_state "bedDays")))) (num 0) = true
  /\ isNaN (roi (calc (parsed (blank_state "bedDays")))) = true.
Proof.
  split; [vm_compute; reflexivity|]. split; [vm_compute; reflexivity|].
  apply (roi_undefined (parsed (blank_state "bedDays"))).
  - vm_compute; reflexivity.
  - left. vm_compute; reflexivity.
Defined.

(** X14.  On a normalized input the reverse rate [vriPer1000] is NaN
    exactly when [bedDays] is zero. *)
Theorem vriPer1000_undefined (i : CalcInput) :
  Normalized i = true ->
  (isNaN (vriPer1000 (calc i)) = true <-> eq (bedDays (calc i)) (num 0) = true).
Proof.
  intros HN. destruct (calc_chain i HN) as (Fb & _ & Fv & _).
  destruct (val_num 1000 ltac:(lia)) as [F1000 V1000].
  rewrite calc_vriPer1000.
  destruct (gt (bedDays (calc i)) (num 0)) eqn:G.
  - apply (gt_zero_val _ Fb) in G.
    assert (Nz : eq (bedDays (calc i)) (num 0) = false).
    { destruct (eq (bedDays (calc i)) (num 0)) eqn:E; [|reflexivity].
      apply (eq_zero_val _ Fb) in E. lra. }
    rewrite Nz.
    assert (Nn : isNaN (mul (div (vri (calc i)) (bedDays (calc i))) (num 1000)) = false).
    { destruct (div_Rnn _ _ Fv Fb G) as [[Fq _]|[-> _]].
      - apply (Rnn_not_nan _ _ (mul_Rnn _ _ Fq F1000)).
      - reflexivity. }
    rewrite Nn. split; discriminate.
  - assert (Z : eq (bedDays (calc i)) (num 0) = true).
    { apply (eq_zero_val _ Fb). pose proof (val_nonneg _ Fb).
      destruct (Rle_lt_or_eq_dec _ _ H) as [P|P]; [|symmetry; exact P].
      apply (gt_zero_val _ Fb) in P. congruence. }
    rewrite Z. split; reflexivity.
Qed.

Lemma vriPer1000_undefined_witness :
  Normalized (parsed (blank_state "bedDays")) = true
  /\ isNaN (vriPer1000 (calc (parsed (blank_state "bedDays")))) = true.
Proof.
  split; [vm_compute; reflexivity|].
  apply (vriPer1000_undefined (parsed (blank_state "bedDays"))).
  - vm_compute; reflexivity.
  - vm_compute; reflexivity.
Defined.

(** ** The chain of shares *)

Lemma le_trans_fn a b c :
  finite_nonneg a = true -> finite_nonneg b = true -> finite_nonneg c = true ->
  le a b = true -> le b c = true -> le a c = true.
Proof.
  intros Fa Fb Fc H1 H2.
  apply (le_val _ _ Fa Fb) in H1. apply (le_val _ _ Fb Fc) in H2.
  apply (le_val _ _ Fa Fc). lra.
Qed.

Lemma mul_frac_le a q :
  finite_nonneg a = true -> finite_nonneg q = true -> (val q <= 1)%R ->
  le (mul a q) a = true.
Proof.
  intros Fa Fq Hq. destruct (mul_frac a q Fa Fq Hq) as [F V].
  apply (le_val _ _ F Fa). exact V.
Qed.

Lemma mul_le_mono_frac a1 a2 q1 q2 :
  finite_nonneg a1 = true -> finite_nonneg a2 = true ->
  finite_nonneg q1 = true -> finite_nonneg q2 = true ->
  (val q1 <= 1)%R -> (val q2 <= 1)%R ->
  le a1 a2 = true -> le q1 q2 = true -> le (mul a1 q1) (mul a2 q2) = true.
Proof.
  intros F1 F2 G1 G2 V1 V2 La Lq.
  apply (le_trans_fn _ (mul a2 q1)).
  - apply mul_frac; assumption.
  - apply mul_frac; assumption.
  - apply mul_frac; assumption.
  - apply mul_le_mono_r; assumption.
  - apply mul_le_mono_l; assumption.
Qed.

Lemma Normalized_pct i f :
  Normalized i = true -> field_hi f = 100 ->
  finite_nonneg (get f i) = true
  /\ finite_nonneg (div (get f i) (num 100)) = true
  /\ (val (div (get f i) (num 100)) <= 1)%R.
Proof.
  intros HN Hh. destruct (Normalized_get i f HN) as [F V].
  rewrite Hh in V. split; [exact F|]. apply pct_frac; [exact F | lra].
Qed.

Lemma Normalized_rate i :
  Normalized i = true ->
  finite_nonneg (vriPer1000BedDays i) = true
  /\ finite_nonneg (div (vriPer1000BedDays i) (num 1000)) = true
  /\ (val (div (vriPer1000BedDays i) (num 1000)) <= 1)%R.
Proof.
  intros HN. destruct (Normalized_get i FVriPer1000BedDays HN) as [F V].
  cbn [get field_lo field_hi] in *.
  destruct (val_num 1000 ltac:(lia)) as [F1000 V1000].
  split; [exact F|]. apply div_frac; try assumption; rewrite V1000; lra.
Qed.

Lemma bedDays_bound i :
  Normalized i = true -> (val (bedDays (calc i)) <= 730000)%R.
Proof.
  intros HN.
  destruct (Normalized_get i FBeds HN) as [Fb Vb].
  destruct (Normalized_pct i FOccupancyPct HN eq_refl) as (Fo & Fq & Vq).
  cbn [get field_lo field_hi] in *.
  destruct (val_num 0 ltac:(lia)) as [F0 V0].
  destruct (val_num 1 ltac:(lia)) as [F1 V1].
  destruct (val_num 365 ltac:(lia)) as [F365 V365].
  set (occupancy := clamp (div (occupancyPct i) (num 100)) (num 0) (num 1)).
  assert (Hocc : finite_nonneg occupancy = true /\ (val occupancy <= 1)%R).
  { destruct (clamp_bounds (div (occupancyPct i) (num 100)) (num 0) (num 1))
      as (_ & _ & [E|[E|[E _]]]); try reflexivity;
      fold occupancy in E; rewrite E; split; try assumption; lra. }
  destruct Hocc as [Focc Vocc].
  destruct (mul_bounded (beds i) (num 365) 730000 Fb F365 ltac:(lia)) as [Fb1 Vb1].
  { rewrite V365. lra. }
  rewrite calc_bedDays. fold occupancy.
  apply (mul_bounded _ _ 730000 Fb1 Focc); [lia|].
  pose proof (val_nonneg _ Fb1). pose proof (val_nonneg _ Focc). nra.
Qed.

(** X15.  On a normalized input each stage of the chain is a share of the
    stage before it: [avoided <= sinkGramNeg <= gramNeg <= vri], the
    infections computed from the rate never exceed the bed days, and the
    bed days never exceed 2000 beds times 365 days. *)
Theorem chain_order (i : CalcInput) :
  Normalized i = true ->
  le (avoided (calc i)) (sinkGramNeg (calc i)) = true
  /\ le (sinkGramNeg (calc i)) (gramNeg (calc i)) = true
  /\ le (gramNeg (calc i)) (vri (calc i)) = true
  /\ le (vriFromRate (calc i)) (bedDays (calc i)) = true
  /\ le (bedDays (calc i)) (num 730000) = true.
Proof.
  intros HN. destruct (calc_chain i HN) as (Fb & _ & Fv & Fg & Fs & _ & _).
  destruct (Normalized_pct i FGramNegPct HN eq_refl) as (_ & Fqg & Vqg).
  destruct (Normalized_pct i FSinkAttributablePct HN eq_refl) as (_ & Fqs & Vqs).
  destruct (Normalized_pct i FEffectPct HN eq_refl) as (_ & Fqe & Vqe).
  destruct (Normalized_rate i HN) as (_ & Fqr & Vqr).
  cbn [get] in *.
  destruct (val_num 730000 ltac:(lia)) as [F73 V73].
  split; [rewrite calc_avoided; apply mul_frac_le; assumption|].
  split; [rewrite calc_sinkGramNeg; apply mul_frac_le; assumption|].
  split; [rewrite calc_gramNeg; apply mul_frac_le; assumption|].
  split; [rewrite calc_vriFromRate, mul_comm; apply mul_frac_le; assumption|].
  apply (le_val _ _ Fb F73). rewrite V73. apply bedDays_bound, HN.
Qed.

Lemma chain_order_witness :
  Normalized (parsed defaults) = true
  /\ le (avoided (calc (parsed defaults))) (sinkGramNeg (calc (parsed defaults))) = true.
Proof.
  split; [vm_compute; reflexivity|].
  destruct (chain_order (parsed defaults)) as (H & _).
  - vm_compute; reflexivity.
  - exact H.
Defined.

(** X16.  Raising the infection rate or any of the three percentages,
    with the beds, the occupancy and the override unchanged, never lowers
    the number of infections per year nor the number avoided. *)
Theorem avoided_monotone (i1 i2 : CalcInput) :
  Normalized i1 = true -> Normalized i2 = true ->
  beds i1 = beds i2 -> occupancyPct i1 = occupancyPct i2 ->
  vriPerYearOverride i1 = vriPerYearOverride i2 ->
  le (vriPer1000BedDays i1) (vriPer1000BedDays i2) = true ->
  le (gramNegPct i1) (gramNegPct i2) = true ->
  le (sinkAttributablePct i1) (sinkAttributablePct i2) = true ->
  le (effectPct i1) (effectPct i2) = true ->
  le (vri (calc i1)) (vri (calc i2)) = true
  /\ le (avoided (calc i1)) (avoided (calc i2)) = true.
Proof.
  intros HN1 HN2 Eb Eo Ev Lr Lg Ls Le.
  destruct (calc_chain i1 HN1) as (Fb1 & Fr1 & Fv1 & Fg1 & Fs1 & _ & _).
  destruct (calc_chain i2 HN2) as (Fb2 & Fr2 & Fv2 & Fg2 & Fs2 & _ & _).
  destruct (Normalized_pct i1 FGramNegPct HN1 eq_refl) as (Pg1 & Fqg1 & Vqg1).
  destruct (Normalized_pct i2 FGramNegPct HN2 eq_refl) as (Pg2 & Fqg2 & Vqg2).
  destruct (Normalized_pct i1 FSinkAttributablePct HN1 eq_refl) as (Ps1 & Fqs1 & Vqs1).
  destruct (Normalized_pct i2 FSinkAttributablePct HN2 eq_refl) as (Ps2 & Fqs2 & Vqs2).
  destruct (Normalized_pct i1 FEffectPct HN1 eq_refl) as (Pe1 & Fqe1 & Vqe1).
  destruct (Normalized_pct i2 FEffectPct HN2 eq_refl) as (Pe2 & Fqe2 & Vqe2).
  destruct (Normalized_rate i1 HN1) as (Pr1 & Fqr1 & Vqr1).
  destruct (Normalized_rate i2 HN2) as (Pr2 & Fqr2 & Vqr2).
  cbn [get] in *.
  destruct (val_num 100 ltac:(lia)) as [F100 V100].
  destruct (val_num 1000 ltac:(lia)) as [F1000 V1000].
  assert (P100 : (0 < val (num 100))%R) by (rewrite V100; lra).
  assert (P1000 : (0 < val (num 1000))%R) by (rewrite V1000; lra).
  assert (Ebd : bedDays (calc i1) = bedDays (calc i2)).
  { rewrite !calc_bedDays, Eb, Eo. reflexivity. }
  assert (Lrate : le (vriFromRate (calc i1)) (vriFromRate (calc i2)) = true).
  { rewrite !calc_vriFromRate, Ebd. apply mul_le_mono_r; try assumption.
    apply div_le_mono; assumption. }
  assert (Lv : le (vri (calc i1)) (vri (calc i2)) = true).
  { pose proof Fv1 as Fv1'. revert Fv1'.
    rewrite !calc_vri, !calc_usedOverride, Ev.
    destruct (isFinite (vriPerYearOverride i2) && gt (vriPerYearOverride i2) (num 0)).
    - intros F. apply le_refl. fn_cases F; reflexivity.
    - intros _. exact Lrate. }
  split; [exact Lv|].
  rewrite !calc_avoided, !calc_sinkGramNeg, !calc_gramNeg.
  rewrite calc_gramNeg in Fg1, Fg2. rewrite calc_sinkGramNeg, calc_gramNeg in Fs1, Fs2.
  apply mul_le_mono_frac; try assumption; [|apply div_le_mono; assumption].
  apply mul_le_mono_frac; try assumption; [|apply div_le_mono; assumption].
  apply mul_le_mono_frac; try assumption. apply div_le_mono; assumption.
Qed.

Lemma avoided_monotone_witness :
  le (avoided (calc (parsed (st_effect 10))))
     (avoided (calc (set_sinkAttributablePct
                       (set_gramNegPct (parsed (st_effect 20)) (num 50)) (num 40)))) = true.
Proof.
  apply (avoided_monotone (parsed (st_effect 10))
           (set_sinkAttributablePct (set_gramNegPct (parsed (st_effect 20)) (num 50))
                                    (num 40)));
    vm_compute; reflexivity.
Defined.

(** ** What the advisories announce *)

Lemma safetyNotes_filter p r : safetyNotes p r = evaluate p r.
Proof.
  unfold safetyNotes, evaluate, rules. rewrite !push_if_app. cbn [app filter fst].
  destruct (negb (usedOverride r) && eq (vriPer1000BedDays p) (num 0));
  destruct (le (sinkAttributablePct p) (num 5));
  destruct (le (effectPct p) (num 5));
  destruct (String.eqb (pricingMode p) "bedDays" && eq (costPerBedDay p) (num 0));
  destruct (String.eqb (pricingMode p) "perVRI" && eq (costPerVRI p) (num 0));
  reflexivity.
Qed.

Lemma advisory_fires p r c m :
  In (c, m) (rules p r) -> (In m (safetyNotes p r) <-> c = true).
Proof.
  intros Hin. rewrite safetyNotes_filter.
  apply filter_In_fired; [apply notes_distinct | exact Hin].
Qed.

Lemma eq_zero_inv x :
  finite_nonneg x = true -> eq x (num 0) = true -> exists s, x = S754_zero s.
Proof.
  intros F E. apply (eq_zero_val _ F) in E. apply val_zero_inv; assumption.
Qed.

Lemma zero_eq s : eq (S754_zero s) (num 0) = true.
Proof. destruct s; reflexivity. Qed.

Lemma mul_zero_r a s :
  finite_nonneg a = true -> exists t, mul a (S754_zero s) = S754_zero t.
Proof. intros F. rewrite mul_comm. apply mul_zero_l, F. Qed.

(** X17.  What the advisories announce holds on a normalized input.  When
    the zero-rate advisory is shown, the infections, the avoided
    infections and the saving are all zero.  When the advisory on a zero
    cost per infection is shown, the saving is zero.  When the advisory on
    a zero cost per bed day is shown, the saving is zero unless the saved
    bed days have overflowed to [Infinity], in which case the saving is
    NaN, contrary to the text of the advisory. *)
Theorem advisory_promises (i : CalcInput) :
  Normalized i = true ->
  (In note_zero_rate (safetyNotes i (calc i)) ->
   eq (vri (calc i)) (num 0) = true
   /\ eq (avoided (calc i)) (num 0) = true
   /\ eq (savedSEK (calc i)) (num 0) = true)
  /\ (In note_zero_vri_cost (safetyNotes i (calc i)) ->
      eq (savedSEK (calc i)) (num 0) = true)
  /\ (In note_zero_bedday_cost (safetyNotes i (calc i)) ->
      eq (savedSEK (calc i)) (num 0) = true
      \/ (savedBedDays (calc i) = Infinity /\ savedSEK (calc i) = NaN)).
Proof.
  intros HN.
  destruct (calc_chain i HN) as (Fb & _ & _ & _ & _ & Fa & Rsb).
  destruct (Normalized_pct i FGramNegPct HN eq_refl) as (_ & Fqg & _).
  destruct (Normalized_pct i FSinkAttributablePct HN eq_refl) as (_ & Fqs & _).
  destruct (Normalized_pct i FEffectPct HN eq_refl) as (_ & Fqe & _).
  destruct (Normalized_rate i HN) as (Fr & _ & _).
  destruct (Normalized_get i FExtraDaysPerVRI HN) as [Fx _].
  destruct (Normalized_get i FCostPerBedDay HN) as [Fcb _].
  destruct (Normalized_get i FCostPerVRI HN) as [Fcv _].
  cbn [get] in *.
  split; [|split].
  - intros H.
    apply (advisory_fires i (calc i)
             (negb (usedOverride (calc i)) && eq (vriPer1000BedDays i) (num 0))) in H;
      [|cbn [rules In]; left; reflexivity].
    apply andb_prop in H. destruct H as [U Z]. apply negb_true_iff in U.
    destruct (eq_zero_inv _ Fr Z) as [s Es].
    assert (Hv : exists t, vri (calc i) = S754_zero t).
    { rewrite calc_vri, U, calc_vriFromRate, Es.
      assert (Q : exists t, div (S754_zero s) (num 1000) = S754_zero t)
        by (eexists; reflexivity).
      destruct Q as [t ->]. apply mul_zero_l, Fb. }
    destruct Hv as [t1 E1].
    assert (Ha : exists t, avoided (calc i) = S754_zero t).
    { rewrite calc_avoided, calc_sinkGramNeg, calc_gramNeg, E1.
      destruct (mul_zero_l t1 _ Fqg) as [t2 ->].
      destruct (mul_zero_l t2 _ Fqs) as [t3 ->].
      apply mul_zero_l, Fqe. }
    destruct Ha as [t4 E4].
    split; [rewrite E1; apply zero_eq|]. split; [rewrite E4; apply zero_eq|].
    rewrite calc_savedSEK, calc_savedBedDays, E4.
    destruct (String.eqb (pricingMode i) "perVRI").
    + destruct (mul_zero_l t4 _ Fcv) as [t ->]. apply zero_eq.
    + destruct (mul_zero_l t4 _ Fx) as [t5 ->].
      destruct (mul_zero_l t5 _ Fcb) as [t ->]. apply zero_eq.
  - intros H.
    apply (advisory_fires i (calc i)
             (String.eqb (pricingMode i) "perVRI" && eq (costPerVRI i) (num 0))) in H;
      [|cbn [rules In]; do 4 right; left; reflexivity].
    apply andb_prop in H. destruct H as [M Z].
    destruct (eq_zero_inv _ Fcv Z) as [s Es].
    rewrite calc_savedSEK, M, Es.
    destruct (mul_zero_r _ s Fa) as [t ->]. apply zero_eq.
  - intros H.
    apply (advisory_fires i (calc i)
             (String.eqb (pricingMode i) "bedDays" && eq (costPerBedDay i) (num 0))) in H;
      [|cbn [rules In]; do 3 right; left; reflexivity].
    apply andb_prop in H. destruct H as [M Z]. apply String.eqb_eq in M.
    destruct (eq_zero_inv _ Fcb Z) as [s Es].
    rewrite calc_savedSEK, M, Es. cbn [String.eqb Ascii.eqb Bool.eqb].
    destruct Rsb as [[Fsb _]|[E _]].
    + left. destruct (mul_zero_r _ s Fsb) as [t ->]. apply zero_eq.
    + right. rewrite E. split; reflexivity.
Qed.

Lemma advisory_promises_witness :
  Normalized (parsed (st_extreme "100")) = true
  /\ In note_zero_bedday_cost
        (safetyNotes (parsed (st_extreme "100")) (calc (parsed (st_extreme "100"))))
  /\ (eq (savedSEK (calc (parsed (st_extreme "100")))) (num 0) = true
      \/ (savedBedDays (calc (parsed (st_extreme "100"))) = Infinity
          /\ savedSEK (calc (parsed (st_extreme "100"))) = NaN)).
Proof.
  assert (HN : Normalized (parsed (st_extreme "100")) = true) by (vm_compute; reflexivity).
  assert (Hin : In note_zero_bedday_cost
                  (safetyNotes (parsed (st_extreme "100"))
                               (calc (parsed (st_extreme "100")))))
    by (vm_compute; auto).
  split; [exact HN|]. split; [exact Hin|].
  exact (proj2 (proj2 (advisory_promises (parsed (st_extreme "100")) HN)) Hin).
Defined.

(** X18.  The advisory list holds at most four of the five advisories, in
    the order of the source and without repetition; the two advisories on
    a zero cost never appear together. *)
Theorem advisories_shape (p : CalcInput) (r : CalcResult) :
  (List.length (safetyNotes p r) <= 4)%nat
  /\ NoDup (safetyNotes p r)
  /\ ~ (In note_zero_bedday_cost (safetyNotes p r)
        /\ In note_zero_vri_cost (safetyNotes p r))
  /\ (exists keep : list bool,
        safetyNotes p r
        = map snd (filter fst (combine keep
            [note_zero_rate; note_low_sink; note_low_effect;
             note_zero_bedday_cost; note_zero_vri_cost]))).
Proof.
  assert (X : ~ (String.eqb (pricingMode p) "bedDays" && eq (costPerBedDay p) (num 0) = true
                 /\ String.eqb (pricingMode p) "perVRI" && eq (costPerVRI p) (num 0) = true)).
  { intros [A B]. apply andb_prop in A, B. destruct A as [A _], B as [B _].
    apply String.eqb_eq in A. rewrite A in B. discriminate. }
  split; [|split; [|split]].
  - rewrite safetyNotes_filter. unfold evaluate, rules.
    destruct (String.eqb (pricingMode p) "bedDays" && eq (costPerBedDay p) (num 0)) eqn:A;
    destruct (String.eqb (pricingMode p) "perVRI" && eq (costPerVRI p) (num 0)) eqn:B;
      [exfalso; apply X; split; reflexivity| | |];
    destruct (negb (usedOverride r) && eq (vriPer1000BedDays p) (num 0));
    destruct (le (sinkAttributablePct p) (num 5));
    destruct (le (effectPct p) (num 5)); cbn; lia.
  - rewrite safetyNotes_filter. unfold evaluate.
    pose proof (notes_distinct p r) as ND. revert ND.
    generalize (rules p r). intros l. induction l as [|[c m] l IH]; intros ND.
    + constructor.
    + cbn [map snd] in ND. apply NoDup_cons_iff in ND. destruct ND as [Nin ND].
      cbn [filter fst]. destruct c; [|apply IH, ND].
      cbn [map snd]. constructor; [|apply IH, ND].
      intros H. apply Nin. apply in_map_iff in H. destruct H as (y & <- & Hy).
      apply filter_In in Hy. apply in_map, Hy.
  - intros [A B]. apply X. split.
    + apply (advisory_fires p r _ note_zero_bedday_cost); [|exact A].
      cbn [rules In]. do 3 right. left. reflexivity.
    + apply (advisory_fires p r _ note_zero_vri_cost); [|exact B].
      cbn [rules In]. do 4 right. left. reflexivity.
  - exists (map fst (rules p r)). rewrite safetyNotes_filter. reflexivity.
Qed.

(** ** The formatters *)

Lemma normalize_int_finite z :
  Z.abs z < 2 ^ 53 -> isFinite (binary_normalize prec emax z 0 false) = true.
Proof.
  assert (K : forall s p, Zpos p < 2 ^ 53 ->
                isFinite (binary_round prec emax s p 0) = true).
  { intros s p Hp. destruct (binary_round_spec s p 0) as (v & Hn & Hf).
    assert (HF : Fmt (F2R (Zpos p) 0)).
    { exists (Zpos p), 0. split; [reflexivity|]. split; simpl; lia. }
    rewrite (nearest_exact _ _ HF Hn) in Hf.
    destruct (binary_round prec emax s p 0) as [| | |]; try reflexivity; [|contradiction].
    destruct Hf as [_ Hf]. exfalso.
    assert (F2R (Zpos p) 0 < bpow 1024)%R; [|lra].
    apply Rlt_le_trans with (F2R (2 ^ 53) 0).
    - apply F2R_lt, Hp.
    - rewrite F2R_pow2 by lia. apply bpow_le. lia. }
  intros H. destruct z as [|p|p]; unfold binary_normalize.
  - reflexivity.
  - apply K. lia.
  - apply K. lia.
Qed.

Lemma Math_round_quotient s m k :
  Zpos m < 2 ^ 53 ->
  Z.abs ((2 * cond_Zopp s (Zpos m) + 2 ^ Zpos k) / 2 ^ (Zpos k + 1)) < 2 ^ 53
  /\ (s = false -> 0 <= (2 * cond_Zopp s (Zpos m) + 2 ^ Zpos k) / 2 ^ (Zpos k + 1)).
Proof.
  intros Hm.
  assert (P2 : 2 ^ 1 <= 2 ^ Zpos k) by (apply Z.pow_le_mono_r; lia).
  rewrite Z.pow_add_r by lia. change (2 ^ 1) with 2 in *.
  set (P := 2 ^ Zpos k) in *. clearbody P.
  change (2 ^ 53) with 9007199254740992 in *.
  split.
  - apply Z.abs_lt. split.
    + apply Z.lt_le_trans with (-9007199254740992 + 1); [lia|].
      apply Z.div_le_lower_bound; [lia|]. destruct s; cbn [cond_Zopp]; lia.
    + apply Z.div_lt_upper_bound; [lia|]. destruct s; cbn [cond_Zopp]; lia.
  - intros ->. cbn [cond_Zopp]. apply Z.div_pos; lia.
Qed.

Lemma Math_round_finite x :
  wf x = true -> isFinite x = true -> isFinite (Math_round x) = true.
Proof.
  intros W F. destruct x as [s|s| |s m e]; try discriminate; [reflexivity|].
  destruct (bounded_facts m e W) as (_ & Hm & _).
  destruct e as [|e|k]; try reflexivity.
  unfold Math_round. destruct (Math_round_quotient s m k Hm) as [B _].
  destruct ((2 * cond_Zopp s (Zpos m) + 2 ^ Zpos k) / 2 ^ (Zpos k + 1)) eqn:Ez.
  - reflexivity.
  - apply normalize_int_finite, B.
  - apply normalize_int_finite, B.
Qed.

Lemma Math_round_nonneg x :
  finite_nonneg x = true -> finite_nonneg (Math_round x) = true.
Proof.
  intros H. fn_cases H; [reflexivity|].
  destruct (bounded_facts m e B) as (_ & Hm & _).
  destruct e as [|e|k]; try exact B.
  unfold Math_round. destruct (Math_round_quotient false m k Hm) as [Bz Pz].
  specialize (Pz eq_refl).
  destruct ((2 * cond_Zopp false (Zpos m) + 2 ^ Zpos k) / 2 ^ (Zpos k + 1)) eqn:Ez.
  - reflexivity.
  - apply (val_num (Zpos p)). lia.
  - lia.
Qed.

(** X19.  [fmtInt] and [fmtMoneySEK] never hand [toLocaleString] a value
    that is not finite: the rounded value of a finite double is finite. *)
Theorem fmtInt_finite (toLocaleString : number -> string) (n : number) :
  wf n = true -> isFinite n = true ->
  isFinite (Math_round n) = true
  /\ fmtInt toLocaleString n = toLocaleString (Math_round n)
  /\ fmtMoneySEK toLocaleString n = (toLocaleString (Math_round n) ++ " kr")%string.
Proof.
  intros W F. split; [apply Math_round_finite; assumption|].
  unfold fmtInt, fmtMoneySEK. rewrite F. split; reflexivity.
Qed.

Lemma fmtInt_finite_witness :
  isFinite (Math_round (net (calc (parsed defaults)))) = true.
Proof.
  apply (fmtInt_finite (fun _ => EmptyString) (net (calc (parsed defaults))));
    vm_compute; reflexivity.
Defined.

Lemma val_two_pow_1020 : val two_pow_1020 = bpow 1020.
Proof.
  unfold two_pow_1020. cbn [val cond_Zopp].
  change (Zpos 4503599627370496) with (2 ^ 52). rewrite F2R_pow2 by lia. reflexivity.
Qed.

Lemma val_two_pow_1021 : val two_pow_1021 = bpow 1021.
Proof.
  unfold two_pow_1021. cbn [val cond_Zopp].
  change (Zpos 4503599627370496) with (2 ^ 52). rewrite F2R_pow2 by lia. reflexivity.
Qed.

Lemma times_ten_finite n :
  finite_nonneg n = true -> le n two_pow_1020 = true ->
  finite_nonneg (mul n (num 10)) = true.
Proof.
  intros F L. destruct (val_num 10 ltac:(lia)) as [F10 V10].
  apply (le_val _ _ F) in L; [|reflexivity]. rewrite val_two_pow_1020 in L.
  assert (FM : finite_nonneg MAX_VALUE = true) by reflexivity.
  destruct (Rnn_bounded _ _ MAX_VALUE (mul_Rnn _ _ F F10) FM) as (R & _); [|exact R].
  rewrite V10. unfold MAX_VALUE. cbn [val cond_Zopp]. unfold F2R.
  replace 1020 with (49 + 971) in L by lia. rewrite bpow_add, <- bpow_IZR in L by lia.
  change (2 ^ 49) with 562949953421312 in L.
  pose proof (bpow_pos 971) as P. set (b := bpow 971) in *. clearbody b.
  apply Rle_trans with (10 * (562949953421312 * b))%R; [lra|].
  apply Rle_trans with (5629499534213120 * b)%R; [lra|].
  apply Rmult_le_compat_r; [lra|]. apply IZR_le. lia.
Qed.

Lemma times_ten_overflow n :
  finite_nonneg n = true -> le two_pow_1021 n = true -> mul n (num 10) = Infinity.
Proof.
  intros F L. destruct (val_num 10 ltac:(lia)) as [F10 V10].
  apply le_val in L; [|reflexivity | exact F]. rewrite val_two_pow_1021 in L.
  destruct (mul_Rnn _ _ F F10) as [[R Hn]|[E _]]; [|exact E].
  exfalso. pose proof (val_lt_top _ R) as T.
  assert (HF : Fmt (bpow 1024)).
  { exists 1, 1024. split; [unfold F2R; lra|]. split; simpl; lia. }
  apply (nearest_ge _ _ _ HF) in Hn; [lra|].
  rewrite V10. replace 1024 with (1021 + 1 + 1 + 1) by lia. rewrite !bpow_succ.
  pose proof (bpow_pos 1021). lra.
Qed.

(** X20.  [fmt1] multiplies by ten before it rounds, and the product
    overflows near the top of the range: a finite value of [2^1021] or
    more is handed to [toLocaleString] as [Infinity], while a value of at
    most [2^1020] is handed over as a finite number. *)
Theorem fmt1_overflow (toLocaleString1 : number -> string) (n : number) :
  finite_nonneg n = true ->
  (le n two_pow_1020 = true ->
   exists x, fmt1_arg n = Some x /\ isFinite x = true
             /\ fmt1 toLocaleString1 n = toLocaleString1 x)
  /\ (le two_pow_1021 n = true ->
      fmt1_arg n = Some Infinity
      /\ fmt1 toLocaleString1 n = toLocaleString1 Infinity).
Proof.
  intros F. pose proof (finite_nonneg_finite _ F) as Fi.
  destruct (val_num 10 ltac:(lia)) as [F10 V10].
  unfold fmt1_arg, fmt1. rewrite Fi. cbn [negb]. split.
  - intros L. eexists. split; [reflexivity|]. split; [|reflexivity].
    pose proof (Math_round_nonneg _ (times_ten_finite n F L)) as R.
    apply finite_nonneg_finite.
    destruct (Rnn_bounded _ _ _ (div_Rnn _ _ R F10 ltac:(lra)) R) as (Q & _); [|exact Q].
    rewrite V10. pose proof (val_nonneg _ R). lra.
  - intros L. rewrite (times_ten_overflow n F L). split; reflexivity.
Qed.

Lemma fmt1_overflow_witness :
  finite_nonneg (vri (calc (parsed (st_extreme "100")))) = true
  /\ le two_pow_1021 (vri (calc (parsed (st_extreme "100")))) = true
  /\ fmt1_arg (vri (calc (parsed (st_extreme "100")))) = Some Infinity.
Proof.
  split; [vm_compute; reflexivity|]. split; [vm_compute; reflexivity|].
  apply (fmt1_overflow (fun _ => EmptyString) (vri (calc (parsed (st_extreme "100"))))).
  - vm_compute; reflexivity.
  - vm_compute; reflexivity.
Defined.

Lemma kr_not_sentinel s : (s ++ " kr")%string <> sentinel.
Proof.
  destruct s as [|a [|b [|c [|d s]]]]; cbn [append]; unfold sentinel; discriminate.
Qed.

Lemma pct_not_sentinel s : (s ++ " %")%string <> sentinel.
Proof.
  destruct s as [|a [|b [|c [|d s]]]]; cbn [append]; unfold sentinel; discriminate.
Qed.

Lemma years_not_sentinel s : (s ++ " år")%string <> sentinel.
Proof.
  destruct s as [|a [|b [|c [|d s]]]]; cbn [append]; unfold sentinel; discriminate.
Qed.

(** X21.  The dash stands for a value that is not finite, and for nothing
    else where a unit is appended: all four formatters return it for NaN
    and the infinities, and [fmtMoneySEK] and [fmtPct] return it only
    then, whatever the locale prints. *)
Theorem sentinel_meaning (toLocaleString toLocaleString1 : number -> string)
        (n : number) :
  (isFinite n = false ->
   fmtInt toLocaleString n = sentinel /\ fmt1 toLocaleString1 n = sentinel)
  /\ (fmtMoneySEK toLocaleString n = sentinel <-> isFinite n = false)
  /\ (fmtPct toLocaleString1 n = sentinel <-> isFinite n = false).
Proof.
  unfold fmtInt, fmt1, fmtMoneySEK, fmtPct.
  destruct (isFinite n); cbn [negb].
  - split; [discriminate|]. split; split; try discriminate; intros H; exfalso.
    + exact (kr_not_sentinel _ H).
    + exact (pct_not_sentinel _ H).
  - repeat split; reflexivity.
Qed.

(** X22.  On a normalized input the payback period is printed as the dash
    exactly when [savedSEK <= opexYear] or [savedSEK] is NaN; otherwise it
    is a finite number of years followed by the unit. *)
Theorem payback_dash (toLocaleString1 : number -> string) (i : CalcInput) :
  Normalized i = true ->
  (paybackText toLocaleString1 (calc i) = sentinel
   <-> le (savedSEK (calc i)) (opexYear i) = true
       \/ isNaN (savedSEK (calc i)) = true)
  /\ (gt (savedSEK (calc i)) (opexYear i) = true ->
      isFinite (paybackYears (calc i)) = true
      /\ paybackText toLocaleString1 (calc i)
         = (fmt1 toLocaleString1 (paybackYears (calc i)) ++ " år")%string).
Proof.
  intros HN. destruct (Normalized_opex_capex i HN) as [Fo _].
  assert (No : isNaN (opexYear i) = false)
    by (apply isFinite_not_nan, finite_nonneg_finite, Fo).
  rewrite <- (gt_false_iff _ _ No). unfold paybackText.
  destruct (gt (savedSEK (calc i)) (opexYear i)) eqn:G.
  - destruct (payback_defined i HN G) as (F & _).
    rewrite (finite_nonneg_finite _ F). split.
    + split; [|discriminate]. intros H. exfalso. exact (years_not_sentinel _ H).
    + intros _. split; reflexivity.
  - rewrite calc_paybackYears, G. cbn [isFinite NaN]. split.
    + split; reflexivity.
    + discriminate.
Qed.

Lemma payback_dash_witness :
  Normalized (parsed defaults) = true
  /\ paybackText (fun _ => EmptyString) (calc (parsed defaults)) = sentinel.
Proof.
  split; [vm_compute; reflexivity|].
  apply (payback_dash (fun _ => EmptyString) (parsed defaults)).
  - vm_compute; reflexivity.
  - left. vm_compute; reflexivity.
Defined.
